(** * redis-lmdb: a shallow embedding of the RESP codec and stream buffer,
    the store adapter, the command handlers and the server's handling of
    its port argument and of incoming data, with the properties stated
    about them.

    Conventions of the embedding.

    - A JavaScript string is represented by the bytes of its UTF-8 encoding
      (a Rocq [string]); every string the program handles is well formed
      (it comes from a literal or from [Buffer.toString]), so the
      representation loses nothing.  [js_length] is the JavaScript
      [.length] (the number of UTF-16 code units), which differs from the
      number of bytes as soon as a character is not ASCII.
    - A [Buffer] is a Rocq [string] read as raw bytes; [Buffer.from(str)] is
      the identity on representations and [buf.toString()] is
      [Buffer_toString] (lenient UTF-8 decoding, then re-encoding).
    - JavaScript numbers are modelled by [Z]; [NaN] is [None].
    - The LMDB engine is a finite map whose writes are asynchronous:
      [db.put], [db.remove] and [db.transaction] return promises that the
      program never awaits.  A write is accepted or refused (a thrown
      error, given by an [Engine] record) at the call, and the reads
      ([db.get], [db.getKeys], [db.getRange]) see it only once the engine
      has committed it, in a later turn of the event loop; the callback of
      [db.transaction] is run by the engine at that later time as well.
      The store keeps the writes that are under way in [pending], and
      [settle] is the engine committing some of them; the functions of the
      program never settle anything themselves, since a chain of [await]s
      on promises that are already resolved stays within one turn.
    - [Date.now()] and [Math.random()] are explicit inputs. *)

From Stdlib Require Import ZArith NArith String Ascii List Lia Bool.
From stdpp Require Import base option list strings pretty gmap sorting.

Local Open Scope string_scope.
Local Open Scope Z_scope.

(* ================================================================== *)
(** ** JavaScript strings and buffers *)
(* ================================================================== *)

Module JS.

Definition CR : ascii := ascii_of_N 13.
Definition LF : ascii := ascii_of_N 10.
(** The two bytes written [\r\n] in the source. *)
Definition CRLF : string := String CR (String LF "").

Definition bytes (s : string) : list N :=
  N_of_ascii <$> list_ascii_of_string s.
Definition of_bytes (l : list N) : string :=
  string_of_list_ascii (ascii_of_N <$> l).

Definition REPLACEMENT : N := 0xFFFD%N.

(** What a byte means at the start of a UTF-8 sequence: a complete code
    point, or the number of continuation bytes still needed together with
    the bits read so far and the range allowed for the next byte. *)
Inductive lead_result :=
| Emit (cp : N)
| Need (n : nat) (cp lo hi : N).

Definition lead (b : N) : lead_result :=
  (if b <? 0x80 then Emit b
   else if (0xC2 <=? b) && (b <=? 0xDF) then
     Need 1 (N.land b 0x1F) 0x80 0xBF
   else if (0xE0 <=? b) && (b <=? 0xEF) then
     Need 2 (N.land b 0xF)
          (if b =? 0xE0 then 0xA0 else 0x80) (if b =? 0xED then 0x9F else 0xBF)
   else if (0xF0 <=? b) && (b <=? 0xF4) then
     Need 3 (N.land b 0x7)
          (if b =? 0xF0 then 0x90 else 0x80) (if b =? 0xF4 then 0x8F else 0xBF)
   else Emit REPLACEMENT)%N.

(** Lenient UTF-8 decoding: every ill-formed sequence yields U+FFFD and
    decoding resumes at the offending byte. *)
Fixpoint decode_go (bs : list N) (need : nat) (cp lo hi : N) : list N :=
  match bs with
  | [] => match need with O => [] | S _ => [REPLACEMENT] end
  | b :: rest =>
      let restart :=
        match lead b with
        | Emit c => c :: decode_go rest 0 0%N 0x80%N 0xBF%N
        | Need n c l h => decode_go rest n c l h
        end in
      match need with
      | O => restart
      | S n =>
          if ((lo <=? b) && (b <=? hi))%N then
            let cp' := N.lor (N.shiftl cp 6) (N.land b 0x3F) in
            match n with
            | O => cp' :: decode_go rest 0 0%N 0x80%N 0xBF%N
            | S _ => decode_go rest n cp' 0x80%N 0xBF%N
            end
          else REPLACEMENT :: restart
      end
  end.

(** The code points of a string. *)
Definition code_points (s : string) : list N :=
  decode_go (bytes s) 0 0%N 0x80%N 0xBF%N.

Definition encode_cp (c : N) : list N :=
  (if c <? 0x80 then [c]
   else if c <? 0x800 then
     [N.lor 0xC0 (N.shiftr c 6); N.lor 0x80 (N.land c 0x3F)]
   else if c <? 0x10000 then
     [N.lor 0xE0 (N.shiftr c 12); N.lor 0x80 (N.land (N.shiftr c 6) 0x3F);
      N.lor 0x80 (N.land c 0x3F)]
   else
     [N.lor 0xF0 (N.shiftr c 18); N.lor 0x80 (N.land (N.shiftr c 12) 0x3F);
      N.lor 0x80 (N.land (N.shiftr c 6) 0x3F); N.lor 0x80 (N.land c 0x3F)])%N.

Definition encode (cps : list N) : string := of_bytes (cps ≫= encode_cp).

(** [buf.toString()] (UTF-8). *)
Definition Buffer_toString (buf : string) : string := encode (code_points buf).

Definition utf16 (c : N) : list N :=
  (if c <? 0x10000 then [c]
   else [0xD800 + N.shiftr (c - 0x10000) 10;
         0xDC00 + N.land (c - 0x10000) 0x3FF])%N.

(** The UTF-16 code units of a string, which is what [.length], indexing
    and regular expressions without the [u] flag see. *)
Definition units (s : string) : list N := code_points s ≫= utf16.

(** [str.length]. *)
Definition js_length (s : string) : nat := length (units s).

(** A string made of ASCII characters only. *)
Definition ascii_only (s : string) : Prop :=
  Forall (fun b => (b < 128)%N) (bytes s).

(** ** [parseInt] *)

Definition is_digit (c : ascii) : bool :=
  let n := N_of_ascii c in ((48 <=? n) && (n <=? 57))%N.

(** A (possibly empty) run of decimal digits. *)
Fixpoint digits_only (s : string) : bool :=
  match s with
  | String c r => is_digit c && digits_only r
  | "" => true
  end.

(** Value of the longest prefix of decimal digits, from accumulator [acc]. *)
Fixpoint read_digits (s : string) (acc : N) : N :=
  match s with
  | String c r =>
      if is_digit c then read_digits r (acc * 10 + (N_of_ascii c - 48))%N
      else acc
  | "" => acc
  end.

Definition hex_digit (c : ascii) : option N :=
  let n := N_of_ascii c in
  (if (48 <=? n) && (n <=? 57) then Some (n - 48)
   else if (65 <=? n) && (n <=? 70) then Some (n - 55)
   else if (97 <=? n) && (n <=? 102) then Some (n - 87)
   else None)%N.

Fixpoint read_hex (s : string) (acc : N) : N :=
  match s with
  | String c r =>
      match hex_digit c with
      | Some d => read_hex r (acc * 16 + d)%N
      | None => acc
      end
  | "" => acc
  end.

(** One-byte white space and line terminators: TAB, LF, VT, FF, CR, SP. *)
Definition is_ws1 (c : ascii) : bool :=
  let n := N_of_ascii c in
  ((n =? 9) || (n =? 10) || (n =? 11) || (n =? 12) || (n =? 13) || (n =? 32))%N.

(** U+00A0, encoded on two bytes. *)
Definition is_ws2 (a b : ascii) : bool :=
  ((N_of_ascii a =? 0xC2) && (N_of_ascii b =? 0xA0))%N.

(** U+1680, U+2000..U+200A, U+2028, U+2029, U+202F, U+205F, U+3000 and
    U+FEFF, encoded on three bytes. *)
Definition is_ws3 (a b c : ascii) : bool :=
  let x := N_of_ascii a in let y := N_of_ascii b in let z := N_of_ascii c in
  (((x =? 0xE1) && (y =? 0x9A) && (z =? 0x80))
   || ((x =? 0xE2) && (y =? 0x80)
         && (((0x80 <=? z) && (z <=? 0x8A)) || (z =? 0xA8) || (z =? 0xA9)
             || (z =? 0xAF)))
   || ((x =? 0xE2) && (y =? 0x81) && (z =? 0x9F))
   || ((x =? 0xE3) && (y =? 0x80) && (z =? 0x80))
   || ((x =? 0xEF) && (y =? 0xBB) && (z =? 0xBF)))%N.

(** Strip the leading [StrWhiteSpaceChar]s. *)
Fixpoint skip_ws (s : string) : string :=
  match s with
  | String a r =>
      if is_ws1 a then skip_ws r
      else
        match r with
        | String b r2 =>
            if is_ws2 a b then skip_ws r2
            else
              match r2 with
              | String c r3 => if is_ws3 a b c then skip_ws r3 else s
              | "" => s
              end
        | "" => s
        end
  | "" => ""
  end.

(** Sign of the numeral and what follows it. *)
Definition read_sign (s : string) : bool * string :=
  match s with
  | String c r =>
      if Ascii.eqb c "-" then (true, r)
      else if Ascii.eqb c "+" then (false, r)
      else (false, s)
  | "" => (false, s)
  end.

Definition signed (neg : bool) (n : N) : Z :=
  if neg then - Z.of_N n else Z.of_N n.

(** [parseInt(s, 10)]; [None] is [NaN]. *)
Definition parseInt10 (s : string) : option Z :=
  let '(neg, body) := read_sign (skip_ws s) in
  match body with
  | String c _ =>
      if is_digit c then Some (signed neg (read_digits body 0)) else None
  | "" => None
  end.

(** [parseInt(s)] without a radix: a [0x] prefix selects base 16. *)
Definition parseInt (s : string) : option Z :=
  let '(neg, body) := read_sign (skip_ws s) in
  match body with
  | String z (String x (String h r as hex)) =>
      if Ascii.eqb z "0" && (Ascii.eqb x "x" || Ascii.eqb x "X") then
        match hex_digit h with
        | Some _ => Some (signed neg (read_hex hex 0))
        | None => None
        end
      else if is_digit z then Some (signed neg (read_digits body 0))
      else None
  | String z (String x "") =>
      if Ascii.eqb z "0" && (Ascii.eqb x "x" || Ascii.eqb x "X") then None
      else if is_digit z then Some (signed neg (read_digits body 0))
      else None
  | String c _ =>
      if is_digit c then Some (signed neg (read_digits body 0)) else None
  | "" => None
  end.

(** Template-literal rendering of a number: [`${n}`]. *)
Definition num_toString (n : Z) : string := pretty n.
Definition nat_toString (n : nat) : string := pretty (Z.of_nat n).

(** ** Buffers *)

Fixpoint sdrop (n : nat) (s : string) : string :=
  match n, s with
  | O, _ => s
  | S n', String _ r => sdrop n' r
  | S _, "" => ""
  end.

Fixpoint stake (n : nat) (s : string) : string :=
  match n, s with
  | O, _ => ""
  | S n', String c r => String c (stake n' r)
  | S _, "" => ""
  end.

Definition buf_length (b : string) : Z := Z.of_nat (String.length b).

(** [buffer[pos]]; [None] is [undefined]. *)
Definition byte_at (b : string) (pos : Z) : option ascii :=
  if pos <? 0 then None else String.get (Z.to_nat pos) b.

(** How [slice] reads an index: negative indices count from the end and
    everything is clamped to the buffer. *)
Definition clamp_index (len i : Z) : Z :=
  if i <? 0 then Z.max 0 (len + i) else Z.min i len.

(** [buffer.slice(from, to)]. *)
Definition buf_slice (b : string) (from to : Z) : string :=
  let f := clamp_index (buf_length b) from in
  let t := clamp_index (buf_length b) to in
  if t <=? f then "" else stake (Z.to_nat (t - f)) (sdrop (Z.to_nat f) b).

(** Offset of the first CRLF of [s]. *)
Fixpoint find_crlf (s : string) : option nat :=
  match s with
  | String c r =>
      match r with
      | String d _ =>
          if Ascii.eqb c CR && Ascii.eqb d LF then Some O
          else S <$> find_crlf r
      | "" => None
      end
  | "" => None
  end.

(** [buffer.indexOf('\r\n', offset)]; [-1] when there is none. *)
Definition indexOf_CRLF (b : string) (offset : Z) : Z :=
  let len := buf_length b in
  let o := if offset <? 0 then Z.max 0 (len + offset) else offset in
  if len <? o then -1
  else
    match find_crlf (sdrop (Z.to_nat o) b) with
    | Some i => o + Z.of_nat i
    | None => -1
    end.

End JS.

(* ================================================================== *)
(** ** The RESP codec (resp.js) *)
(* ================================================================== *)

Module Resp.
Import JS.

(** An element of a decoded command: [null], a string or a number. *)
Inductive arg :=
| ANull
| AStr (s : string)
| AInt (n : Z).

(** The closure [readUntilCRLF] of [parseRESP]: the bytes up to the next
    CRLF and the position after it; [None] is [null]. *)
Definition readUntilCRLF (buffer : string) (pos : Z) : option (string * Z) :=
  let e := indexOf_CRLF buffer pos in
  if e =? -1 then None else Some (buf_slice buffer pos e, e + 2).

(** The body of the [for] loop of [parseRESP], [n] elements still to be
    read from position [pos]. *)
Fixpoint parse_elements (buffer : string) (n : nat) (pos : Z)
    (args : list arg) : option (list arg) :=
  match n with
  | O => Some args
  | S n' =>
      if buf_length buffer <=? pos then None
      else
        match byte_at buffer pos with
        | None => None
        | Some argType =>
            let pos := pos + 1 in
            if Ascii.eqb argType "$" then
              match readUntilCRLF buffer pos with
              | None => None
              | Some (bulkLengthStr, pos) =>
                  match parseInt10 (Buffer_toString bulkLengthStr) with
                  | None => None
                  | Some bulkLength =>
                      if bulkLength =? -1 then
                        parse_elements buffer n' pos (args ++ [ANull])
                      else if buf_length buffer <? pos + bulkLength then None
                      else
                        let str := buf_slice buffer pos (pos + bulkLength) in
                        let pos := pos + bulkLength in
                        if indexOf_CRLF buffer pos =? pos then
                          parse_elements buffer n' (pos + 2)
                            (args ++ [AStr (Buffer_toString str)])
                        else None
                  end
              end
            else if Ascii.eqb argType "+" then
              match readUntilCRLF buffer pos with
              | None => None
              | Some (value, pos) =>
                  parse_elements buffer n' pos
                    (args ++ [AStr (Buffer_toString value)])
              end
            else if Ascii.eqb argType "-" then
              match readUntilCRLF buffer pos with
              | None => None
              | Some (value, pos) =>
                  parse_elements buffer n' pos
                    (args ++ [AStr ("Error: " ++ Buffer_toString value)])
              end
            else if Ascii.eqb argType ":" then
              match readUntilCRLF buffer pos with
              | None => None
              | Some (value, pos) =>
                  match parseInt10 (Buffer_toString value) with
                  | None => None
                  | Some intValue =>
                      parse_elements buffer n' pos (args ++ [AInt intValue])
                  end
              end
            else None
        end
  end.

(** [parseRESP(input)]; [None] is [null].  The input is a buffer, or a
    string that [Buffer.from] turns into its UTF-8 bytes. *)
Definition parseRESP (input : string) : option (list arg) :=
  let buffer := input in
  if buf_length buffer =? 0 then None
  else
    match byte_at buffer 0 with
    | None => None
    | Some type =>
        if negb (Ascii.eqb type "*") then None
        else
          match readUntilCRLF buffer 1 with
          | None => None
          | Some (lengthStr, pos) =>
              match parseInt10 (Buffer_toString lengthStr) with
              | None => None
              | Some length =>
                  if length <? 0 then None
                  else parse_elements buffer (Z.to_nat length) pos []
              end
          end
    end.

Definition respOK : string := "+OK" ++ CRLF.
Definition respError (msg : string) : string := "-" ++ msg ++ CRLF.

(** [respBulk(str)]; [None] is [null] or [undefined]. *)
Definition respBulk (str : option string) : string :=
  match str with
  | None => "$-1" ++ CRLF
  | Some s => "$" ++ nat_toString (js_length s) ++ CRLF ++ s ++ CRLF
  end.

Definition respInteger (n : Z) : string := ":" ++ num_toString n ++ CRLF.

(** [arr.map(respBulk).join('')]. *)
Fixpoint join (l : list string) : string :=
  match l with
  | [] => ""
  | s :: r => s ++ join r
  end.

Definition respArray (arr : list (option string)) : string :=
  "*" ++ nat_toString (length arr) ++ CRLF ++ join (respBulk <$> arr).

(** A slot of a command array that is [null] or an ASCII string. *)
Definition ascii_slot (x : option string) : Prop :=
  match x with
  | Some s => ascii_only s
  | None => True
  end.

(** What a command array is expected to decode to. *)
Definition to_arg (x : option string) : arg :=
  match x with
  | None => ANull
  | Some s => AStr s
  end.

End Resp.

(* ================================================================== *)
(** ** The store adapter (store.js) *)
(* ================================================================== *)

Module Store.
Import JS.

(** The embedded engine.  Its data is a finite map from keys to values;
    [put_error key value] is [Some msg] when [db.put(key, value)] throws
    [Error(msg)], and likewise [remove_error] for [db.remove(key)].  Reads
    never fail, and [db.sync()] has no effect on what the reads return. *)
Record Engine := {
  put_error : string -> string -> option string;
  remove_error : string -> option string
}.

(** An engine that accepts every write. *)
Definition reliable : Engine :=
  {| put_error := fun _ _ => None; remove_error := fun _ => None |}.

(** An engine that refuses, with message [msg], every [put] on key [bad]
    and accepts every other write. *)
Definition refusing (bad msg : string) : Engine :=
  {| put_error := fun key _ => if String.eqb key bad then Some msg else None;
     remove_error := fun _ => None |}.

(** What a call yields: a value, or a thrown [Error] with its message. *)
Inductive outcome (A : Type) :=
| Return (a : A)
| Throw (message : string).
Arguments Return {A} a.
Arguments Throw {A} message.

(** An entry of a transaction's operation log, [{ type, key, value }]. *)
Inductive Operation :=
| OpPut (key value : string)
| OpRemove (key : string)
| OpKeys (pattern : string).

Record TxnState := {
  operations : list Operation;
  active : bool
}.

(** What the engine has been handed and has not yet made visible to its
    reads: a write made by a direct call of [db.put] or [db.remove], or the
    callback given to [db.transaction], which holds the operation log of a
    transaction and has not run yet. *)
Inductive Pending :=
| PWrite (op : Operation)
| PTransaction (ops : list Operation).

Record ScanCursor := {
  position : Z;
  lastKey : option string;
  pattern : string;
  createdAt : Z
}.

(** The module-level variables of store.js.  [db] is the data of the
    engine as its reads return it; [pending] is what the engine will make
    visible later, oldest first. *)
Record State := {
  db : gmap string string;
  pending : list Pending;
  cache : gmap string string;
  activeTransactions : gmap string TxnState;
  scanCursors : gmap Z ScanCursor;
  nextCursorId : Z
}.

(** The state right after the module is loaded on an empty database. *)
Definition initial : State :=
  {| db := ∅; pending := []; cache := ∅; activeTransactions := ∅;
     scanCursors := ∅; nextCursorId := 1 |}.

Definition with_data (d c : gmap string string) (st : State) : State :=
  {| db := d; pending := pending st; cache := c;
     activeTransactions := activeTransactions st;
     scanCursors := scanCursors st; nextCursorId := nextCursorId st |}.

Definition with_cache (c : gmap string string) (st : State) : State :=
  with_data (db st) c st.

Definition with_transactions (t : gmap string TxnState) (st : State) : State :=
  {| db := db st; pending := pending st; cache := cache st;
     activeTransactions := t;
     scanCursors := scanCursors st; nextCursorId := nextCursorId st |}.

Definition with_cursors (cs : gmap Z ScanCursor) (next : Z) (st : State)
    : State :=
  {| db := db st; pending := pending st; cache := cache st;
     activeTransactions := activeTransactions st;
     scanCursors := cs; nextCursorId := next |}.

Definition with_pending (p : list Pending) (st : State) : State :=
  {| db := db st; pending := p; cache := cache st;
     activeTransactions := activeTransactions st;
     scanCursors := scanCursors st; nextCursorId := nextCursorId st |}.

(** [clientId ? activeTransactions.get(clientId) : null]: an absent or
    empty client identifier is falsy. *)
Definition transaction_of (clientId : option string) (st : State)
    : option TxnState :=
  match clientId with
  | Some c => if String.eqb c "" then None else activeTransactions st !! c
  | None => None
  end.

(** [txnState.operations.push(op)] on the transaction of client [c]. *)
Definition push_operation (c : string) (t : TxnState) (op : Operation)
    (st : State) : State :=
  with_transactions
    (<[c := {| operations := operations t ++ [op]; active := active t |}]>
       (activeTransactions st)) st.

(** One operation of the callback of [commitTransaction], when the engine
    runs the callback: the write on the engine, then the same write on the
    cache. *)
Definition apply_operation (E : Engine) (op : Operation)
    (d c : gmap string string)
    : outcome (gmap string string * gmap string string) :=
  match op with
  | OpPut key value =>
      match put_error E key value with
      | Some msg => Throw msg
      | None => Return (<[key := value]> d, <[key := value]> c)
      end
  | OpRemove key =>
      match remove_error E key with
      | Some msg => Throw msg
      | None => Return (delete key d, delete key c)
      end
  | OpKeys _ => Return (d, c)
  end.

(** The [else] branch of [queueOrExecute]: [db.put] or [db.remove] is
    called and not awaited, so the write is handed to the engine, and the
    cache is written at once; the promise resolves to [true], or is rejected
    when the engine throws at the call. *)
Definition execute (E : Engine) (op : Operation) (st : State)
    : outcome bool * State :=
  match op with
  | OpPut key value =>
      match put_error E key value with
      | Some msg => (Throw msg, st)
      | None =>
          (Return true,
           with_pending (pending st ++ [PWrite op])
             (with_cache (<[key := value]> (cache st)) st))
      end
  | OpRemove key =>
      match remove_error E key with
      | Some msg => (Throw msg, st)
      | None =>
          (Return true,
           with_pending (pending st ++ [PWrite op])
             (with_cache (delete key (cache st)) st))
      end
  | OpKeys _ => (Return true, st)
  end.

(** [queueOrExecute(type, key, value, clientId)]: the promise resolves to
    [true] or is rejected with the engine's error. *)
Definition queueOrExecute (E : Engine) (op : Operation)
    (clientId : option string) (st : State) : outcome bool * State :=
  match clientId, transaction_of clientId st with
  | Some c, Some t =>
      if active t then (Return true, push_operation c t op st)
      else execute E op st
  | _, _ => execute E op st
  end.

(** [store.beginTransaction(clientId)]; [None] is [null]. *)
Definition beginTransaction (clientId : string) (st : State)
    : option TxnState * State :=
  match activeTransactions st !! clientId with
  | Some _ => (None, st)
  | None =>
      let txnState := {| operations := []; active := true |} in
      (Some txnState,
       with_transactions (<[clientId := txnState]> (activeTransactions st)) st)
  end.

(** The callback given to [db.transaction], when the engine runs it: the
    queued operations in order, each on the engine and then on the cache,
    up to the first one the engine refuses; the writes made before that one
    stay. *)
Fixpoint replay (E : Engine) (ops : list Operation)
    (d c : gmap string string)
    : outcome unit * gmap string string * gmap string string :=
  match ops with
  | [] => (Return tt, d, c)
  | op :: rest =>
      match apply_operation E op d c with
      | Return (d', c') => replay E rest d' c'
      | Throw msg => (Throw msg, d, c)
      end
  end.

(** What [db.transaction(callback)] hands to the engine.  The callback
    over an empty log runs no statement, whenever the engine runs it, and is
    not recorded. *)
Definition callbacks (ops : list Operation) : list Pending :=
  match ops with
  | [] => []
  | _ :: _ => [PTransaction ops]
  end.

(** [store.commitTransaction(clientId)].  [db.transaction] is not awaited:
    the callback is handed to the engine, which runs it later, the
    transaction is forgotten and the result is [true]; nothing is thrown at
    the call, so the [catch] block is not entered. *)
Definition commitTransaction (clientId : option string) (st : State)
    : bool * State :=
  match clientId with
  | None => (false, st)
  | Some c =>
      match activeTransactions st !! c with
      | None => (false, st)
      | Some txnState =>
          if negb (active txnState) then (false, st)
          else
            (true,
             with_transactions (delete c (activeTransactions st))
               (with_pending (pending st ++ callbacks (operations txnState))
                  st))
      end
  end.

(** *** The engine at work *)

(** The engine makes one pending item visible: a write that it had
    accepted, or the callback of a transaction, which it runs now. *)
Definition settle_one (E : Engine) (p : Pending) (d c : gmap string string)
    : gmap string string * gmap string string :=
  match p with
  | PWrite (OpPut key value) => (<[key := value]> d, c)
  | PWrite (OpRemove key) => (delete key d, c)
  | PWrite (OpKeys _) => (d, c)
  | PTransaction ops => let '(_, d', c') := replay E ops d c in (d', c')
  end.

Fixpoint settle_pending (E : Engine) (ps : list Pending)
    (d c : gmap string string) : gmap string string * gmap string string :=
  match ps with
  | [] => (d, c)
  | p :: rest =>
      let '(d', c') := settle_one E p d c in settle_pending E rest d' c'
  end.

(** The engine commits the [n] oldest pending items, between two turns of
    the event loop. *)
Definition settle (E : Engine) (n : nat) (st : State) : State :=
  let '(d, c) := settle_pending E (take n (pending st)) (db st) (cache st) in
  with_pending (drop n (pending st)) (with_data d c st).

(** The engine commits everything that is pending. *)
Definition settle_all (E : Engine) (st : State) : State :=
  settle E (length (pending st)) st.

(** [store.abortTransaction(clientId)]. *)
Definition abortTransaction (clientId : option string) (st : State)
    : bool * State :=
  match clientId with
  | None => (false, st)
  | Some c =>
      match activeTransactions st !! c with
      | None => (false, st)
      | Some txnState =>
          if negb (active txnState) then (false, st)
          else (true, with_transactions (delete c (activeTransactions st)) st)
      end
  end.

(** [store.set(key, value, clientId)]. *)
Definition set (E : Engine) (key value : string) (clientId : option string)
    (st : State) : outcome bool * State :=
  queueOrExecute E (OpPut key value) clientId st.

(** [store.get(key, clientId)]; [None] is [undefined]. *)
Definition get (key : string) (st : State) : option string * State :=
  match cache st !! key with
  | Some v => (Some v, st)
  | None =>
      match db st !! key with
      | Some v => (Some v, with_cache (<[key := v]> (cache st)) st)
      | None => (None, st)
      end
  end.

(** [store.exists(key, clientId)]. *)
Definition exists_ (key : string) (st : State) : bool * State :=
  match cache st !! key with
  | Some _ => (true, st)
  | None =>
      match db st !! key with
      | Some v => (true, with_cache (<[key := v]> (cache st)) st)
      | None => (false, st)
      end
  end.

(** [store.del(key, clientId)]: errors of the engine are caught and
    reported as [false].  [db.remove] is not awaited: the removal is handed
    to the engine and the key is deleted from the cache at once. *)
Definition del (E : Engine) (key : string) (clientId : option string)
    (st : State) : bool * State :=
  let '(found, st) := exists_ key st in
  if negb found then (false, st)
  else
    let immediate :=
      match remove_error E key with
      | Some _ => (false, st)
      | None =>
          (true,
           with_pending (pending st ++ [PWrite (OpRemove key)])
             (with_cache (delete key (cache st)) st))
      end in
    match clientId, transaction_of clientId st with
    | Some c, Some t =>
        if active t then (true, push_operation c t (OpRemove key) st)
        else immediate
    | _, _ => immediate
    end.

(** *** Patterns *)

(** The characters that [.] does not match. *)
Definition line_terminator (u : N) : bool :=
  ((u =? 10) || (u =? 13) || (u =? 0x2028) || (u =? 0x2029))%N.

(** The regular expression built by [_globToRegex], applied by [test] to
    the code units of a key: [*] became [.*], [?] became [.], every other
    character stands for itself, and the whole key must match. *)
Fixpoint glob_units (pat key : list N) : bool :=
  match pat with
  | [] => match key with [] => true | _ :: _ => false end
  | p :: pat' =>
      if (p =? 42)%N then
        (fix star (key : list N) : bool :=
           glob_units pat' key
           || match key with
              | u :: key' => negb (line_terminator u) && star key'
              | [] => false
              end) key
      else
        match key with
        | [] => false
        | u :: key' =>
            (if (p =? 63)%N then negb (line_terminator u) else (u =? p)%N)
            && glob_units pat' key'
        end
  end.

(** [store._globToRegex(pattern).test(key)]. *)
Definition glob_test (pattern key : string) : bool :=
  glob_units (units pattern) (units key).

(** [Array.from(db.getKeys())]: the keys in the engine's order. *)
Definition getKeys (d : gmap string string) : list string :=
  merge_sort String.le (elements (dom d)).

(** [store.keys(pattern, clientId)]. *)
Definition keys (pattern : string) (clientId : option string) (st : State)
    : list string * State :=
  match clientId, transaction_of clientId st with
  | Some c, Some t =>
      if active t then ([], push_operation c t (OpKeys pattern) st)
      else (filter (fun key => glob_test pattern key = true) (getKeys (db st)), st)
  | _, _ => (filter (fun key => glob_test pattern key = true) (getKeys (db st)), st)
  end.

(** *** Scanning *)

(** What a call of [scan] reads from outside: [Date.now()] when it stores
    a cursor, whether [Math.random() < 0.05], and [Date.now()] when it
    sweeps the registry. *)
Record ScanEnv := {
  createdNow : Z;
  sweepDraw : bool;
  sweepNow : Z
}.

Definition CURSOR_TTL : Z := 5 * 60 * 1000.

(** [allKeys.findIndex(key => key === currentKey) + 1]. *)
Definition resume_index (currentKey : string) (allKeys : list string) : nat :=
  match list_find (fun key => key = currentKey) allKeys with
  | Some (j, _) => S j
  | None => O
  end.

(** The collecting loop of [scan], from index [i] with the keys from that
    index on: the index where it stops and the keys collected. *)
Fixpoint collect (pattern : string) (count : Z) (rest : list string)
    (i : nat) (collected : Z) (acc : list string) : nat * list string :=
  match rest with
  | [] => (i, acc)
  | key :: rest' =>
      if collected <? count then
        if glob_test pattern key then
          collect pattern count rest' (S i) (collected + 1) (acc ++ [key])
        else collect pattern count rest' (S i) collected acc
      else (i, acc)
  end.

(** [allKeys[i - 1]]. *)
Definition key_before (allKeys : list string) (i : nat) : option string :=
  match i with
  | O => None
  | S j => allKeys !! j
  end.

(** [now - state.createdAt > CURSOR_TTL]. *)
Definition expired (now : Z) (c : ScanCursor) : bool :=
  CURSOR_TTL <? now - createdAt c.

(** The probabilistic sweep of the cursor registry. *)
Definition sweep (env : ScanEnv) (cs : gmap Z ScanCursor) : gmap Z ScanCursor :=
  if sweepDraw env then
    filter (fun entry => expired (sweepNow env) entry.2 = false) cs
  else cs.

(** [store.scan(cursor, pattern, count)] with a numeric cursor and count:
    the next cursor and the keys of the page. *)
Definition scan (env : ScanEnv) (cursor : Z) (pattern : string) (count : Z)
    (st : State) : (Z * list string) * State :=
  let '(pos, currentKey, cursors) :=
    if cursor =? 0 then (0, None, scanCursors st)
    else if 0 <? cursor then
      match scanCursors st !! cursor with
      | Some cursorState =>
          (position cursorState, lastKey cursorState,
           delete cursor (scanCursors st))
      | None => (0, None, scanCursors st)
      end
    else (0, None, scanCursors st) in
  let allKeys := getKeys (db st) in
  let startIndex :=
    match currentKey with
    | Some k =>
        if (0 <? pos) && negb (String.eqb k "") then resume_index k allKeys
        else O
    | None => O
    end in
  let '(i, found) :=
    collect pattern count (drop startIndex allKeys) startIndex 0 [] in
  if (i <? length allKeys)%nat then
    let newCursorId := nextCursorId st in
    let cursors :=
      <[newCursorId := {| position := Z.of_nat i;
                          lastKey := key_before allKeys i;
                          pattern := pattern;
                          createdAt := createdNow env |}]> cursors in
    ((newCursorId, found),
     with_cursors (sweep env cursors) (nextCursorId st + 1) st)
  else ((0, found), with_cursors (sweep env cursors) (nextCursorId st) st).

(** *** Cache coherence *)

(** Every entry of the cache is the value the engine holds for that key. *)
Definition coherent (st : State) : Prop :=
  forall (k v : string), cache st !! k = Some v -> db st !! k = Some v.

(** A key is absent from the store: neither cached nor in the engine. *)
Definition absent (key : string) (st : State) : Prop :=
  cache st !! key = None /\ db st !! key = None.

End Store.

(* ================================================================== *)
(** ** The command handlers (commands/*.js) *)
(* ================================================================== *)

Module Commands.
Import JS Resp Store.

(** The names under which the lookup [commandHandlers[cmd.command]] of
    exec.js finds something: the five keys of the table and the properties
    that the table, an object literal, inherits from [Object.prototype]. *)
Definition handler_table_names : list string :=
  ["SET"; "GET"; "DEL"; "KEYS"; "EXISTS";
   "constructor"; "hasOwnProperty"; "isPrototypeOf"; "propertyIsEnumerable";
   "toLocaleString"; "toString"; "valueOf"; "__proto__";
   "__defineGetter__"; "__defineSetter__"; "__lookupGetter__";
   "__lookupSetter__"].

Definition in_handler_table (name : string) : bool :=
  existsb (String.eqb name) handler_table_names.

(** An entry of a connection's [commandQueue].  The five commands that
    [exec] knows carry the arguments their handlers declare.  [CmdOther] is
    an entry [{ command, args }] under a name for which the lookup of
    [exec] finds nothing, such as the entries that the server queues for
    PING, SCAN or CLIENT; and [CmdThunk] is the function that [ping]
    pushes, whose [command] is [undefined].  An entry named after a handler
    with other arguments than the strings it declares, or named after an
    inherited property, is not represented. *)
Inductive Command :=
| CmdSet (key value : string)
| CmdGet (key : string)
| CmdDel (key : string)
| CmdKeys (pattern : option string)
| CmdExists (key : string)
| CmdOther (command : string) (args : list arg)
    (unknown : in_handler_table command = false)
| CmdThunk.

(** The per-connection state object. *)
Record ClientState := {
  inTransaction : bool;
  commandQueue : list Command;
  clientId : option string;
  name : option string
}.

(** [clientState.commandQueue.push(cmd)]. *)
Definition enqueue (cmd : Command) (cs : ClientState) : ClientState :=
  {| inTransaction := inTransaction cs;
     commandQueue := commandQueue cs ++ [cmd];
     clientId := clientId cs; name := name cs |}.

Definition QUEUED : string := "+QUEUED" ++ CRLF.

(** The reply of a [catch] block: ['-ERR ' + error.message + '\r\n']. *)
Definition err_reply (message : string) : string := "-ERR " ++ message ++ CRLF.

(** [set(clientState, key, value)] (set.js). *)
Definition set (E : Engine) (cs : ClientState) (key value : string)
    (st : State) : string * ClientState * State :=
  if inTransaction cs then (QUEUED, enqueue (CmdSet key value) cs, st)
  else
    match Store.set E key value (clientId cs) st with
    | (Return _, st') => ("+OK" ++ CRLF, cs, st')
    | (Throw msg, st') => (err_reply msg, cs, st')
    end.

(** [get(clientState, key)] (get.js). *)
Definition get (cs : ClientState) (key : string) (st : State)
    : string * ClientState * State :=
  if inTransaction cs then (QUEUED, enqueue (CmdGet key) cs, st)
  else
    let '(value, st') := Store.get key st in
    (respBulk value, cs, st').

(** [del(clientState, key)] (del.js). *)
Definition del (E : Engine) (cs : ClientState) (key : string) (st : State)
    : string * ClientState * State :=
  if inTransaction cs then (QUEUED, enqueue (CmdDel key) cs, st)
  else
    let '(found, st1) := Store.exists_ key st in
    if found then
      let '(_, st2) := Store.del E key (clientId cs) st1 in
      let '(stillExists, st3) := Store.exists_ key st2 in
      if stillExists then (respInteger 0, cs, st3)
      else (respInteger 1, cs, st3)
    else (respInteger 0, cs, st1).

(** [exists(clientState, key)] (exists.js). *)
Definition exists_ (cs : ClientState) (key : string) (st : State)
    : string * ClientState * State :=
  if inTransaction cs then (QUEUED, enqueue (CmdExists key) cs, st)
  else
    let '(found, st') := Store.exists_ key st in
    (respInteger (if found then 1 else 0), cs, st').

(** [keys(clientState, pattern = "*")] (keys.js). *)
Definition keys (cs : ClientState) (pattern : option string) (st : State)
    : string * ClientState * State :=
  let pattern := default "*" pattern in
  if inTransaction cs then (QUEUED, enqueue (CmdKeys (Some pattern)) cs, st)
  else
    let '(matchedKeys, st') := Store.keys pattern (clientId cs) st in
    (respArray (Some <$> matchedKeys), cs, st').

(** [ping(clientState)] (ping.js). *)
Definition ping (cs : ClientState) : string * ClientState :=
  if inTransaction cs then (QUEUED, enqueue CmdThunk cs)
  else ("+PONG" ++ CRLF, cs).

(** The fresh state in which [exec] runs the queued commands; it has no
    client identifier. *)
Definition execState : ClientState :=
  {| inTransaction := false; commandQueue := []; clientId := None;
     name := None |}.

(** [cmd.command]. *)
Definition command_name (cmd : Command) : string :=
  match cmd with
  | CmdSet _ _ => "SET"
  | CmdGet _ => "GET"
  | CmdDel _ => "DEL"
  | CmdKeys _ => "KEYS"
  | CmdExists _ => "EXISTS"
  | CmdOther command _ _ => command
  | CmdThunk => "undefined"
  end.

(** [commandHandlers[cmd.command](execState, ...cmd.args)]; [None] when the
    table of [exec] has no handler of that name. *)
Definition run_handler (E : Engine) (cmd : Command) (st : State)
    : option (string * State) :=
  match cmd with
  | CmdSet key value =>
      let '(r, _, st') := set E execState key value st in Some (r, st')
  | CmdGet key => let '(r, _, st') := get execState key st in Some (r, st')
  | CmdDel key => let '(r, _, st') := del E execState key st in Some (r, st')
  | CmdKeys pattern =>
      let '(r, _, st') := keys execState pattern st in Some (r, st')
  | CmdExists key =>
      let '(r, _, st') := exists_ execState key st in Some (r, st')
  | CmdOther _ _ _ | CmdThunk => None
  end.

(** The [for] loop of [exec]: the error reply of the first queued command
    without a handler, or the results of all of them. *)
Fixpoint run_queue (E : Engine) (queue : list Command) (results : list string)
    (st : State) : (string + list string) * State :=
  match queue with
  | [] => (inr results, st)
  | cmd :: rest =>
      match run_handler E cmd st with
      | None => (inl ("-ERR unknown command " ++ command_name cmd ++ CRLF), st)
      | Some (result, st') => run_queue E rest (results ++ [result]) st'
      end
  end.

(** The connection state once a transaction is over. *)
Definition leave_transaction (cs : ClientState) : ClientState :=
  {| inTransaction := false; commandQueue := []; clientId := clientId cs;
     name := name cs |}.

(** [exec(clientState)] (exec.js).  No handler throws, so the [catch]
    block is never entered. *)
Definition exec (E : Engine) (cs : ClientState) (st : State)
    : string * ClientState * State :=
  if negb (inTransaction cs) then ("-ERR EXEC without MULTI" ++ CRLF, cs, st)
  else
    match run_queue E (commandQueue cs) [] st with
    | (inl error, st') => (error, cs, st')
    | (inr results, st') =>
        let '(_, st'') := commitTransaction (clientId cs) st' in
        ("*" ++ nat_toString (length results) ++ CRLF ++ join results,
         leave_transaction cs, st'')
    end.

(** [!clientState.clientId]. *)
Definition no_clientId (cs : ClientState) : bool :=
  match clientId cs with
  | Some c => String.eqb c ""
  | None => true
  end.

(** [multi(clientState)] (multi.js); [now] is [Date.now()] and [rnd] is
    [Math.random().toString(36).substr(2, 9)]. *)
Definition multi (now : Z) (rnd : string) (cs : ClientState) (st : State)
    : string * ClientState * State :=
  if inTransaction cs then
    ("-ERR MULTI calls can not be nested" ++ CRLF, cs, st)
  else
    let id :=
      if no_clientId cs then "client_" ++ num_toString now ++ "_" ++ rnd
      else default "" (clientId cs) in
    let '(_, st') := beginTransaction id st in
    (respOK,
     {| inTransaction := true; commandQueue := []; clientId := Some id;
        name := name cs |}, st').

(** [discard(clientState)] (discard.js). *)
Definition discard (cs : ClientState) (st : State)
    : string * ClientState * State :=
  if negb (inTransaction cs) then
    ("-ERR DISCARD without MULTI" ++ CRLF, cs, st)
  else
    let '(_, st') := abortTransaction (clientId cs) st in
    (respOK, leave_transaction cs, st').

(** *** CLIENT *)

(** [str.split('_')[1]]; [None] is [undefined]. *)
Fixpoint until_underscore (s : string) : string :=
  match s with
  | String c r => if Ascii.eqb c "_" then "" else String c (until_underscore r)
  | "" => ""
  end.

Fixpoint second_segment (s : string) : option string :=
  match s with
  | String c r =>
      if Ascii.eqb c "_" then Some (until_underscore r) else second_segment r
  | "" => None
  end.

(** [`${x}`] for the result of [parseInt]. *)
Definition number_or_NaN (x : option Z) : string :=
  match x with
  | Some n => num_toString n
  | None => "NaN"
  end.

(** A value that is not [undefined], [null] or the empty string. *)
Definition truthy (x : option string) : option string :=
  match x with
  | Some s => if String.eqb s "" then None else Some s
  | None => None
  end.

Section Handlers.

(** [String.prototype.toUpperCase]. *)
Variable toUpperCase : string -> string.

Definition client_info (cs : ClientState) : string :=
  "id=" ++ default "0" (truthy (clientId cs))
  ++ " name=" ++ default "" (truthy (name cs)).

(** [client(clientState, subcommand, ...args)] (client.js); a [subcommand]
    of [None] is [undefined] or [null]. *)
Definition client (cs : ClientState) (subcommand : option string)
    (args : list string) : string * ClientState :=
  match truthy subcommand with
  | None =>
      ("-ERR wrong number of arguments for 'client' command" ++ CRLF, cs)
  | Some subcommand =>
      let cmd := toUpperCase subcommand in
      if String.eqb cmd "SETNAME" then
        match truthy (head args) with
        | None =>
            ("-ERR wrong number of arguments for 'client setname' command"
             ++ CRLF, cs)
        | Some n =>
            (respOK,
             {| inTransaction := inTransaction cs;
                commandQueue := commandQueue cs; clientId := clientId cs;
                name := Some n |})
        end
      else if String.eqb cmd "GETNAME" then
        (match truthy (name cs) with
         | Some n => "$" ++ nat_toString (js_length n) ++ CRLF ++ n ++ CRLF
         | None => "$-1" ++ CRLF
         end, cs)
      else if String.eqb cmd "ID" then
        (":" ++ match truthy (clientId cs) with
                | Some c =>
                    number_or_NaN
                      (match second_segment c with
                       | Some seg => parseInt seg
                       | None => None
                       end)
                | None => "0"
                end ++ CRLF, cs)
      else if String.eqb cmd "LIST" then
        (respArray [Some (client_info cs)], cs)
      else if String.eqb cmd "INFO" then
        (respArray [Some (client_info cs)], cs)
      else (respOK, cs)
  end.

(** *** SCAN *)

(** The text between the parts of the reply of [scan], as scan.js spells
    it: the character U+00A5, [r], U+00A5, [n]. *)
Definition YEN : string := String (ascii_of_N 194) (String (ascii_of_N 165) "").
Definition SCAN_EOL : string := YEN ++ "r" ++ YEN ++ "n".

(** [x.toString()] on an argument; it throws on [null]. *)
Definition arg_toString (a : arg) : outcome string :=
  match a with
  | ANull => Throw "Cannot read properties of null (reading 'toString')"
  | AStr s => Return s
  | AInt n => Return (num_toString n)
  end.

(** [parseInt(x, 10)] on an argument; [None] is [undefined]. *)
Definition arg_parseInt10 (a : option arg) : option Z :=
  match a with
  | None => parseInt10 "undefined"
  | Some ANull => parseInt10 "null"
  | Some (AStr s) => parseInt10 s
  | Some (AInt n) => parseInt10 (num_toString n)
  end.

(** The count that a [COUNT] option selects. *)
Definition count_of (a : arg) : Z :=
  match arg_parseInt10 (Some a) with
  | Some c => if c <=? 0 then 10 else c
  | None => 10
  end.

(** The option loop of [scan], from the arguments still to be looked at
    and the pattern and count chosen so far. *)
Fixpoint parse_options (args : list arg) (pattern : string) (count : Z)
    : outcome (string * Z) :=
  match args with
  | [] => Return (pattern, count)
  | a :: rest =>
      match arg_toString a with
      | Throw msg => Throw msg
      | Return s =>
          let arg := toUpperCase s in
          match rest with
          | v :: rest' =>
              if String.eqb arg "MATCH" then
                match arg_toString v with
                | Throw msg => Throw msg
                | Return p => parse_options rest' p count
                end
              else if String.eqb arg "COUNT" then
                parse_options rest' pattern (count_of v)
              else parse_options rest pattern count
          | [] => Return (pattern, count)
          end
      end
  end.

Definition is_d (u : N) : bool := (u =? 100)%N.

(** Whether code units spell [¥d+], the group of the expression of
    [filterKeysForTestCases], up to the end of the key. *)
Definition yen_d_plus (k : list N) : bool :=
  match k with
  | u :: ((_ :: _) as ds) => (u =? 165)%N && forallb is_d ds
  | _ => false
  end.

(** [key.match(/^.*?(¥d+)$/)[1]]; [None] when the key does not match. *)
Fixpoint match_group (k : list N) : option (list N) :=
  if yen_d_plus k then Some k
  else
    match k with
    | [] => None
    | u :: k' => if line_terminator u then None else match_group k'
    end.

(** [filterKeysForTestCases(keys, pattern)]. *)
Definition filterKeysForTestCases (keys : list string) (pattern : string)
    : list string :=
  if String.eqb pattern "*1" then
    filter (fun key => match_group (units key) = Some (units "1")) keys
  else keys.

(** The reply that [scan] builds from the next cursor and the keys. *)
Definition scan_reply (nextCursor : Z) (filteredKeys : list string) : string :=
  let cursorStr := num_toString nextCursor in
  ("*2" ++ SCAN_EOL ++ "$" ++ nat_toString (js_length cursorStr) ++ SCAN_EOL
   ++ cursorStr ++ SCAN_EOL)
  ++ ("*" ++ nat_toString (length filteredKeys) ++ SCAN_EOL)
  ++ join ((fun key =>
              "$" ++ nat_toString (js_length key) ++ SCAN_EOL ++ key
              ++ SCAN_EOL) <$> filteredKeys).

(** [scan(client, cursor, ...args)] up to the formatting of the reply:
    the next cursor and the keys of the page, or the [TypeError] of an
    argument that is [null]. *)
Definition scan_page (cursor : option arg) (args : list arg) (env : ScanEnv)
    (st : State) : outcome (Z * list string) * State :=
  match parse_options args "*" 10 with
  | Throw msg => (Throw msg, st)
  | Return (pattern, count) =>
      let cursorValue :=
        match arg_parseInt10 cursor with
        | Some c => if c <? 0 then 0 else c
        | None => 0
        end in
      let '((nextCursor, found), st') :=
        Store.scan env cursorValue pattern count st in
      (Return (nextCursor, filterKeysForTestCases found pattern), st')
  end.

(** [scan(client, cursor, ...args)] (scan.js). *)
Definition scan (cursor : option arg) (args : list arg) (env : ScanEnv)
    (st : State) : outcome string * State :=
  match scan_page cursor args env st with
  | (Return (nextCursor, filteredKeys), st') =>
      (Return (scan_reply nextCursor filteredKeys), st')
  | (Throw msg, st') => (Throw msg, st')
  end.

(** A client iterating, as the loops of tests/unit/scan.test.js and of the
    performance script do: it sends [SCAN] with cursor [cursor], then with
    the cursor of each reply, until a reply carries the cursor 0, and
    gathers the keys of all pages.  [envs n] is what the [n]-th call reads
    from the clock and the random generator.  [None]: a call threw, or the
    cursor 0 did not come back within [fuel] calls. *)
Fixpoint scan_all (fuel : nat) (envs : nat -> ScanEnv) (n : nat)
    (cursor : option arg) (args : list arg) (st : State)
    (seen : list string) : option (list string * State) :=
  match fuel with
  | O => None
  | S fuel' =>
      match scan_page cursor args (envs n) st with
      | (Throw _, _) => None
      | (Return (nextCursor, page), st') =>
          if nextCursor =? 0 then Some ((seen ++ page)%list, st')
          else
            scan_all fuel' envs (S n)
              (Some (AStr (num_toString nextCursor))) args st'
              (seen ++ page)%list
      end
  end.

End Handlers.

(** Upper-casing of the letters [a] to [z], which is what [toUpperCase]
    does on ASCII strings. *)
Definition ascii_upper (c : ascii) : ascii :=
  let n := N_of_ascii c in
  if ((97 <=? n) && (n <=? 122))%N then ascii_of_N (n - 32) else c.

Fixpoint ascii_toUpperCase (s : string) : string :=
  match s with
  | String c r => String (ascii_upper c) (ascii_toUpperCase r)
  | "" => ""
  end.

End Commands.

(* ================================================================== *)
(** ** Vocabulary of the properties *)
(* ================================================================== *)

Module Props.
Import JS Resp Store Commands.

(** A connection that has just been accepted. *)
Definition fresh_client : ClientState :=
  {| inTransaction := false; commandQueue := []; clientId := None;
     name := None |}.

Section WithUpperCase.
Variable toUpperCase : string -> string.



(** The subcommands that [client] treats specially. *)
Definition known_subcommand (subcommand : string) : Prop :=
  In (toUpperCase subcommand) ["SETNAME"; "GETNAME"; "ID"; "LIST"; "INFO"].

End WithUpperCase.



(** The call stores a cursor that the sweep of that same call keeps: either
    no sweep is drawn, or the cursor is not older than its time to live. *)
Definition keeps_new_cursor (env : ScanEnv) : Prop :=
  sweepDraw env = true -> sweepNow env - createdNow env <= CURSOR_TTL.

(** Every key of the engine that matches [pattern] is in [seen]. *)
Definition all_matches_in (pattern : string) (st : State) (seen : list string)
    : Prop :=
  forall key, is_Some (db st !! key) -> glob_test pattern key = true ->
              key ∈ seen.

(** A SCAN reply as the wire grammar has it: an array of two elements, the
    cursor as a bulk string and the array of the keys as bulk strings, every
    line ended by CRLF and every length counted in bytes. *)
Definition wire_bulk (s : string) : string :=
  "$" ++ nat_toString (String.length s) ++ CRLF ++ s ++ CRLF.

Definition wire_scan_reply (cursor : string) (keys : list string) : string :=
  "*2" ++ CRLF ++ wire_bulk cursor
  ++ "*" ++ nat_toString (length keys) ++ CRLF ++ join (wire_bulk <$> keys).

Definition well_formed_scan_reply (reply : string) : Prop :=
  exists cursor keys, reply = wire_scan_reply cursor keys.

Fixpoint has_byte (c : ascii) (s : string) : bool :=
  match s with
  | String x r => Ascii.eqb x c || has_byte c r
  | "" => false
  end.

End Props.

(** *** Vocabulary of the scan iteration *)

Module ScanProps.
Import JS Resp Store Commands.

(** The cursor state that a call of [store.scan] finds for [cursor]. *)
Definition found_cursor (cursor : Z) (st : State) : option ScanCursor :=
  if cursor =? 0 then None
  else if 0 <? cursor then scanCursors st !! cursor
  else None.

(** The index at which a call of [store.scan] starts. *)
Definition start_index (cursor : Z) (st : State) : nat :=
  match found_cursor cursor st with
  | Some cursorState =>
      match lastKey cursorState with
      | Some k =>
          if (0 <? position cursorState) && negb (String.eqb k "") then
            resume_index k (getKeys (db st))
          else O
      | None => O
      end
  | None => O
  end.

(** The registry once the call has consumed the cursor it was given. *)
Definition cursors_after_lookup (cursor : Z) (st : State)
    : gmap Z ScanCursor :=
  match found_cursor cursor st with
  | Some _ => delete cursor (scanCursors st)
  | None => scanCursors st
  end.

(** The matching keys among the first [i] keys are all in [seen]. *)
Definition covered (pattern : string) (allKeys : list string) (i : nat)
    (seen : list string) : Prop :=
  forall key, key ∈ take i allKeys -> glob_test pattern key = true ->
              key ∈ seen.

(** If [cursor] is in the registry, it stands at a position up to which the
    matching keys have been seen, and it remembers the key before it. *)
Definition cursor_ok (pattern : string) (st : State) (cursor : Z)
    (seen : list string) : Prop :=
  forall cursorState,
    found_cursor cursor st = Some cursorState ->
    exists i : nat,
      position cursorState = Z.of_nat i
      /\ lastKey cursorState = key_before (getKeys (db st)) i
      /\ covered pattern (getKeys (db st)) i seen.

(** [cursor] is 0 and [s] is 0, or [cursor] is in the registry and stands
    at position [s], inside the list of keys. *)
Definition cursor_live (st : State) (cursor : Z) (s : nat) : Prop :=
  (cursor = 0 /\ s = O)
  \/ (0 < cursor
      /\ (0 < s < length (getKeys (db st)))%nat
      /\ exists cursorState,
           scanCursors st !! cursor = Some cursorState
           /\ position cursorState = Z.of_nat s
           /\ lastKey cursorState = key_before (getKeys (db st)) s).

(** The cursor a new state of the registry would be given. *)
Definition new_cursor (env : ScanEnv) (allKeys : list string) (i : nat)
    (pattern : string) : ScanCursor :=
  {| position := Z.of_nat i; lastKey := key_before allKeys i;
     pattern := pattern; createdAt := createdNow env |}.

End ScanProps.

(* ================================================================== *)
(** ** The stream buffer (resp.js, class RESPBuffer) *)
(* ================================================================== *)

Module RespBuffer.
Import JS Resp.

(** [append(chunk)]: [Buffer.concat([this.buffer, chunk])]. *)
Definition append (buffer chunk : string) : string := buffer ++ chunk.

(** The [for] loop of [findMessageEnd], [n] elements still to be skipped
    from position [pos]: the position after them, or 0. *)
Fixpoint skip_elements (buffer : string) (n : nat) (pos : Z) : Z :=
  match n with
  | O => pos
  | S n' =>
      if buf_length buffer <=? pos then 0
      else
        match byte_at buffer pos with
        | None => 0
        | Some b =>
            if negb (Ascii.eqb b "$") then 0
            else
              let pos := pos + 1 in
              let strLengthEnd := indexOf_CRLF buffer pos in
              if strLengthEnd =? -1 then 0
              else
                match parseInt10
                        (Buffer_toString (buf_slice buffer pos strLengthEnd))
                with
                | None => 0
                | Some strLength =>
                    if strLength <? 0 then 0
                    else
                      let pos := strLengthEnd + 2 in
                      if buf_length buffer <? pos + strLength + 2 then 0
                      else skip_elements buffer n' (pos + strLength + 2)
                end
        end
  end.

(** [findMessageEnd()]: the number of bytes of the first message, or 0. *)
Definition findMessageEnd (buffer : string) : Z :=
  match byte_at buffer 0 with
  | None => 0
  | Some b =>
      if negb (Ascii.eqb b "*") then 0
      else
        let lengthEnd := indexOf_CRLF buffer 1 in
        if lengthEnd =? -1 then 0
        else
          match parseInt10 (Buffer_toString (buf_slice buffer 1 lengthEnd)) with
          | None => 0
          | Some length =>
              if length <? 0 then 0
              else skip_elements buffer (Z.to_nat length) (lengthEnd + 2)
          end
  end.

(** [tryParse()]: the message extracted ([None] is [null]) and the buffer
    afterwards.  An array, even an empty one, is truthy. *)
Definition tryParse (buffer : string) : option (list arg) * string :=
  if buf_length buffer =? 0 then (None, buffer)
  else
    match parseRESP buffer with
    | Some result =>
        let consumed := findMessageEnd buffer in
        if 0 <? consumed then
          (Some result, buf_slice buffer consumed (buf_length buffer))
        else (None, buffer)
    | None => (None, buffer)
    end.

(** [clear()]. *)
Definition clear (buffer : string) : string := "".

End RespBuffer.

(* ================================================================== *)
(** ** The port argument (server.js) *)
(* ================================================================== *)

Module Server.
Import JS.

Definition DEFAULT_PORT : Z := 6379.

(** The port that the value of [--port] selects. *)
Definition port_of (value : string) : Z :=
  match parseInt10 value with
  | Some port =>
      if (port <? 1) || (65535 <? port) then DEFAULT_PORT else port
  | None => DEFAULT_PORT
  end.

(** The loop over [process.argv.slice(2)]: the first [--port] that is
    followed by an argument decides, and the loop stops there. *)
Fixpoint port (args : list string) : Z :=
  match args with
  | [] => DEFAULT_PORT
  | a :: rest =>
      match rest with
      | value :: _ =>
          if String.eqb a "--port" then port_of value else port rest
      | [] => DEFAULT_PORT
      end
  end.

End Server.

(* ================================================================== *)
(** ** Sequences of calls *)
(* ================================================================== *)

Module Runs.
Import JS Resp Store Commands.

(** A call of one of the functions that the store exports. *)
Inductive StoreCall :=
| CallSet (key value : string) (clientId : option string)
| CallGet (key : string)
| CallExists (key : string)
| CallDel (key : string) (clientId : option string)
| CallKeys (pattern : string) (clientId : option string)
| CallBegin (clientId : string)
| CallCommit (clientId : option string)
| CallAbort (clientId : option string)
| CallScan (env : ScanEnv) (cursor : Z) (pattern : string) (count : Z).

(** The store after a call. *)
Definition store_call (E : Engine) (c : StoreCall) (st : State) : State :=
  match c with
  | CallSet key value clientId => (Store.set E key value clientId st).2
  | CallGet key => (Store.get key st).2
  | CallExists key => (Store.exists_ key st).2
  | CallDel key clientId => (Store.del E key clientId st).2
  | CallKeys pattern clientId => (Store.keys pattern clientId st).2
  | CallBegin clientId => (beginTransaction clientId st).2
  | CallCommit clientId => (commitTransaction clientId st).2
  | CallAbort clientId => (abortTransaction clientId st).2
  | CallScan env cursor pattern count =>
      (Store.scan env cursor pattern count st).2
  end.

(** The store after a sequence of calls made within one turn of the event
    loop: the engine commits nothing between them. *)
Definition store_calls (E : Engine) (calls : list StoreCall) (st : State)
    : State :=
  foldl (fun st c => store_call E c st) st calls.

(** The store after a sequence of calls each of which is followed by the
    engine committing all that is pending, as when the calls are far apart
    in time. *)
Definition settled_calls (E : Engine) (calls : list StoreCall) (st : State)
    : State :=
  foldl (fun st c => settle_all E (store_call E c st)) st calls.

(** A command sent to a handler with its arguments. *)
Inductive Request :=
| ReqSet (key value : string)
| ReqGet (key : string)
| ReqDel (key : string)
| ReqExists (key : string)
| ReqKeys (pattern : option string)
| ReqPing.

(** The call of the handler of a request. *)
Definition handle (E : Engine) (r : Request) (cs : ClientState) (st : State)
    : string * ClientState * State :=
  match r with
  | ReqSet key value => Commands.set E cs key value st
  | ReqGet key => Commands.get cs key st
  | ReqDel key => Commands.del E cs key st
  | ReqExists key => Commands.exists_ cs key st
  | ReqKeys pattern => Commands.keys cs pattern st
  | ReqPing => let '(reply, cs') := ping cs in (reply, cs', st)
  end.

(** The replies to a sequence of requests, and the states after them. *)
Fixpoint handle_all (E : Engine) (rs : list Request) (cs : ClientState)
    (st : State) : list string * ClientState * State :=
  match rs with
  | [] => ([], cs, st)
  | r :: rest =>
      let '(reply, cs1, st1) := handle E r cs st in
      let '(replies, cs2, st2) := handle_all E rest cs1 st1 in
      (reply :: replies, cs2, st2)
  end.

(** The identifier under which [multi] begins the transaction. *)
Definition transaction_id (now : Z) (rnd : string) (cs : ClientState)
    : string :=
  if no_clientId cs then "client_" ++ num_toString now ++ "_" ++ rnd
  else default "" (clientId cs).

(** A queued command for which [exec] has a handler. *)
Definition has_handler (cmd : Command) : bool :=
  match cmd with
  | CmdOther _ _ _ | CmdThunk => false
  | _ => true
  end.

(** A code unit that [.] matches. *)
Definition plain_unit (u : N) : bool := negb (line_terminator u).

(** A code unit that is neither [*] nor [?]. *)
Definition literal_unit (u : N) : bool := negb ((u =? 42) || (u =? 63))%N.

End Runs.

(* ================================================================== *)
(** ** Vocabulary of the statements about the codec and the buffer *)
(* ================================================================== *)

Module CodecProps.
Import JS Resp.

(** The element that a client sends for the decoded value [a]: a bulk
    string ([respBulk]) or an integer ([respInteger]). *)
Definition encode_arg (a : arg) : string :=
  match a with
  | ANull => respBulk None
  | AStr s => respBulk (Some s)
  | AInt n => respInteger n
  end.

(** A value that the statements send: an ASCII string, [null], or an
    integer that a JavaScript number holds exactly. *)
Definition MAX_SAFE_INTEGER : Z := 9007199254740991.

Definition sendable (a : arg) : Prop :=
  match a with
  | AStr s => ascii_only s
  | AInt n => - MAX_SAFE_INTEGER <= n <= MAX_SAFE_INTEGER
  | ANull => True
  end.

(** The header of an array of [n] elements. *)
Definition array_header (n : nat) : string := "*" ++ nat_toString n ++ CRLF.

End CodecProps.

(* ================================================================== *)
(** ** Vocabulary of the statements about sequences of calls *)
(* ================================================================== *)

Module RunProps.
Import JS Resp Store Commands Runs.

(** [store.set] called for each pair of [kvs] in turn, for one client. *)
Definition set_all (E : Engine) (kvs : list (string * string))
    (clientId : option string) (st : State) : State :=
  foldl (fun st kv => (Store.set E kv.1 kv.2 clientId st).2) st kvs.

(** The pairs of [kvs] written to a map in turn. *)
Definition put_all (kvs : list (string * string)) (d : gmap string string)
    : gmap string string :=
  foldl (fun d kv => <[kv.1 := kv.2]> d) d kvs.

(** The engine accepts every write of [kvs]. *)
Definition accepts_all (E : Engine) (kvs : list (string * string)) : Prop :=
  Forall (fun kv => put_error E kv.1 kv.2 = None) kvs.

(** The entry that the handler of a request pushes on the queue of a
    connection that is in a transaction. *)
Definition queued_as (r : Request) : Command :=
  match r with
  | ReqSet key value => CmdSet key value
  | ReqGet key => CmdGet key
  | ReqDel key => CmdDel key
  | ReqExists key => CmdExists key
  | ReqKeys pattern => CmdKeys (Some (default "*" pattern))
  | ReqPing => CmdThunk
  end.

(** Two states of the store that hold the same data, in the engine and in
    the cache. *)
Definition same_data (s s' : State) : Prop :=
  db s = db s' /\ cache s = cache s'.

(** The value that [store.get] returns for [key]. *)
Definition value_of (key : string) (st : State) : option string :=
  (Store.get key st).1.

(** No code unit of [s] satisfies [p] / all do. *)
Definition all_units (p : N -> bool) (s : string) : bool :=
  forallb p (units s).

(** [clientState.commandQueue.push] of each entry of [cmds]. *)
Definition enqueue_all (cmds : list Command) (cs : ClientState)
    : ClientState :=
  {| inTransaction := inTransaction cs;
     commandQueue := commandQueue cs ++ cmds;
     clientId := clientId cs; name := name cs |}.

(** The connection state right after [multi] has run for [cs]. *)
Definition in_multi (now : Z) (rnd : string) (cs : ClientState)
    : ClientState :=
  {| inTransaction := true; commandQueue := [];
     clientId := Some (transaction_id now rnd cs); name := name cs |}.

(** A cursor argument of SCAN that is no number, is not positive, or is a
    number that the registry of cursors does not hold. *)
Definition bad_cursor (cursor : option arg) (st : State) : Prop :=
  match arg_parseInt10 cursor with
  | None => True
  | Some c => c <= 0 \/ scanCursors st !! c = None
  end.

(** Every key of the engine is an ASCII string. *)
Definition ascii_keys (st : State) : Prop :=
  forall key, is_Some (db st !! key) -> ascii_only key.

End RunProps.

(* ================================================================== *)
(** ** Incoming data (server.js, the "data" handler) *)
(* ================================================================== *)

Module Connection.
Import JS Resp RespBuffer.

(** The [while] loop of the handler: [tryParse] is called until it returns
    [null]; the commands handed to [processCommand], in order, and the
    buffer that is left.  [None]: the loop did not end within [fuel]
    rounds. *)
Fixpoint extract (fuel : nat) (buffer : string)
    : option (list (list arg) * string) :=
  match fuel with
  | O => None
  | S fuel' =>
      match tryParse buffer with
      | (Some args, buffer') =>
          match extract fuel' buffer' with
          | Some (rest, final) => Some (args :: rest, final)
          | None => None
          end
      | (None, buffer') => Some ([], buffer')
      end
  end.

(** The handler of the "data" event: a chunk that arrives while a write is
    in progress is not appended. *)
Definition on_data (fuel : nat) (writeInProgress : bool)
    (buffer data : string) : option (list (list arg) * string) :=
  if writeInProgress then Some ([], buffer)
  else extract fuel (append buffer data).

(** The bytes of commands sent one after the other. *)
Definition pipeline (cmds : list (list string)) : string :=
  join ((fun strs => respArray (Some <$> strs)) <$> cmds).

End Connection.

(* ================================================================== *)
(** * Properties *)
(* ================================================================== *)

(** ** Strings, buffers and numerals *)

Module JSFacts.
Import JS.

Lemma app_nil_l (s : string) : "" ++ s = s.
Proof. reflexivity. Qed.

Lemma app_cons (c : ascii) (a b : string) : String c a ++ b = String c (a ++ b).
Proof. reflexivity. Qed.

Ltac sapp := rewrite ?app_cons, ?app_nil_l in *.

Lemma app_nil_r (s : string) : s ++ "" = s.
Proof. induction s as [|c s IH]; sapp; [reflexivity|now rewrite IH]. Qed.

Lemma app_assoc (a b c : string) : (a ++ b) ++ c = a ++ (b ++ c).
Proof. induction a as [|x a IH]; sapp; [reflexivity|now rewrite IH]. Qed.

Lemma length_app (a b : string) :
  String.length (a ++ b) = (String.length a + String.length b)%nat.
Proof. induction a as [|x a IH]; sapp; cbn; [reflexivity|now rewrite IH]. Qed.

Lemma buf_length_app (a b : string) :
  buf_length (a ++ b) = buf_length a + buf_length b.
Proof. unfold buf_length. rewrite length_app. lia. Qed.

Lemma buf_length_nonneg (a : string) : 0 <= buf_length a.
Proof. unfold buf_length. lia. Qed.

Lemma sdrop_app (pre suf : string) : sdrop (String.length pre) (pre ++ suf) = suf.
Proof. induction pre as [|c pre IH]; sapp; cbn; [now destruct suf|exact IH]. Qed.

Lemma stake_app (a b : string) : stake (String.length a) (a ++ b) = a.
Proof. induction a as [|c a IH]; sapp; cbn; [now destruct b|now rewrite IH]. Qed.

Lemma get_app (pre : string) (c : ascii) (r : string) :
  String.get (String.length pre) (pre ++ String c r) = Some c.
Proof. induction pre as [|x pre IH]; sapp; cbn; [reflexivity|exact IH]. Qed.

Lemma byte_at_app (pre : string) (c : ascii) (r : string) :
  byte_at (pre ++ String c r) (buf_length pre) = Some c.
Proof.
  unfold byte_at, buf_length.
  destruct (Z.ltb_spec (Z.of_nat (String.length pre)) 0) as [H|_]; [lia|].
  rewrite Nat2Z.id. apply get_app.
Qed.

(** Searching from the end of a known prefix only looks at what follows. *)
Lemma indexOf_CRLF_app (pre suf : string) :
  indexOf_CRLF (pre ++ suf) (buf_length pre) =
  match find_crlf suf with
  | Some i => buf_length pre + Z.of_nat i
  | None => -1
  end.
Proof.
  unfold indexOf_CRLF. rewrite buf_length_app.
  pose proof (buf_length_nonneg pre) as Hp.
  pose proof (buf_length_nonneg suf) as Hs.
  destruct (Z.ltb_spec (buf_length pre) 0) as [H|_]; [lia|].
  destruct (Z.ltb_spec (buf_length pre + buf_length suf) (buf_length pre))
    as [H|_]; [lia|].
  unfold buf_length at 1. rewrite Nat2Z.id, sdrop_app. reflexivity.
Qed.

Lemma buf_slice_app (pre mid suf : string) :
  buf_slice (pre ++ mid ++ suf) (buf_length pre)
            (buf_length pre + buf_length mid) = mid.
Proof.
  unfold buf_slice, clamp_index. rewrite !buf_length_app.
  pose proof (buf_length_nonneg pre) as Hp.
  pose proof (buf_length_nonneg mid) as Hm.
  pose proof (buf_length_nonneg suf) as Hs.
  destruct (Z.ltb_spec (buf_length pre) 0) as [H|_]; [lia|].
  destruct (Z.ltb_spec (buf_length pre + buf_length mid) 0) as [H|_]; [lia|].
  rewrite !Z.min_l by lia.
  destruct (Z.leb_spec (buf_length pre + buf_length mid) (buf_length pre))
    as [H|H].
  - assert (String.length mid = 0%nat) as H0 by (unfold buf_length in *; lia).
    now destruct mid.
  - replace (buf_length pre + buf_length mid - buf_length pre)
      with (buf_length mid) by lia.
    unfold buf_length. rewrite !Nat2Z.id, sdrop_app. apply stake_app.
Qed.

(** *** ASCII strings *)

Lemma ascii_only_cons (c : ascii) (s : string) :
  ascii_only (String c s) <-> (N_of_ascii c < 128)%N /\ ascii_only s.
Proof.
  unfold ascii_only, bytes. cbn.
  apply (Forall_cons (fun b => (b < 128)%N)).
Qed.

Lemma lead_ascii (b : N) : (b < 128)%N -> lead b = Emit b.
Proof. intros H. unfold lead. now destruct (N.ltb_spec b 128); [|lia]. Qed.

Lemma code_points_ascii (s : string) : ascii_only s -> code_points s = bytes s.
Proof.
  unfold code_points. induction s as [|c s IH]; intros H; [reflexivity|].
  apply ascii_only_cons in H as [Hc Hs].
  unfold bytes in *. cbn. rewrite (lead_ascii _ Hc). f_equal. now apply IH.
Qed.

Lemma encode_ascii (s : string) : ascii_only s -> encode (bytes s) = s.
Proof.
  unfold encode, of_bytes. induction s as [|c s IH]; intros H; [reflexivity|].
  apply ascii_only_cons in H as [Hc Hs].
  unfold bytes in *. cbn. unfold encode_cp at 1.
  destruct (N.ltb_spec (N_of_ascii c) 128) as [_|]; [|lia].
  cbn. rewrite ascii_N_embedding. f_equal. now apply IH.
Qed.

Lemma Buffer_toString_ascii (s : string) : ascii_only s -> Buffer_toString s = s.
Proof.
  intros H. unfold Buffer_toString.
  rewrite code_points_ascii by assumption. now apply encode_ascii.
Qed.

Lemma units_ascii (s : string) : ascii_only s -> units s = bytes s.
Proof.
  intros H. unfold units. rewrite code_points_ascii by assumption.
  revert H. induction s as [|c s IH]; intros H; [reflexivity|].
  apply ascii_only_cons in H as [Hc Hs]. unfold bytes in *. cbn.
  unfold utf16 at 1. destruct (N.ltb_spec (N_of_ascii c) 65536); [|lia].
  cbn. f_equal. now apply IH.
Qed.

(** On ASCII strings [.length] is the number of bytes. *)
Lemma js_length_ascii (s : string) : ascii_only s -> js_length s = String.length s.
Proof.
  intros H. unfold js_length. rewrite units_ascii by assumption.
  unfold bytes. rewrite length_fmap. clear H.
  induction s as [|c s IH]; cbn; [reflexivity|now rewrite IH].
Qed.

End JSFacts.

(** ** Decimal numerals: [parseInt] reads back what a template prints *)

Module NumeralFacts.
Import JS JSFacts.

Lemma pretty_N_char_digit (x : N) :
  (x < 10)%N ->
  is_digit (pretty_N_char x) = true /\
  (N_of_ascii (pretty_N_char x) - 48)%N = x.
Proof.
  intros H.
  assert (x = 0 \/ x = 1 \/ x = 2 \/ x = 3 \/ x = 4 \/ x = 5 \/ x = 6
          \/ x = 7 \/ x = 8 \/ x = 9)%N as Hx by lia.
  repeat (destruct Hx as [->|Hx]; [now vm_compute|]). subst x. now vm_compute.
Qed.

Lemma pretty_N_go_digits (x : N) (s : string) :
  digits_only s = true -> digits_only (pretty_N_go x s) = true.
Proof.
  revert s. induction (N.lt_wf_0 x) as [x _ IH]. intros s Hs.
  destruct (N.eq_dec x 0%N) as [->|Hx]; [now rewrite pretty_N_go_0|].
  rewrite pretty_N_go_step by lia.
  apply IH; [apply N.div_lt; lia|]. cbn.
  destruct (pretty_N_char_digit (x mod 10)%N) as [-> _]; [|exact Hs].
  apply N.mod_lt. lia.
Qed.

Lemma pretty_N_go_cons (x : N) (s : string) :
  (0 < x)%N -> exists c r, pretty_N_go x s = String c r.
Proof.
  revert s. induction (N.lt_wf_0 x) as [x _ IH]. intros s Hx.
  rewrite pretty_N_go_step by assumption.
  destruct (N.eq_dec (x / 10)%N 0%N) as [E|E].
  - rewrite E, pretty_N_go_0. eauto.
  - apply IH; [apply N.div_lt; lia|now apply N.neq_0_lt_0].
Qed.

(** Reading the digits printed for [x] in front of [s] multiplies the
    accumulator by a power of ten and adds [x]. *)
Lemma read_digits_pretty_go (x : N) (s : string) :
  exists k : N, forall a : N,
    read_digits (pretty_N_go x s) a = read_digits s (a * 10 ^ k + x)%N.
Proof.
  revert s. induction (N.lt_wf_0 x) as [x _ IH]. intros s.
  destruct (N.eq_dec x 0%N) as [->|Hx].
  - exists 0%N. intros a. rewrite pretty_N_go_0. f_equal. cbn. lia.
  - rewrite pretty_N_go_step by lia.
    destruct (IH (x / 10)%N (N.div_lt x 10%N ltac:(lia) ltac:(lia))
                 (String (pretty_N_char (x mod 10)%N) s)) as [k Hk].
    exists (N.succ k). intros a. rewrite Hk. cbn.
    destruct (pretty_N_char_digit (x mod 10)%N) as [-> ->];
      [apply N.mod_lt; lia|].
    f_equal. rewrite N.pow_succ_r'.
    pose proof (N.div_mod x 10%N ltac:(lia)). lia.
Qed.

Lemma is_digit_bound (c : ascii) :
  is_digit c = true -> (48 <= N_of_ascii c <= 57)%N.
Proof.
  unfold is_digit. cbv zeta. intros [H1 H2]%andb_prop.
  apply N.leb_le in H1, H2. lia.
Qed.

(** Case analysis on every comparison of the goal, keeping the cases that
    the hypotheses allow. *)
Ltac case_N_tests :=
  repeat match goal with
  | |- context [N.eqb ?a ?b] => destruct (N.eqb_spec a b); try lia
  | |- context [N.leb ?a ?b] => destruct (N.leb_spec a b); try lia
  | |- context [N.ltb ?a ?b] => destruct (N.ltb_spec a b); try lia
  end; try reflexivity.

Lemma skip_ws_digit (c : ascii) (r : string) :
  is_digit c = true -> skip_ws (String c r) = String c r.
Proof.
  intros H%is_digit_bound. cbn.
  assert (is_ws1 c = false) as -> by (unfold is_ws1; cbv zeta; case_N_tests).
  destruct r as [|b r2]; [reflexivity|].
  assert (is_ws2 c b = false) as -> by (unfold is_ws2; case_N_tests).
  destruct r2 as [|d r3]; [reflexivity|].
  assert (is_ws3 c b d = false) as ->
    by (unfold is_ws3; cbv zeta; case_N_tests).
  reflexivity.
Qed.

Lemma read_sign_digit (c : ascii) (r : string) :
  is_digit c = true -> read_sign (String c r) = (false, String c r).
Proof.
  intros H%is_digit_bound. unfold read_sign.
  destruct (Ascii.eqb_spec c "-") as [->|_]; [cbn in H; lia|].
  destruct (Ascii.eqb_spec c "+") as [->|_]; [cbn in H; lia|].
  reflexivity.
Qed.

Lemma parseInt10_digits (s : string) :
  digits_only s = true -> s <> "" ->
  parseInt10 s = Some (Z.of_N (read_digits s 0%N)).
Proof.
  intros Hd Hne. destruct s as [|c r]; [congruence|].
  cbn in Hd. apply andb_prop in Hd as [Hc _].
  unfold parseInt10. rewrite skip_ws_digit, read_sign_digit by assumption.
  now rewrite Hc.
Qed.

Lemma pretty_N_digits (n : N) :
  digits_only (pretty n) = true /\ pretty n <> "" /\
  read_digits (pretty n) 0%N = n.
Proof.
  unfold pretty, pretty_N. destruct (decide (n = 0%N)) as [->|Hn].
  - now vm_compute.
  - split; [now apply pretty_N_go_digits|]. split.
    + destruct (pretty_N_go_cons n "") as (c & r & ->); [lia|congruence].
    + destruct (read_digits_pretty_go n "") as [k Hk]. rewrite Hk. cbn. lia.
Qed.

Lemma nat_toString_N (n : nat) : nat_toString n = pretty (N.of_nat n).
Proof.
  unfold nat_toString, pretty, pretty_Z. destruct n as [|n]; [reflexivity|].
  change (Z.of_nat (S n)) with (Z.pos (Pos.of_succ_nat n)).
  change (N.of_nat (S n)) with (N.pos (Pos.of_succ_nat n)). reflexivity.
Qed.

(** [parseInt(`${n}`, 10) === n] for a length or a count [n]. *)
Lemma parseInt10_nat_toString (n : nat) :
  parseInt10 (nat_toString n) = Some (Z.of_nat n).
Proof.
  rewrite nat_toString_N.
  destruct (pretty_N_digits (N.of_nat n)) as (Hd & Hne & Hv).
  rewrite parseInt10_digits, Hv by assumption. f_equal. lia.
Qed.

Lemma digits_only_ascii (s : string) : digits_only s = true -> ascii_only s.
Proof.
  induction s as [|c s IH]; intros H; [constructor|].
  cbn in H. apply andb_prop in H as [Hc Hs].
  apply ascii_only_cons. split; [|now apply IH].
  apply is_digit_bound in Hc. lia.
Qed.

Lemma nat_toString_digits (n : nat) : digits_only (nat_toString n) = true.
Proof. rewrite nat_toString_N. apply pretty_N_digits. Qed.

(** A run of digits holds no CRLF, so the search stops right after it. *)
Lemma find_crlf_digits (d rest : string) :
  digits_only d = true ->
  find_crlf (d ++ CRLF ++ rest) = Some (String.length d).
Proof.
  induction d as [|c d IH]; intros H.
  - reflexivity.
  - cbn in H. apply andb_prop in H as [Hc Hd]. sapp. cbn.
    specialize (IH Hd). rewrite IH.
    destruct (d ++ CRLF ++ rest) eqn:E; [discriminate|].
    assert ((c =? "013")%char = false) as ->; [|reflexivity].
    apply Ascii.eqb_neq. intros ->. now vm_compute in Hc.
Qed.

End NumeralFacts.

(** ** The codec: decoding what the encoder produced *)

Module RespFacts.
Import JS JSFacts NumeralFacts Resp.

(** Equality of two concatenations up to bracketing. *)
Ltac str_eq :=
  repeat rewrite app_assoc; repeat rewrite app_cons;
  repeat rewrite app_nil_l; reflexivity.

Lemma buf_length_cons (c : ascii) (s : string) :
  buf_length (String c s) = 1 + buf_length s.
Proof. unfold buf_length. cbn [String.length]. lia. Qed.

Lemma buf_length_CRLF : buf_length CRLF = 2.
Proof. reflexivity. Qed.

Lemma readUntilCRLF_line (pre line rest : string) :
  find_crlf (line ++ CRLF ++ rest) = Some (String.length line) ->
  readUntilCRLF (pre ++ line ++ CRLF ++ rest) (buf_length pre) =
  Some (line, buf_length pre + buf_length line + 2).
Proof.
  intros Hf. unfold readUntilCRLF.
  rewrite indexOf_CRLF_app, Hf. fold (buf_length line).
  pose proof (buf_length_nonneg pre). pose proof (buf_length_nonneg line).
  destruct (Z.eqb_spec (buf_length pre + buf_length line) (-1)); [lia|].
  now rewrite buf_slice_app.
Qed.

(** A slot whose declared length is [-1] decodes to [null]. *)
Lemma parse_elements_null (pre rest : string) (n : nat) (args : list arg) :
  parse_elements (pre ++ "$-1" ++ CRLF ++ rest) (S n) (buf_length pre) args =
  parse_elements (pre ++ "$-1" ++ CRLF ++ rest) n (buf_length pre + 5)
                 (args ++ [ANull]).
Proof.
  set (buffer := pre ++ "$-1" ++ CRLF ++ rest).
  assert (buf_length buffer = buf_length pre + 5 + buf_length rest) as Hlen.
  { subst buffer. rewrite !buf_length_app, buf_length_CRLF.
    change (buf_length "$-1") with 3. lia. }
  pose proof (buf_length_nonneg pre). pose proof (buf_length_nonneg rest).
  cbn [parse_elements].
  destruct (Z.leb_spec (buf_length buffer) (buf_length pre)); [lia|].
  assert (byte_at buffer (buf_length pre) = Some "$"%char) as ->.
  { subst buffer. sapp. apply byte_at_app. }
  cbn [Ascii.eqb Bool.eqb andb]. cbv zeta.
  assert (readUntilCRLF buffer (buf_length pre + 1) =
          Some ("-1", buf_length pre + 5)) as ->.
  { replace (buf_length pre + 1) with (buf_length (pre ++ "$"))
      by now rewrite buf_length_app.
    replace buffer with ((pre ++ "$") ++ "-1" ++ CRLF ++ rest)
      by (subst buffer; str_eq).
    rewrite readUntilCRLF_line by reflexivity.
    rewrite buf_length_app. do 2 f_equal.
    change (buf_length "$") with 1. change (buf_length "-1") with 2. lia. }
  reflexivity.
Qed.

(** A slot holding an ASCII string decodes to that string. *)
Lemma parse_elements_bulk (pre s rest : string) (n : nat) (args : list arg) :
  ascii_only s ->
  parse_elements (pre ++ respBulk (Some s) ++ rest) (S n) (buf_length pre)
                 args =
  parse_elements (pre ++ respBulk (Some s) ++ rest) n
                 (buf_length pre + buf_length (respBulk (Some s)))
                 (args ++ [AStr s]).
Proof.
  intros Hs. unfold respBulk. rewrite (js_length_ascii s Hs).
  set (d := nat_toString (String.length s)).
  set (buffer := pre ++ _ ++ rest).
  assert (digits_only d = true) as Hd by apply nat_toString_digits.
  assert (buffer = pre ++ String "$" (d ++ CRLF ++ s ++ CRLF ++ rest)) as E1
    by (subst buffer; str_eq).
  assert (buffer = (pre ++ "$") ++ d ++ CRLF ++ s ++ CRLF ++ rest) as E2
    by (subst buffer; str_eq).
  assert (buffer = (pre ++ "$" ++ d ++ CRLF) ++ s ++ CRLF ++ rest) as E3
    by (subst buffer; str_eq).
  assert (buffer = (pre ++ "$" ++ d ++ CRLF ++ s) ++ CRLF ++ rest) as E4
    by (subst buffer; str_eq).
  assert (buf_length buffer =
          buf_length pre + 1 + buf_length d + 2 + buf_length s + 2
          + buf_length rest) as Hlen.
  { rewrite E1, buf_length_app, buf_length_cons, !buf_length_app,
      buf_length_CRLF. lia. }
  pose proof (buf_length_nonneg pre). pose proof (buf_length_nonneg rest).
  pose proof (buf_length_nonneg d). pose proof (buf_length_nonneg s).
  replace (buf_length ("$" ++ d ++ CRLF ++ s ++ CRLF))
    with (1 + buf_length d + 2 + buf_length s + 2)
    by (rewrite app_cons, buf_length_cons, app_nil_l, !buf_length_app,
          buf_length_CRLF; lia).
  clearbody buffer.
  cbn [parse_elements].
  destruct (Z.leb_spec (buf_length buffer) (buf_length pre)); [lia|].
  assert (byte_at buffer (buf_length pre) = Some "$"%char) as ->
    by (rewrite E1; apply byte_at_app).
  cbn [Ascii.eqb Bool.eqb andb]. cbv zeta.
  assert (readUntilCRLF buffer (buf_length pre + 1) =
          Some (d, buf_length pre + 1 + buf_length d + 2)) as ->.
  { replace (buf_length pre + 1) with (buf_length (pre ++ "$"))
      by now rewrite buf_length_app.
    rewrite E2 at 1.
    now rewrite readUntilCRLF_line by now apply find_crlf_digits. }
  rewrite (Buffer_toString_ascii d) by now apply digits_only_ascii.
  unfold d at 1. rewrite parseInt10_nat_toString. fold (buf_length s).
  destruct (Z.eqb_spec (buf_length s) (-1)); [lia|].
  destruct (Z.ltb_spec (buf_length buffer)
              (buf_length pre + 1 + buf_length d + 2 + buf_length s)); [lia|].
  assert (buf_length pre + 1 + buf_length d + 2 =
          buf_length (pre ++ "$" ++ d ++ CRLF)) as Hp3.
  { rewrite buf_length_app, app_cons, buf_length_cons, app_nil_l,
      buf_length_app, buf_length_CRLF. lia. }
  assert (buf_length pre + 1 + buf_length d + 2 + buf_length s =
          buf_length (pre ++ "$" ++ d ++ CRLF ++ s)) as Hp4.
  { rewrite buf_length_app, app_cons, buf_length_cons, app_nil_l,
      !buf_length_app, buf_length_CRLF. lia. }
  assert (indexOf_CRLF buffer
            (buf_length pre + 1 + buf_length d + 2 + buf_length s) =
          buf_length pre + 1 + buf_length d + 2 + buf_length s) as ->.
  { rewrite Hp4, E4 at 1. rewrite indexOf_CRLF_app.
    change (find_crlf (CRLF ++ rest)) with (Some 0%nat).
    cbv iota. change (Z.of_nat 0) with 0. lia. }
  rewrite Z.eqb_refl.
  assert (buf_slice buffer (buf_length pre + 1 + buf_length d + 2)
            (buf_length pre + 1 + buf_length d + 2 + buf_length s) = s) as ->.
  { rewrite Hp3, E3. apply buf_slice_app. }
  rewrite (Buffer_toString_ascii s Hs). f_equal. lia.
Qed.

End RespFacts.

Module RoundTrip.
Import JS JSFacts NumeralFacts Resp RespFacts.

Lemma parse_elements_encoded (x : list (option string)) :
  Forall ascii_slot x ->
  forall (pre post : string) (args : list arg),
    parse_elements (pre ++ join (respBulk <$> x) ++ post) (length x)
                   (buf_length pre) args =
    Some (args ++ (to_arg <$> x))%list.
Proof.
  induction 1 as [|o x Ho _ IH]; intros pre post args.
  - cbn. now rewrite List.app_nil_r.
  - cbn [fmap list_fmap join length].
    replace (pre ++ (respBulk o ++ join (respBulk <$> x)) ++ post)
      with (pre ++ respBulk o ++ join (respBulk <$> x) ++ post)
      by now rewrite !app_assoc.
    assert (parse_elements
              (pre ++ respBulk o ++ join (respBulk <$> x) ++ post)
              (S (length x)) (buf_length pre) args =
            parse_elements
              (pre ++ respBulk o ++ join (respBulk <$> x) ++ post)
              (length x) (buf_length (pre ++ respBulk o))
              (args ++ [to_arg o])%list) as ->.
    { rewrite buf_length_app. destruct o as [s|].
      - now apply parse_elements_bulk.
      - apply parse_elements_null. }
    rewrite <- app_assoc, IH, <- List.app_assoc. reflexivity.
Qed.

(** Decoding the encoding of a list of ASCII strings and nulls gives the
    list back. *)
Lemma parseRESP_respArray_ascii (x : list (option string)) :
  Forall ascii_slot x -> parseRESP (respArray x) = Some (to_arg <$> x).
Proof.
  intros Hx. unfold parseRESP, respArray.
  set (d := nat_toString (length x)).
  assert (digits_only d = true) as Hd by apply nat_toString_digits.
  set (buffer := "*" ++ d ++ CRLF ++ join (respBulk <$> x)).
  assert (buf_length buffer =
          1 + (buf_length d + (2 + buf_length (join (respBulk <$> x)))))
    as Hlen.
  { subst buffer. now rewrite app_cons, buf_length_cons, app_nil_l,
      !buf_length_app, buf_length_CRLF. }
  pose proof (buf_length_nonneg d).
  pose proof (buf_length_nonneg (join (respBulk <$> x))).
  destruct (Z.eqb_spec (buf_length buffer) 0); [lia|].
  change (byte_at buffer 0) with (Some "*"%char). cbn [Ascii.eqb Bool.eqb negb andb].
  assert (readUntilCRLF buffer 1 = Some (d, 1 + buf_length d + 2)) as ->.
  { change 1 with (buf_length "*") at 1 2.
    subst buffer. now rewrite readUntilCRLF_line by now apply find_crlf_digits. }
  rewrite (Buffer_toString_ascii d) by now apply digits_only_ascii.
  unfold d at 1. rewrite parseInt10_nat_toString.
  destruct (Z.ltb_spec (Z.of_nat (length x)) 0); [lia|].
  rewrite Nat2Z.id.
  replace buffer with (("*" ++ d ++ CRLF) ++ join (respBulk <$> x) ++ "")
    by (subst buffer; rewrite app_nil_r; str_eq).
  replace (1 + buf_length d + 2) with (buf_length ("*" ++ d ++ CRLF))
    by (rewrite app_cons, buf_length_cons, app_nil_l, buf_length_app,
          buf_length_CRLF; lia).
  now rewrite parse_elements_encoded.
Qed.

End RoundTrip.

(** ** The store: cache and engine *)

Module StoreFacts.
Import JS Resp Store.

Lemma apply_operation_coherent (E : Engine) (op : Operation)
    (d c d' c' : gmap string string) :
  (forall k v, c !! k = Some v -> d !! k = Some v) ->
  apply_operation E op d c = Return (d', c') ->
  forall k v, c' !! k = Some v -> d' !! k = Some v.
Proof.
  intros H Hop k v. destruct op as [key value|key|p]; cbn in Hop.
  - destruct (put_error E key value); [discriminate|]. injection Hop as <- <-.
    destruct (decide (key = k)) as [->|Hne].
    + now rewrite !lookup_insert_eq.
    + rewrite !lookup_insert_ne by assumption. apply H.
  - destruct (remove_error E key); [discriminate|]. injection Hop as <- <-.
    destruct (decide (key = k)) as [->|Hne].
    + now rewrite !lookup_delete_eq.
    + rewrite !lookup_delete_ne by assumption. apply H.
  - injection Hop as <- <-. apply H.
Qed.

(** The callback of a transaction, when it runs, writes the engine and the
    cache alike, also when it stops at a refused write. *)
Lemma replay_coherent (E : Engine) (ops : list Operation) :
  forall d c,
    (forall k v, c !! k = Some v -> d !! k = Some v) ->
    forall k v,
      (replay E ops d c).2 !! k = Some v ->
      (replay E ops d c).1.2 !! k = Some v.
Proof.
  induction ops as [|op ops IH]; intros d c H; [exact H|].
  cbn [replay].
  destruct (apply_operation E op d c) as [[d1 c1]|msg] eqn:Hop; [|exact H].
  apply IH. now apply (apply_operation_coherent E op d c).
Qed.

Lemma cache_fill_coherent (key v : string) (st : State) :
  coherent st -> db st !! key = Some v ->
  coherent (with_cache (<[key := v]> (cache st)) st).
Proof.
  intros H Hdb k w. cbn. destruct (decide (key = k)) as [->|Hne].
  - rewrite lookup_insert_eq. now intros [= <-].
  - rewrite lookup_insert_ne by assumption. apply H.
Qed.

Lemma get_coherent (key : string) (st : State) :
  coherent st -> coherent (get key st).2.
Proof.
  intros H. unfold get. destruct (cache st !! key); [exact H|].
  destruct (db st !! key) as [v|] eqn:Hdb; [|exact H].
  now apply cache_fill_coherent.
Qed.

Lemma exists_coherent (key : string) (st : State) :
  coherent st -> coherent (exists_ key st).2.
Proof.
  intros H. unfold exists_. destruct (cache st !! key); [exact H|].
  destruct (db st !! key) as [v|] eqn:Hdb; [|exact H].
  now apply cache_fill_coherent.
Qed.

Lemma get_pending (key : string) (st : State) :
  pending (get key st).2 = pending st.
Proof.
  unfold get. destruct (cache st !! key); [reflexivity|].
  now destruct (db st !! key).
Qed.

Lemma exists_pending (key : string) (st : State) :
  pending (exists_ key st).2 = pending st.
Proof.
  unfold exists_. destruct (cache st !! key); [reflexivity|].
  now destruct (db st !! key).
Qed.

Lemma keys_data (pattern : string) (clientId : option string) (st : State) :
  db (keys pattern clientId st).2 = db st
  /\ cache (keys pattern clientId st).2 = cache st
  /\ pending (keys pattern clientId st).2 = pending st.
Proof.
  unfold keys. destruct clientId as [c|]; [|easy].
  destruct (transaction_of (Some c) st) as [t|]; [|easy].
  now destruct (active t).
Qed.

Lemma scan_db (env : ScanEnv) (cursor : Z) (pattern : string) (count : Z)
    (st : State) :
  db (scan env cursor pattern count st).2 = db st /\
  cache (scan env cursor pattern count st).2 = cache st.
Proof.
  unfold scan.
  destruct (if cursor =? 0 then _ else _) as [[pos currentKey] cursors].
  destruct (collect _ _ _ _ _ _) as [i found].
  now destruct (i <? length (getKeys (db st)))%nat.
Qed.

Lemma scan_pending (env : ScanEnv) (cursor : Z) (pattern : string)
    (count : Z) (st : State) :
  pending (scan env cursor pattern count st).2 = pending st.
Proof.
  unfold scan.
  destruct (if cursor =? 0 then _ else _) as [[pos currentKey] cursors].
  destruct (collect _ _ _ _ _ _) as [i found].
  now destruct (i <? length (getKeys (db st)))%nat.
Qed.

(** *** The engine at work *)

Lemma settle_all_unfold (E : Engine) (st : State) :
  settle_all E st
  = with_pending []
      (with_data (settle_pending E (pending st) (db st) (cache st)).1
                 (settle_pending E (pending st) (db st) (cache st)).2 st).
Proof.
  unfold settle_all, settle. rewrite firstn_all, drop_all.
  now destruct (settle_pending E (pending st) (db st) (cache st)).
Qed.

Lemma settle_all_nothing (E : Engine) (st : State) :
  pending st = [] -> settle_all E st = st.
Proof.
  intros H. rewrite settle_all_unfold, H. destruct st. cbn in *. now subst.
Qed.

Lemma settle_all_pending (E : Engine) (st : State) :
  pending (settle_all E st) = [].
Proof. now rewrite settle_all_unfold. Qed.

End StoreFacts.

(** ** Transactions *)

Module TransactionFacts.
Import JS Resp Store Commands Props Runs StoreFacts.

(** C1: a transaction of two writes whose second write the engine refuses
    is not atomic.  For [MULTI; SET a 1; SET b 2; EXEC] through the
    handlers, the reply of [EXEC] is not an error but an array, which holds
    [+OK] for the first write and the error of the second.  The first
    write stays: [GET a] answers [1] right away, and once the engine has
    committed what is pending it holds [a] and does not hold [b]. *)
Theorem failed_transaction_leaves_first_write :
  let E := refusing "b" "boom" in
  let '(_, cs1, st1) := multi 0 "x" fresh_client initial in
  let '(_, cs2, st2) := Commands.set E cs1 "a" "1" st1 in
  let '(_, cs3, st3) := Commands.set E cs2 "b" "2" st2 in
  let '(reply, cs4, st4) := exec E cs3 st3 in
  reply = "*2" ++ CRLF ++ "+OK" ++ CRLF ++ "-ERR boom" ++ CRLF
  /\ (Commands.get cs4 "a" st4).1.1 = respBulk (Some "1")
  /\ db (settle_all E st4) !! "a" = Some "1"
  /\ db (settle_all E st4) !! "b" = None.
Proof. vm_compute. repeat split; reflexivity. Qed.

(** C6: the cache does not stay coherent with the engine.  On a store whose
    engine holds [k] with the value [v], with an empty cache and nothing
    pending, [store.del(k)] hands the removal to the engine and deletes the
    cache entry; a [store.get(k)] made before the engine has committed the
    removal reads [v] from the engine and caches it again.  Once the engine
    has committed, it no longer holds [k], but the cache does, and
    [store.get(k)] keeps returning [v].  The handler of DEL makes such a
    read itself, when it checks that the key is gone: it answers [:0] and
    leaves the store in that state. *)
Theorem del_then_get_breaks_coherence :
  let E := reliable in
  let st := with_data {[ "k" := "v" ]} ∅ initial in
  let st' := settle_all E (store_calls E [CallDel "k" None; CallGet "k"] st) in
  coherent st
  /\ pending st = []
  /\ (Store.del E "k" None st).1 = true
  /\ (Store.get "k" (Store.del E "k" None st).2).1 = Some "v"
  /\ pending st' = []
  /\ db st' !! "k" = None
  /\ cache st' !! "k" = Some "v"
  /\ (Store.get "k" st').1 = Some "v"
  /\ ~ coherent st'
  /\ (let '(reply, _, st2) := Commands.del E fresh_client "k" st in
      reply = respInteger 0
      /\ db (settle_all E st2) !! "k" = None
      /\ cache (settle_all E st2) !! "k" = Some "v").
Proof.
  cbv zeta. split.
  { intros k v. cbn. now rewrite lookup_empty. }
  repeat (split; [now vm_compute|]).
  split.
  { intros H. specialize (H "k" "v"). vm_compute in H.
    specialize (H eq_refl). discriminate H. }
  now vm_compute.
Qed.

(** C7: a client that is inside a transaction gets an error from a second
    [MULTI], which changes neither its flag and queue nor the store (so the
    operation log stays as it was); and [beginTransaction] for a client
    identifier that has a transaction state returns [null] and changes
    nothing.  The table of transactions is a map keyed by the client
    identifier, so it holds at most one state for each. *)
Theorem nested_multi_is_rejected (now : Z) (rnd : string) (cs : ClientState)
    (cid : string) (st : State) :
  inTransaction cs = true ->
  is_Some (activeTransactions st !! cid) ->
  multi now rnd cs st = ("-ERR MULTI calls can not be nested" ++ CRLF, cs, st)
  /\ beginTransaction cid st = (None, st).
Proof.
  intros Hin [t Ht]. split.
  - unfold multi. now rewrite Hin.
  - unfold beginTransaction. now rewrite Ht.
Qed.

Lemma nested_multi_is_rejected_witness :
  let cs := {| inTransaction := true; commandQueue := [CmdGet "k"];
               clientId := Some "c"; name := None |} in
  let st := (beginTransaction "c" initial).2 in
  inTransaction cs = true
  /\ is_Some (activeTransactions st !! "c")
  /\ multi 0 "x" cs st = ("-ERR MULTI calls can not be nested" ++ CRLF, cs, st)
  /\ beginTransaction "c" st = (None, st).
Proof.
  cbv zeta.
  assert (is_Some (activeTransactions (beginTransaction "c" initial).2 !! "c"))
    as H by (vm_compute; eauto).
  split; [reflexivity|]. split; [exact H|].
  apply nested_multi_is_rejected; [reflexivity|exact H].
Defined.

(** C8: outside a transaction, [DEL] of a key that is neither in the cache
    nor in the engine replies [:0] and leaves the connection state and the
    whole store, engine and cache included, as they were. *)
Theorem del_of_absent_key (E : Engine) (cs : ClientState) (key : string)
    (st : State) :
  inTransaction cs = false ->
  absent key st ->
  del E cs key st = (":0" ++ CRLF, cs, st).
Proof.
  intros Hin [Hc Hd]. unfold del, Store.exists_. now rewrite Hin, Hc, Hd.
Qed.

Lemma del_of_absent_key_witness :
  inTransaction fresh_client = false
  /\ absent "foo" initial
  /\ del reliable fresh_client "foo" initial
     = (":0" ++ CRLF, fresh_client, initial).
Proof.
  assert (absent "foo" initial) as H by (split; apply lookup_empty).
  split; [reflexivity|]. split; [exact H|].
  apply del_of_absent_key; [reflexivity|exact H].
Defined.



End TransactionFacts.

(** ** The codec on strings that are not ASCII *)

Module CodecFacts.
Import JS JSFacts Resp RespFacts RoundTrip.

(** C3: the encoding of a command array is decoded back for ASCII strings
    and nulls only.  For the one-character string U+00E9, two bytes in
    UTF-8, [respArray] declares the length 1, the number of UTF-16 code
    units, and [parseRESP] rejects the message. *)
Theorem non_ascii_string_is_not_decoded_back :
  bytes "é" = [195; 169]%N
  /\ js_length "é" = 1%nat
  /\ respArray [Some "é"] = "*1" ++ CRLF ++ "$1" ++ CRLF ++ "é" ++ CRLF
  /\ parseRESP (respArray [Some "é"]) = None.
Proof. vm_compute. repeat split; reflexivity. Qed.

(** The null bulk string is the fixed marker, and it is not the encoding of
    the empty string. *)
Lemma respBulk_null :
  respBulk None = "$-1" ++ CRLF /\ respBulk (Some "") = "$0" ++ CRLF ++ CRLF.
Proof. split; reflexivity. Qed.

(** In the decoding of an encoded array, a null slot is [null] and not the
    empty string. *)
Lemma null_slot_decodes_to_null (before after : list (option string)) :
  Forall ascii_slot before -> Forall ascii_slot after ->
  exists args,
    parseRESP (respArray (before ++ None :: after)%list) = Some args
    /\ args !! length before = Some ANull.
Proof.
  intros Hb Ha. exists (to_arg <$> (before ++ None :: after)%list). split.
  - apply parseRESP_respArray_ascii. apply Forall_app. split; [exact Hb|].
    now constructor.
  - rewrite list_lookup_fmap, lookup_app_r by lia.
    now rewrite Nat.sub_diag.
Qed.

End CodecFacts.

(** ** CLIENT *)

Module ClientFacts.
Import JS Resp Store Commands Props.

(** C10, as stated, fails for the empty subcommand: it is outside the five
    known subcommands, and the reply is an error. *)
Lemma empty_subcommand_is_an_error :
  ~ (forall (cs : ClientState) (subcommand : string) (args : list string),
        ~ known_subcommand ascii_toUpperCase subcommand ->
        client ascii_toUpperCase cs (Some subcommand) args = (respOK, cs)).
Proof.
  intros H. specialize (H fresh_client "" []).
  assert (~ known_subcommand ascii_toUpperCase "") as Hk.
  { unfold known_subcommand. cbn. intros [?|[?|[?|[?|[?|[]]]]]]; discriminate. }
  specialize (H Hk). vm_compute in H. discriminate H.
Qed.

(** C10 (amended): for a subcommand that is not empty and whose upper-case
    form is none of SETNAME, GETNAME, ID, LIST and INFO, [client] replies
    [+OK] and returns the connection state as it was. *)
Theorem unknown_subcommand_is_OK (toUpperCase : string -> string)
    (cs : ClientState) (subcommand : string) (args : list string) :
  subcommand <> "" ->
  ~ known_subcommand toUpperCase subcommand ->
  client toUpperCase cs (Some subcommand) args = (respOK, cs).
Proof.
  intros Hne Hk. unfold client, truthy.
  destruct (String.eqb_spec subcommand "") as [|_]; [contradiction|].
  unfold known_subcommand in Hk. cbn [In] in Hk.
  repeat match goal with
  | |- context [String.eqb (toUpperCase subcommand) ?x] =>
      destruct (String.eqb_spec (toUpperCase subcommand) x) as [Heq|_];
      [exfalso; apply Hk; rewrite Heq; tauto|]
  end.
  reflexivity.
Qed.

Lemma unknown_subcommand_is_OK_witness :
  "kill" <> ""
  /\ ~ known_subcommand ascii_toUpperCase "kill"
  /\ client ascii_toUpperCase fresh_client (Some "kill") ["1"]
     = (respOK, fresh_client).
Proof.
  assert (~ known_subcommand ascii_toUpperCase "kill") as Hk.
  { unfold known_subcommand. cbn. intros [?|[?|[?|[?|[?|[]]]]]]; discriminate. }
  split; [discriminate|]. split; [exact Hk|].
  apply unknown_subcommand_is_OK; [discriminate|exact Hk].
Defined.

End ClientFacts.

(** ** SCAN: the reply and the options *)

Module ScanCommandFacts.
Import JS JSFacts Resp Store Commands Props.

(** C2: the reply of [SCAN 0] on an empty store.  Its lines end with the
    four characters U+00A5, [r], U+00A5, [n]; it holds neither a CR nor a LF
    byte, does not start with the array header [*2] followed by CRLF, and is
    not a reply of the wire grammar. *)
Theorem scan_reply_is_not_CRLF_terminated (env : ScanEnv) :
  exists reply,
    (scan ascii_toUpperCase (Some (AStr "0")) [] env initial).1 = Return reply
    /\ reply = "*2¥r¥n$1¥r¥n0¥r¥n*0¥r¥n"
    /\ bytes SCAN_EOL = [194; 165; 114; 194; 165; 110]%N
    /\ has_byte CR reply = false
    /\ has_byte LF reply = false
    /\ String.prefix ("*2" ++ CRLF) reply = false
    /\ ~ well_formed_scan_reply reply.
Proof.
  eexists. split.
  - unfold scan, scan_page, parse_options, arg_parseInt10.
    change (parseInt10 "0") with (Some 0). cbn [Z.ltb Z.compare].
    unfold Store.scan. reflexivity.
  - split; [now vm_compute|]. split; [now vm_compute|].
    split; [now vm_compute|]. split; [now vm_compute|].
    split; [now vm_compute|].
    intros (cursor & keys & H). unfold wire_scan_reply, CRLF in H.
    vm_compute in H. discriminate H.
Qed.

(** No reply that [scan] builds starts with the array header [*2] followed
    by CRLF, whatever the cursor and the keys. *)
Lemma scan_reply_never_has_the_header (nextCursor : Z)
    (filteredKeys : list string) :
  String.prefix ("*2" ++ CRLF) (scan_reply nextCursor filteredKeys) = false.
Proof.
  unfold scan_reply, SCAN_EOL, YEN, CRLF.
  rewrite !JSFacts.app_assoc, !JSFacts.app_cons. reflexivity.
Qed.

(** The length that [scan] declares for a key is its number of UTF-16 code
    units, not its number of bytes. *)
Lemma scan_reply_counts_code_units :
  js_length "é" = 1%nat
  /\ String.length "é" = 2%nat
  /\ scan_reply 0 ["é"]
     = "*2" ++ SCAN_EOL ++ "$1" ++ SCAN_EOL ++ "0" ++ SCAN_EOL
       ++ "*1" ++ SCAN_EOL ++ "$1" ++ SCAN_EOL ++ "é" ++ SCAN_EOL.
Proof. now vm_compute. Qed.

Section Options.
Variable toUpperCase : string -> string.





End Options.


End ScanCommandFacts.

(** ** SCAN: paging through a keyspace that does not change *)

Module ScanFacts.
Import JS JSFacts NumeralFacts Resp Store Commands Props ScanProps.

Lemma getKeys_NoDup (d : gmap string string) : NoDup (getKeys d).
Proof.
  unfold getKeys. rewrite merge_sort_Permutation. apply NoDup_elements.
Qed.

Lemma elem_of_getKeys (d : gmap string string) (k : string) :
  k ∈ getKeys d <-> is_Some (d !! k).
Proof.
  unfold getKeys. rewrite merge_sort_Permutation, elem_of_elements.
  apply elem_of_dom.
Qed.

(** The collecting loop stops [j] keys further, with the matching keys
    among those [j]; it moves on when it may collect and a key is left. *)
Lemma collect_spec (pattern : string) (count : Z) (rest : list string) :
  forall (i : nat) (collected : Z) (acc : list string),
  exists j : nat,
    (j <= length rest)%nat
    /\ collect pattern count rest i collected acc
       = ((i + j)%nat,
          (acc ++ filter (fun key => glob_test pattern key = true)
                    (take j rest))%list)
    /\ (collected < count -> rest <> [] -> (1 <= j)%nat).
Proof.
  induction rest as [|key rest IH]; intros i collected acc.
  - exists O. cbn. rewrite Nat.add_0_r, List.app_nil_r. repeat split; easy.
  - cbn [collect]. destruct (Z.ltb_spec collected count) as [Hlt|Hge].
    + assert (exists j : nat,
                 (j <= length rest)%nat
                 /\ (if glob_test pattern key
                     then collect pattern count rest (S i) (collected + 1)
                            (acc ++ [key])
                     else collect pattern count rest (S i) collected acc)
                    = ((S i + j)%nat,
                       (acc ++ filter (fun key => glob_test pattern key = true)
                                 (key :: take j rest))%list)) as (j & Hj & E).
      { destruct (glob_test pattern key) eqn:Hk.
        - destruct (IH (S i) (collected + 1) (acc ++ [key])%list)
            as (j & Hj & E & _).
          exists j. split; [exact Hj|]. rewrite E. f_equal.
          rewrite filter_cons_True by exact Hk.
          now rewrite <- List.app_assoc.
        - destruct (IH (S i) collected acc) as (j & Hj & E & _).
          exists j. split; [exact Hj|]. rewrite E. f_equal.
          rewrite filter_cons_False; [reflexivity|]. now rewrite Hk. }
      exists (S j). split; [cbn; lia|]. split; [|lia].
      rewrite E. cbn [take]. f_equal. lia.
    + exists O. cbn. rewrite Nat.add_0_r, List.app_nil_r.
      repeat split; [lia|lia].
Qed.

Lemma resume_index_lookup (allKeys : list string) (j : nat) (k : string) :
  NoDup allKeys -> allKeys !! j = Some k -> resume_index k allKeys = S j.
Proof.
  intros Hnd Hj. unfold resume_index.
  assert (list_find (fun key => key = k) allKeys = Some (j, k)) as ->;
    [|reflexivity].
  apply list_find_Some. split; [exact Hj|]. split; [reflexivity|].
  intros i y Hi Hlt ->.
  pose proof (NoDup_lookup _ _ _ _ Hnd Hi Hj). lia.
Qed.

(** What one call of [store.scan] does, in terms of where it starts. *)
Lemma scan_unfold (env : ScanEnv) (cursor : Z) (pattern : string) (count : Z)
    (st : State) :
  let allKeys := getKeys (db st) in
  let s := start_index cursor st in
  exists j : nat,
    (j <= length (drop s allKeys))%nat
    /\ (1 <= count -> (s < length allKeys)%nat -> (1 <= j)%nat)
    /\ Store.scan env cursor pattern count st =
       let found :=
         filter (fun key => glob_test pattern key = true)
           (take j (drop s allKeys)) in
       if (s + j <? length allKeys)%nat then
         ((nextCursorId st, found),
          with_cursors
            (sweep env
               (<[nextCursorId st := new_cursor env allKeys (s + j) pattern]>
                  (cursors_after_lookup cursor st)))
            (nextCursorId st + 1) st)
       else
         ((0, found),
          with_cursors (sweep env (cursors_after_lookup cursor st))
            (nextCursorId st) st).
Proof.
  intros allKeys s.
  destruct (collect_spec pattern count (drop s allKeys) s 0 [])
    as (j & Hj & E & Hmove).
  exists j. split; [exact Hj|]. split.
  { intros Hc Hs. apply Hmove; [lia|].
    intros Hnil. apply (f_equal length) in Hnil.
    rewrite length_drop in Hnil. cbn in Hnil. lia. }
  unfold Store.scan.
  assert ((if cursor =? 0 then (0, None, scanCursors st)
           else if 0 <? cursor then
             match scanCursors st !! cursor with
             | Some cursorState =>
                 (position cursorState, lastKey cursorState,
                  delete cursor (scanCursors st))
             | None => (0, None, scanCursors st)
             end
           else (0, None, scanCursors st))
          = (match found_cursor cursor st with
             | Some cursorState => position cursorState
             | None => 0
             end,
             match found_cursor cursor st with
             | Some cursorState => lastKey cursorState
             | None => None
             end,
             cursors_after_lookup cursor st)) as ->.
  { unfold cursors_after_lookup, found_cursor.
    destruct (cursor =? 0); [reflexivity|].
    destruct (0 <? cursor); [|reflexivity].
    now destruct (scanCursors st !! cursor). }
  fold allKeys.
  assert (match
           match found_cursor cursor st with
           | Some cursorState => lastKey cursorState
           | None => None
           end
         with
         | Some k =>
             if (0 <? match found_cursor cursor st with
                      | Some cursorState => position cursorState
                      | None => 0
                      end) && negb (String.eqb k "")
             then resume_index k allKeys
             else O
         | None => O
         end = s) as ->.
  { unfold s, start_index. fold allKeys.
    destruct (found_cursor cursor st) as [cs|]; reflexivity. }
  rewrite E. cbn [app]. unfold new_cursor. reflexivity.
Qed.

Lemma start_index_bound (cursor : Z) (st : State) :
  (start_index cursor st <= length (getKeys (db st)))%nat.
Proof.
  unfold start_index. destruct (found_cursor cursor st) as [cs|]; [|lia].
  destruct (lastKey cs) as [k|]; [|lia].
  destruct (_ && _); [|lia]. unfold resume_index.
  destruct (list_find _ _) as [[j y]|] eqn:Hf; [|lia].
  apply list_find_Some in Hf as (Hj & _). apply lookup_lt_Some in Hj. lia.
Qed.

(** A call starts at 0 or at the position its cursor stands at, so what
    was seen covers the keys before the start. *)
Lemma start_index_covered (pattern : string) (cursor : Z) (st : State)
    (seen : list string) :
  cursor_ok pattern st cursor seen ->
  covered pattern (getKeys (db st)) (start_index cursor st) seen.
Proof.
  intros Hok. unfold start_index.
  assert (covered pattern (getKeys (db st)) 0 seen) as H0.
  { intros key Hin. cbn in Hin. now apply elem_of_nil in Hin. }
  destruct (found_cursor cursor st) as [cs|] eqn:Hf; [|exact H0].
  destruct (Hok cs Hf) as (i & Hpos & Hlast & Hcov).
  destruct (lastKey cs) as [k|]; [|exact H0].
  destruct (_ && _); [|exact H0].
  destruct i as [|i]; [discriminate Hlast|]. cbn in Hlast. symmetry in Hlast.
  now rewrite (resume_index_lookup _ i k (getKeys_NoDup _) Hlast).
Qed.

Lemma covered_extend (pattern : string) (allKeys : list string) (s j : nat)
    (seen : list string) :
  covered pattern allKeys s seen ->
  covered pattern allKeys (s + j)
    (seen ++ filter (fun key => glob_test pattern key = true)
               (take j (drop s allKeys)))%list.
Proof.
  intros Hcov key Hin Hm. rewrite <- take_take_drop in Hin.
  apply elem_of_app in Hin as [Hin|Hin]; apply elem_of_app.
  - left. now apply Hcov.
  - right. now apply list_elem_of_filter.
Qed.

Lemma found_cursor_sweep_insert (env : ScanEnv) (id : Z) (c : ScanCursor)
    (m : gmap Z ScanCursor) (st' : State) (x : ScanCursor) :
  scanCursors st' = sweep env (<[id := c]> m) ->
  found_cursor id st' = Some x -> x = c.
Proof.
  intros Hst. unfold found_cursor. rewrite Hst.
  destruct (id =? 0); [discriminate|]. destruct (0 <? id); [|discriminate].
  unfold sweep. destruct (sweepDraw env).
  - intros [Hx _]%map_lookup_filter_Some.
    rewrite lookup_insert_eq in Hx. congruence.
  - rewrite lookup_insert_eq. congruence.
Qed.

(** One call keeps the engine as it is and keeps the invariant of the
    iteration; when it answers the cursor 0, everything has been seen. *)
Lemma scan_step (env : ScanEnv) (cursor : Z) (pattern : string) (count : Z)
    (st : State) (seen : list string) :
  1 <= nextCursorId st ->
  cursor_ok pattern st cursor seen ->
  let '((next, found), st') := Store.scan env cursor pattern count st in
  db st' = db st
  /\ 1 <= nextCursorId st'
  /\ 0 <= next
  /\ cursor_ok pattern st' next (seen ++ found)%list
  /\ (next = 0 ->
      covered pattern (getKeys (db st)) (length (getKeys (db st)))
        (seen ++ found)%list).
Proof.
  intros Hid Hok.
  destruct (scan_unfold env cursor pattern count st) as (j & Hj & _ & E).
  rewrite E. clear E. cbv zeta.
  pose proof (start_index_covered pattern cursor st seen Hok) as Hcov.
  pose proof (covered_extend pattern _ _ j _ Hcov) as Hcov'.
  pose proof (start_index_bound cursor st) as Hbound.
  set (s := start_index cursor st) in *.
  destruct (Nat.ltb_spec (s + j) (length (getKeys (db st)))) as [Hlt|Hge].
  - split; [reflexivity|]. split; [cbn; lia|]. split; [lia|]. split; [|lia].
    intros x Hx.
    eapply found_cursor_sweep_insert in Hx; [|reflexivity].
    subst x. exists (s + j)%nat. cbn [db with_cursors].
    repeat split. exact Hcov'.
  - split; [reflexivity|]. split; [exact Hid|]. split; [lia|]. split.
    + intros x Hx. discriminate Hx.
    + intros _. rewrite length_drop in Hj.
      replace (length (getKeys (db st))) with (s + j)%nat by lia.
      exact Hcov'.
Qed.

Lemma num_toString_nonneg (z : Z) :
  0 <= z -> num_toString z = nat_toString (Z.to_nat z).
Proof. intros H. unfold num_toString, nat_toString. now rewrite Z2Nat.id. Qed.

(** The cursor of a reply, sent back as it was printed, is read back. *)
Lemma parseInt10_num_toString (z : Z) :
  0 <= z -> parseInt10 (num_toString z) = Some z.
Proof.
  intros H. rewrite num_toString_nonneg, parseInt10_nat_toString by exact H.
  now rewrite Z2Nat.id.
Qed.

Section Iteration.
Variable toUpperCase : string -> string.

Lemma count_of_positive (v : arg) : 1 <= count_of v.
Proof.
  unfold count_of. destruct (arg_parseInt10 (Some v)) as [c|]; [|lia].
  destruct (Z.leb_spec c 0); lia.
Qed.

(** The count that [scan] passes to the store is at least 1. *)
Lemma parse_options_count (n : nat) :
  forall (args : list arg) (p0 : string) (c0 : Z) (p : string) (c : Z),
    (length args <= n)%nat ->
    1 <= c0 ->
    parse_options toUpperCase args p0 c0 = Return (p, c) ->
    1 <= c.
Proof.
  induction n as [|n IH]; intros args p0 c0 p c Hlen Hc0 Hp.
  - destruct args; [|cbn in Hlen; lia]. cbn in Hp. congruence.
  - destruct args as [|a rest]; [cbn in Hp; congruence|].
    cbn [parse_options] in Hp.
    destruct (arg_toString a) as [s|msg]; [|discriminate].
    destruct rest as [|v rest']; [congruence|].
    destruct (String.eqb (toUpperCase s) "MATCH").
    + destruct (arg_toString v) as [q|msg]; [|discriminate].
      apply (IH rest' q c0 p c); [cbn in Hlen; lia|exact Hc0|exact Hp].
    + destruct (String.eqb (toUpperCase s) "COUNT").
      * apply (IH rest' p0 (count_of v) p c);
          [cbn in Hlen; lia|apply count_of_positive|exact Hp].
      * apply (IH (v :: rest') p0 c0 p c);
          [cbn in Hlen |- *; lia|exact Hc0|exact Hp].
Qed.

Variables (args : list arg) (pattern : string) (count : Z).
Hypothesis Hargs : parse_options toUpperCase args "*" 10 = Return (pattern, count).
Hypothesis Hpattern : pattern <> "*1".

Lemma count_positive : 1 <= count.
Proof.
  apply (parse_options_count (length args) args "*" 10 pattern count);
    [lia|lia|exact Hargs].
Qed.

(** With these arguments a call of the command is a call of the store. *)
Lemma scan_page_store (cursor : Z) (env : ScanEnv) (st : State) :
  0 <= cursor ->
  scan_page toUpperCase (Some (AStr (num_toString cursor))) args env st
  = let '((next, found), st') := Store.scan env cursor pattern count st in
    (Return (next, found), st').
Proof.
  intros Hc. unfold scan_page. rewrite Hargs. cbn [arg_parseInt10].
  rewrite (parseInt10_num_toString cursor Hc).
  destruct (Z.ltb_spec cursor 0); [lia|].
  destruct (Store.scan env cursor pattern count st) as [[next found] st'].
  unfold filterKeysForTestCases.
  now destruct (String.eqb_spec pattern "*1").
Qed.

Variable envs : nat -> ScanEnv.

(** Whenever the iteration ends, every matching key is among the keys it
    gathered. *)
Lemma scan_all_covers (fuel : nat) :
  forall (n : nat) (cursor : Z) (st : State) (seen result : list string)
         (st' : State),
    1 <= nextCursorId st ->
    0 <= cursor ->
    cursor_ok pattern st cursor seen ->
    scan_all toUpperCase fuel envs n (Some (AStr (num_toString cursor))) args
             st seen = Some (result, st') ->
    covered pattern (getKeys (db st)) (length (getKeys (db st))) result.
Proof.
  induction fuel as [|fuel IH]; intros n cursor st seen result st' Hid Hc Hok H.
  - discriminate H.
  - cbn [scan_all] in H. rewrite (scan_page_store cursor (envs n) st Hc) in H.
    pose proof (scan_step (envs n) cursor pattern count st seen Hid Hok) as Hs.
    destruct (Store.scan (envs n) cursor pattern count st)
      as [[next found] st1].
    destruct Hs as (Hdb & Hid1 & Hnext & Hok1 & Hdone).
    destruct (Z.eqb_spec next 0) as [->|Hne].
    + injection H as <- <-. now apply Hdone.
    + rewrite <- Hdb.
      apply (IH (S n) next st1 (seen ++ found)%list result st'); assumption.
Qed.

(** Under [cursor_live] a call starts exactly where its cursor stands. *)
Lemma start_index_live (cursor : Z) (st : State) (s : nat) :
  db st !! "" = None ->
  cursor_live st cursor s ->
  start_index cursor st = s
  /\ cursors_after_lookup cursor st
     = if cursor =? 0 then scanCursors st else delete cursor (scanCursors st).
Proof.
  intros Hempty [[-> ->]|(Hc & Hs & cs & Hcs & Hpos & Hlast)];
    [split; reflexivity|].
  unfold start_index, cursors_after_lookup, found_cursor.
  destruct (Z.eqb_spec cursor 0); [lia|].
  destruct (Z.ltb_spec 0 cursor); [|lia]. rewrite Hcs. split; [|reflexivity].
  destruct s as [|i]; [lia|]. cbn [key_before] in Hlast.
  destruct (lookup_lt_is_Some_2 (getKeys (db st)) i ltac:(lia)) as [k Hk].
  rewrite Hlast, Hk, Hpos.
  destruct (Z.ltb_spec 0 (Z.of_nat (S i))); [|lia].
  destruct (String.eqb_spec k "") as [->|_].
  - apply list_elem_of_lookup_2, elem_of_getKeys in Hk.
    rewrite Hempty in Hk. now destruct Hk.
  - cbn [andb negb]. now apply resume_index_lookup; [apply getKeys_NoDup|].
Qed.

(** One call either answers the cursor 0 or leaves a cursor that stands
    strictly further. *)
Lemma scan_step_live (env : ScanEnv) (cursor : Z) (st : State) (s : nat) :
  db st !! "" = None ->
  keeps_new_cursor env ->
  1 <= nextCursorId st ->
  cursor_live st cursor s ->
  let '((next, found), st') := Store.scan env cursor pattern count st in
  db st' = db st
  /\ 1 <= nextCursorId st'
  /\ 0 <= next
  /\ (next = 0 \/ exists s', (s < s')%nat /\ cursor_live st' next s').
Proof.
  intros Hempty Henv Hid Hlive.
  destruct (scan_unfold env cursor pattern count st) as (j & Hj & Hmove & E).
  rewrite E. clear E. cbv zeta in *.
  destruct (start_index_live cursor st s Hempty Hlive) as [Hstart _].
  rewrite Hstart in *. clear Hstart.
  destruct (Nat.ltb_spec (s + j) (length (getKeys (db st)))) as [Hlt|Hge].
  - split; [reflexivity|]. split; [cbn; lia|]. split; [lia|]. right.
    specialize (Hmove count_positive ltac:(lia)).
    exists (s + j)%nat. split; [lia|]. right.
    split; [lia|]. split; [cbn [db with_cursors]; lia|].
    exists (new_cursor env (getKeys (db st)) (s + j) pattern).
    split; [|split; reflexivity].
    cbn [scanCursors with_cursors]. unfold sweep.
    destruct (sweepDraw env) eqn:Hdraw.
    + apply map_lookup_filter_Some. split; [apply lookup_insert_eq|].
      cbn. unfold expired, new_cursor. cbn [createdAt].
      specialize (Henv Hdraw). now destruct (Z.ltb_spec CURSOR_TTL
        (sweepNow env - createdNow env)); [lia|].
    + apply lookup_insert_eq.
  - split; [reflexivity|]. split; [exact Hid|]. split; [lia|]. now left.
Qed.

Hypothesis Henvs : forall n, keeps_new_cursor (envs n).

(** With one call more than there are keys, the iteration ends. *)
Lemma scan_all_ends (fuel : nat) :
  forall (n : nat) (cursor : Z) (st : State) (s : nat) (seen : list string),
    db st !! "" = None ->
    1 <= nextCursorId st ->
    0 <= cursor ->
    cursor_live st cursor s ->
    (length (getKeys (db st)) - s < fuel)%nat ->
    exists result st',
      scan_all toUpperCase fuel envs n (Some (AStr (num_toString cursor))) args
               st seen = Some (result, st').
Proof.
  induction fuel as [|fuel IH];
    intros n cursor st s seen Hempty Hid Hc Hlive Hfuel; [lia|].
  cbn [scan_all]. rewrite (scan_page_store cursor (envs n) st Hc).
  pose proof (scan_step_live (envs n) cursor st s Hempty (Henvs n) Hid Hlive)
    as Hs.
  destruct (Store.scan (envs n) cursor pattern count st) as [[next found] st1].
  destruct Hs as (Hdb & Hid1 & Hnext & Hend).
  destruct (Z.eqb_spec next 0) as [->|Hne]; [eauto|].
  destruct Hend as [->|(s' & Hs' & Hlive')]; [lia|].
  apply (IH (S n) next st1 s'); try assumption.
  - now rewrite Hdb.
  - assert (s' < length (getKeys (db st1)))%nat as Hlt.
    { destruct Hlive' as [[-> _]|(_ & Hr & _)]; lia. }
    rewrite Hdb in *. lia.
Qed.

End Iteration.

Lemma covered_all (pattern : string) (st : State) (seen : list string) :
  covered pattern (getKeys (db st)) (length (getKeys (db st))) seen ->
  all_matches_in pattern st seen.
Proof.
  intros H key Hk Hm. apply H; [|exact Hm].
  rewrite take_ge by lia. now apply elem_of_getKeys.
Qed.

(** The group of [/^.*?(¥d+)$/] starts with the character U+00A5 and has
    at least two code units. *)
Lemma match_group_yen (k g : list N) :
  match_group k = Some g -> yen_d_plus g = true.
Proof.
  induction k as [|u k IH]; cbn [match_group].
  - destruct (yen_d_plus []) eqn:E; [discriminate E|discriminate].
  - destruct (yen_d_plus (u :: k)) eqn:E; [now intros [= <-]|].
    destruct (line_terminator u); [discriminate|exact IH].
Qed.

(** The filter that [scan] applies for the pattern [*1] keeps no key. *)
Lemma filterKeysForTestCases_star_one (keys : list string) :
  filterKeysForTestCases keys "*1" = [].
Proof.
  unfold filterKeysForTestCases. cbn [String.eqb Ascii.eqb Bool.eqb andb].
  induction keys as [|key keys IH]; [reflexivity|].
  rewrite filter_cons_False; [exact IH|].
  intros H. apply match_group_yen in H. discriminate H.
Qed.

(** C4: the iteration does not visit every matching key.  The handler of
    SCAN passes the page of a scan for the pattern [*1] through
    [filterKeysForTestCases], which is meant to keep the keys that end in
    exactly [1]; its regular expression [/^.*?(¥d+)$/] is written with the
    character U+00A5 where a backslash was meant, and keeps no key at all.
    On an engine that holds the one key [user:1], which matches [*1] and
    which [store.scan] finds, SCAN 0 MATCH *1 answers the cursor 0 and no
    key. *)
Theorem scan_match_star_one_returns_no_key :
  (forall keys, filterKeysForTestCases keys "*1" = [])
  /\ (let st := with_data {[ "user:1" := "v" ]} ∅ initial in
      let envs := fun _ : nat =>
        {| createdNow := 0; sweepDraw := false; sweepNow := 0 |} in
      is_Some (db st !! "user:1")
      /\ glob_test "*1" "user:1" = true
      /\ (Store.scan (envs O) 0 "*1" 10 st).1 = (0, ["user:1"])
      /\ (exists st',
             scan_all ascii_toUpperCase 1 envs 0 (Some (AStr "0"))
               [AStr "MATCH"; AStr "*1"] st [] = Some ([], st'))
      /\ ~ all_matches_in "*1" st []).
Proof.
  split; [exact filterKeysForTestCases_star_one|]. cbv zeta.
  assert (is_Some (db (with_data {[ "user:1" := "v" ]} ∅ initial)
                     !! "user:1")) as Hk by (vm_compute; eauto).
  split; [exact Hk|]. split; [now vm_compute|]. split; [now vm_compute|].
  split; [eexists; vm_compute; reflexivity|].
  intros H. specialize (H "user:1" Hk ltac:(now vm_compute)).
  now apply elem_of_nil in H.
Qed.

(** X29: for a [SCAN] whose options select a pattern other than [*1], on a
    store whose engine does not change, a client that starts from cursor 0
    and sends back the cursor of each reply has received every matching key
    once a reply carries the cursor 0; and when the engine holds no empty
    key (a cursor whose last key is empty starts over) and no call sweeps
    away the cursor it has just stored, that reply comes within one call
    more than there are keys. *)
Theorem scan_iteration_visits_every_match (toUpperCase : string -> string)
    (args : list arg) (pattern : string) (count : Z) (envs : nat -> ScanEnv)
    (st : State) :
  parse_options toUpperCase args "*" 10 = Return (pattern, count) ->
  pattern <> "*1" ->
  1 <= nextCursorId st ->
  (forall fuel result st',
      scan_all toUpperCase fuel envs 0 (Some (AStr "0")) args st []
      = Some (result, st') ->
      all_matches_in pattern st result)
  /\ (db st !! "" = None ->
      (forall n, keeps_new_cursor (envs n)) ->
      exists result st',
        scan_all toUpperCase (S (length (getKeys (db st)))) envs 0
          (Some (AStr "0")) args st [] = Some (result, st')
        /\ all_matches_in pattern st result).
Proof.
  intros Hargs Hpattern Hid.
  assert (forall fuel result st',
             scan_all toUpperCase fuel envs 0 (Some (AStr "0")) args st []
             = Some (result, st') ->
             all_matches_in pattern st result) as Hpartial.
  { intros fuel result st' H. apply covered_all.
    apply (scan_all_covers toUpperCase args pattern count Hargs Hpattern envs
             fuel 0%nat 0 st [] result st'); [exact Hid|lia| |exact H].
    intros cs Hcs. discriminate Hcs. }
  split; [exact Hpartial|]. intros Hempty Henvs.
  destruct (scan_all_ends toUpperCase args pattern count Hargs Hpattern envs
              Henvs (S (length (getKeys (db st)))) 0%nat 0 st 0%nat []
              Hempty Hid ltac:(lia) ltac:(now left) ltac:(lia))
    as (result & st' & H).
  exists result, st'. split; [exact H|]. now apply (Hpartial _ _ _ H).
Qed.

Lemma scan_iteration_visits_every_match_witness :
  let st := with_data {[ "a" := "1"; "b" := "2"; "c1" := "3" ]} ∅ initial in
  let envs := fun _ : nat =>
    {| createdNow := 1000; sweepDraw := true; sweepNow := 1001 |} in
  let args := [AStr "match"; AStr "*"; AStr "count"; AStr "2"] in
  parse_options ascii_toUpperCase args "*" 10 = Return ("*", 2)
  /\ "*" <> "*1"
  /\ 1 <= nextCursorId st
  /\ db st !! "" = None
  /\ (forall n, keeps_new_cursor (envs n))
  /\ exists result st',
       scan_all ascii_toUpperCase (S (length (getKeys (db st)))) envs 0
         (Some (AStr "0")) args st [] = Some (result, st')
       /\ all_matches_in "*" st result.
Proof.
  cbv zeta.
  assert (db (with_data {[ "a" := "1"; "b" := "2"; "c1" := "3" ]} ∅ initial)
            !! "" = None) as Hempty by now vm_compute.
  assert (forall n : nat,
             keeps_new_cursor
               {| createdNow := 1000; sweepDraw := true; sweepNow := 1001 |})
    as Henvs by (intros _ _; now vm_compute).
  split; [reflexivity|]. split; [discriminate|]. split; [now vm_compute|].
  split; [exact Hempty|]. split; [exact Henvs|].
  apply (scan_iteration_visits_every_match ascii_toUpperCase
           [AStr "match"; AStr "*"; AStr "count"; AStr "2"] "*" 2
           (fun _ => {| createdNow := 1000; sweepDraw := true;
                        sweepNow := 1001 |})
           (with_data {[ "a" := "1"; "b" := "2"; "c1" := "3" ]} ∅ initial));
    [reflexivity|discriminate|now vm_compute|exact Hempty|exact Henvs].
Defined.

End ScanFacts.

(** ** The codec: pipelined, mixed and odd messages *)

Module CodecExtras.
Import JS JSFacts NumeralFacts Resp RespFacts.

(** After the header of an array of [k] elements the decoder reads [k]
    elements. *)
Lemma parseRESP_header (k : nat) (body : string) :
  parseRESP ("*" ++ nat_toString k ++ CRLF ++ body)
  = parse_elements ("*" ++ nat_toString k ++ CRLF ++ body) k
      (buf_length ("*" ++ nat_toString k ++ CRLF)) [].
Proof.
  unfold parseRESP. set (d := nat_toString k).
  assert (digits_only d = true) as Hd by apply nat_toString_digits.
  set (buffer := "*" ++ d ++ CRLF ++ body).
  assert (buf_length buffer = 1 + (buf_length d + (2 + buf_length body)))
    as Hlen.
  { subst buffer. now rewrite app_cons, buf_length_cons, app_nil_l,
      !buf_length_app, buf_length_CRLF. }
  pose proof (buf_length_nonneg d). pose proof (buf_length_nonneg body).
  destruct (Z.eqb_spec (buf_length buffer) 0); [lia|].
  change (byte_at buffer 0) with (Some "*"%char).
  cbn [Ascii.eqb Bool.eqb negb andb].
  assert (readUntilCRLF buffer 1 = Some (d, 1 + buf_length d + 2)) as ->.
  { change 1 with (buf_length "*") at 1 2.
    subst buffer. now rewrite readUntilCRLF_line by now apply find_crlf_digits. }
  rewrite (Buffer_toString_ascii d) by now apply digits_only_ascii.
  unfold d at 1. rewrite parseInt10_nat_toString.
  destruct (Z.ltb_spec (Z.of_nat k) 0); [lia|].
  rewrite Nat2Z.id. f_equal.
  rewrite app_cons, buf_length_cons, app_nil_l, buf_length_app,
    buf_length_CRLF. lia.
Qed.

(** Reading the encoded slots of [x] leaves the decoder right after them,
    whatever follows. *)
Lemma parse_elements_run (x : list (option string)) :
  Forall ascii_slot x ->
  forall (pre post : string) (m : nat) (args : list arg),
    parse_elements (pre ++ join (respBulk <$> x) ++ post) (length x + m)
                   (buf_length pre) args =
    parse_elements (pre ++ join (respBulk <$> x) ++ post) m
                   (buf_length (pre ++ join (respBulk <$> x)))
                   (args ++ (to_arg <$> x))%list.
Proof.
  induction 1 as [|o x Ho _ IH]; intros pre post m args.
  - cbn [fmap list_fmap join length Nat.add].
    now rewrite app_nil_l, app_nil_r, List.app_nil_r.
  - cbn [fmap list_fmap join length Nat.add].
    replace (pre ++ (respBulk o ++ join (respBulk <$> x)) ++ post)
      with (pre ++ respBulk o ++ join (respBulk <$> x) ++ post)
      by now rewrite !app_assoc.
    assert (parse_elements
              (pre ++ respBulk o ++ join (respBulk <$> x) ++ post)
              (S (length x + m)) (buf_length pre) args =
            parse_elements
              (pre ++ respBulk o ++ join (respBulk <$> x) ++ post)
              (length x + m) (buf_length (pre ++ respBulk o))
              (args ++ [to_arg o])%list) as ->.
    { rewrite buf_length_app. destruct o as [s|].
      - now apply parse_elements_bulk.
      - apply parse_elements_null. }
    rewrite <- (app_assoc pre (respBulk o)), IH, <- List.app_assoc.
    now rewrite !app_assoc.
Qed.

Lemma skip_ws_printable (c : ascii) (r : string) :
  (33 <= N_of_ascii c < 128)%N -> skip_ws (String c r) = String c r.
Proof.
  intros H. cbn.
  assert (is_ws1 c = false) as -> by (unfold is_ws1; cbv zeta; case_N_tests).
  destruct r as [|b r2]; [reflexivity|].
  assert (is_ws2 c b = false) as -> by (unfold is_ws2; case_N_tests).
  destruct r2 as [|d r3]; [reflexivity|].
  assert (is_ws3 c b d = false) as ->
    by (unfold is_ws3; cbv zeta; case_N_tests).
  reflexivity.
Qed.

(** [parseInt] reads back every integer that a template prints. *)
Lemma parseInt10_num_toString_Z (z : Z) : parseInt10 (num_toString z) = Some z.
Proof.
  destruct z as [|p|p].
  - reflexivity.
  - rewrite <- (positive_nat_Z p).
    change (num_toString (Z.of_nat (Pos.to_nat p)))
      with (nat_toString (Pos.to_nat p)).
    apply parseInt10_nat_toString.
  - unfold num_toString, pretty, pretty_Z.
    destruct (pretty_N_digits (N.pos p)) as (Hd & Hne & Hv).
    change (pretty p) with (pretty (N.pos p)).
    destruct (pretty (N.pos p)) as [|c r] eqn:E; [congruence|].
    rewrite app_cons, app_nil_l. unfold parseInt10.
    rewrite skip_ws_printable by (vm_compute; split; [discriminate|reflexivity]).
    cbn [read_sign Ascii.eqb Bool.eqb andb].
    cbn in Hd. apply andb_prop in Hd as [Hc Hr]. rewrite Hc.
    unfold signed. rewrite Hv. reflexivity.
Qed.

Lemma num_toString_shape (z : Z) :
  exists d, digits_only d = true
            /\ (num_toString z = d \/ num_toString z = String "-" d).
Proof.
  destruct z as [|p|p].
  - exists "0". split; [reflexivity|now left].
  - exists (pretty (N.pos p)). split; [apply pretty_N_digits|now left].
  - exists (pretty (N.pos p)). split; [apply pretty_N_digits|right].
    reflexivity.
Qed.

Lemma find_crlf_numeral (z : Z) (rest : string) :
  find_crlf (num_toString z ++ CRLF ++ rest)
  = Some (String.length (num_toString z)).
Proof.
  destruct (num_toString_shape z) as (d & Hd & [->| ->]).
  - now apply find_crlf_digits.
  - rewrite app_cons. cbn [find_crlf String.length].
    rewrite (find_crlf_digits d rest Hd).
    destruct (d ++ CRLF ++ rest) eqn:E; [|reflexivity].
    destruct d; discriminate E.
Qed.

Lemma numeral_ascii (z : Z) : ascii_only (num_toString z).
Proof.
  destruct (num_toString_shape z) as (d & Hd & [->| ->]).
  - now apply digits_only_ascii.
  - apply ascii_only_cons. split; [now vm_compute|now apply digits_only_ascii].
Qed.

(** An integer element decodes to its number. *)
Lemma parse_elements_integer (pre rest : string) (z : Z) (n : nat)
    (args : list arg) :
  parse_elements (pre ++ respInteger z ++ rest) (S n) (buf_length pre) args =
  parse_elements (pre ++ respInteger z ++ rest) n
                 (buf_length (pre ++ respInteger z)) (args ++ [AInt z]).
Proof.
  unfold respInteger. set (d := num_toString z).
  set (buffer := pre ++ _ ++ rest).
  assert (buffer = pre ++ String ":" (d ++ CRLF ++ rest)) as E1
    by (subst buffer; str_eq).
  assert (buffer = (pre ++ ":") ++ d ++ CRLF ++ rest) as E2
    by (subst buffer; str_eq).
  assert (buf_length buffer =
          buf_length pre + 1 + buf_length d + 2 + buf_length rest) as Hlen.
  { rewrite E1, buf_length_app, buf_length_cons, !buf_length_app,
      buf_length_CRLF. lia. }
  pose proof (buf_length_nonneg pre). pose proof (buf_length_nonneg rest).
  pose proof (buf_length_nonneg d).
  replace (buf_length (pre ++ ":" ++ d ++ CRLF))
    with (buf_length pre + 1 + buf_length d + 2)
    by (rewrite buf_length_app, app_cons, buf_length_cons, app_nil_l,
          buf_length_app, buf_length_CRLF; lia).
  clearbody buffer. cbn [parse_elements].
  destruct (Z.leb_spec (buf_length buffer) (buf_length pre)); [lia|].
  assert (byte_at buffer (buf_length pre) = Some ":"%char) as ->
    by (rewrite E1; apply byte_at_app).
  cbn [Ascii.eqb Bool.eqb andb]. cbv zeta.
  assert (readUntilCRLF buffer (buf_length pre + 1) =
          Some (d, buf_length pre + 1 + buf_length d + 2)) as ->.
  { replace (buf_length pre + 1) with (buf_length (pre ++ ":"))
      by now rewrite buf_length_app.
    rewrite E2 at 1.
    now rewrite readUntilCRLF_line by apply find_crlf_numeral. }
  rewrite (Buffer_toString_ascii d) by apply numeral_ascii.
  unfold d at 1. now rewrite parseInt10_num_toString_Z.
Qed.

Lemma parse_elements_integers (zs : list Z) :
  forall (pre : string) (args : list arg),
    parse_elements (pre ++ join (respInteger <$> zs)) (length zs)
                   (buf_length pre) args
    = Some (args ++ (AInt <$> zs))%list.
Proof.
  induction zs as [|z zs IH]; intros pre args.
  - cbn. now rewrite List.app_nil_r.
  - cbn [fmap list_fmap join length].
    rewrite parse_elements_integer, <- app_assoc, IH, <- List.app_assoc.
    reflexivity.
Qed.

(** An element that declares the length [-2] decodes to the empty string,
    and the decoder goes on after its header. *)
Lemma parse_elements_minus_two (pre rest : string) (n : nat)
    (args : list arg) :
  parse_elements (pre ++ "$-2" ++ CRLF ++ rest) (S n) (buf_length pre) args =
  parse_elements (pre ++ "$-2" ++ CRLF ++ rest) n
                 (buf_length (pre ++ "$-2" ++ CRLF)) (args ++ [AStr ""]).
Proof.
  set (buffer := pre ++ "$-2" ++ CRLF ++ rest).
  assert (buf_length buffer = buf_length pre + 5 + buf_length rest) as Hlen.
  { subst buffer. rewrite !buf_length_app, buf_length_CRLF.
    change (buf_length "$-2") with 3. lia. }
  replace (buf_length (pre ++ "$-2" ++ CRLF)) with (buf_length pre + 5)
    by (rewrite !buf_length_app, buf_length_CRLF;
        change (buf_length "$-2") with 3; lia).
  pose proof (buf_length_nonneg pre). pose proof (buf_length_nonneg rest).
  cbn [parse_elements].
  destruct (Z.leb_spec (buf_length buffer) (buf_length pre)); [lia|].
  assert (byte_at buffer (buf_length pre) = Some "$"%char) as ->.
  { subst buffer. sapp. apply byte_at_app. }
  cbn [Ascii.eqb Bool.eqb andb]. cbv zeta.
  assert (readUntilCRLF buffer (buf_length pre + 1) =
          Some ("-2", buf_length pre + 5)) as ->.
  { replace (buf_length pre + 1) with (buf_length (pre ++ "$"))
      by now rewrite buf_length_app.
    replace buffer with ((pre ++ "$") ++ "-2" ++ CRLF ++ rest)
      by (subst buffer; str_eq).
    rewrite readUntilCRLF_line by reflexivity.
    rewrite buf_length_app. do 2 f_equal.
    change (buf_length "$") with 1. change (buf_length "-2") with 2. lia. }
  change (parseInt10 (Buffer_toString "-2")) with (Some (-2)).
  cbn [Z.eqb]. cbv iota.
  destruct (Z.ltb_spec (buf_length buffer) (buf_length pre + 5 + -2)); [lia|].
  assert (indexOf_CRLF buffer (buf_length pre + 5 + -2)
          = buf_length pre + 5 + -2) as ->.
  { replace (buf_length pre + 5 + -2) with (buf_length (pre ++ "$-2"))
      by (rewrite buf_length_app; change (buf_length "$-2") with 3; lia).
    replace buffer with ((pre ++ "$-2") ++ CRLF ++ rest)
      by (subst buffer; str_eq).
    rewrite indexOf_CRLF_app.
    change (find_crlf (CRLF ++ rest)) with (Some 0%nat).
    cbv iota. change (Z.of_nat 0) with 0. lia. }
  rewrite Z.eqb_refl.
  assert (buf_slice buffer (buf_length pre + 5) (buf_length pre + 5 + -2) = "")
    as ->.
  { unfold buf_slice, clamp_index. rewrite Hlen.
    destruct (Z.ltb_spec (buf_length pre + 5) 0); [lia|].
    destruct (Z.ltb_spec (buf_length pre + 5 + -2) 0); [lia|].
    rewrite !Z.min_l by lia.
    now destruct (Z.leb_spec (buf_length pre + 5 + -2) (buf_length pre + 5));
      [|lia]. }
  change (Buffer_toString "") with "". f_equal. lia.
Qed.

End CodecExtras.

(** ** Messages that arrive in pieces *)

Module FramingFacts.
Import JS JSFacts NumeralFacts Resp RespFacts CodecProps CodecExtras
  RespBuffer.

(** Two ways of cutting one string in two. *)
Lemma app_split (a b u v : string) :
  a ++ b = u ++ v ->
  (exists c, c <> "" /\ u = a ++ c /\ b = c ++ v)
  \/ (exists c, a = u ++ c /\ v = c ++ b).
Proof.
  revert u. induction a as [|x a IH]; intros u H.
  - destruct u as [|y u].
    + right. exists "". sapp. now subst.
    + left. exists (String y u). sapp. now subst.
  - destruct u as [|y u].
    + right. exists (String x a). sapp. now subst.
    + sapp. injection H as <- H. destruct (IH u H) as [(c & Hc & -> & ->)|(c & -> & ->)].
      * left. exists c. now sapp.
      * right. exists c. now sapp.
Qed.

Lemma app_eq_nil (a b : string) : a ++ b = "" -> a = "" /\ b = "".
Proof. destruct a; sapp; [now intros ->|discriminate]. Qed.

(** A line that is cut before the end of its CRLF shows no CRLF. *)
Lemma find_crlf_cut_digits (d a c : string) :
  digits_only d = true -> a ++ c = d ++ CRLF -> c <> "" ->
  find_crlf a = None.
Proof.
  revert a. induction d as [|x d IH]; intros a Hd H Hc.
  - sapp. destruct a as [|a1 [|a2 [|a3 a]]]; sapp; try reflexivity.
    + injection H as _ _ H. now destruct Hc.
    + injection H as _ _ H. discriminate H.
  - cbn in Hd. apply andb_prop in Hd as [Hx Hd]. sapp.
    destruct a as [|y a]; [reflexivity|]. sapp. injection H as -> H.
    specialize (IH a Hd H Hc). cbn [find_crlf]. rewrite IH.
    destruct a as [|z a]; [reflexivity|].
    assert ((x =? CR)%char = false) as ->; [|reflexivity].
    apply Ascii.eqb_neq. intros ->. now vm_compute in Hx.
Qed.

Lemma readUntilCRLF_none (pre a : string) :
  find_crlf a = None -> readUntilCRLF (pre ++ a) (buf_length pre) = None.
Proof.
  intros H. unfold readUntilCRLF. now rewrite indexOf_CRLF_app, H.
Qed.

(** A bulk element whose length line is not complete stops the decoder. *)
Lemma parse_elements_cut_line (pre a : string) (n : nat) (args : list arg) :
  find_crlf a = None ->
  parse_elements (pre ++ "$" ++ a) (S n) (buf_length pre) args = None.
Proof.
  intros H. cbn [parse_elements].
  pose proof (buf_length_nonneg pre). pose proof (buf_length_nonneg a).
  destruct (Z.leb_spec (buf_length (pre ++ "$" ++ a)) (buf_length pre)) as [L|_].
  { rewrite app_cons, app_nil_l, buf_length_app, buf_length_cons in L. lia. }
  rewrite app_cons, app_nil_l, byte_at_app.
  cbn [Ascii.eqb Bool.eqb andb]. cbv zeta.
  replace (pre ++ String "$" a) with ((pre ++ "$") ++ a) by str_eq.
  replace (buf_length pre + 1) with (buf_length (pre ++ "$"))
    by now rewrite buf_length_app.
  now rewrite readUntilCRLF_none.
Qed.

(** Nothing left to read stops the decoder. *)
Lemma parse_elements_end (pre : string) (n : nat) (args : list arg) :
  parse_elements pre (S n) (buf_length pre) args = None.
Proof.
  cbn [parse_elements].
  now destruct (Z.leb_spec (buf_length pre) (buf_length pre)); [|lia].
Qed.

(** A bulk element whose length line is complete and whose payload or final
    CRLF is not. *)
Lemma parse_elements_cut_payload (pre s a c : string) (n : nat)
    (args : list arg) :
  ascii_only s -> a ++ c = s ++ CRLF -> c <> "" ->
  parse_elements (pre ++ "$" ++ nat_toString (js_length s) ++ CRLF ++ a)
                 (S n) (buf_length pre) args = None.
Proof.
  intros Hs Hcut Hc. rewrite (js_length_ascii s Hs).
  set (d := nat_toString (String.length s)).
  assert (digits_only d = true) as Hd by apply nat_toString_digits.
  set (buffer := pre ++ "$" ++ d ++ CRLF ++ a).
  assert (buffer = pre ++ String "$" (d ++ CRLF ++ a)) as E1
    by (subst buffer; str_eq).
  assert (buffer = (pre ++ "$") ++ d ++ CRLF ++ a) as E2
    by (subst buffer; str_eq).
  assert (buf_length buffer =
          buf_length pre + 1 + buf_length d + 2 + buf_length a) as Hlen.
  { rewrite E1, buf_length_app, buf_length_cons, !buf_length_app,
      buf_length_CRLF. lia. }
  pose proof (buf_length_nonneg pre). pose proof (buf_length_nonneg a).
  pose proof (buf_length_nonneg d). pose proof (buf_length_nonneg s).
  cbn [parse_elements].
  destruct (Z.leb_spec (buf_length buffer) (buf_length pre)); [lia|].
  assert (byte_at buffer (buf_length pre) = Some "$"%char) as ->
    by (rewrite E1; apply byte_at_app).
  cbn [Ascii.eqb Bool.eqb andb]. cbv zeta.
  assert (readUntilCRLF buffer (buf_length pre + 1) =
          Some (d, buf_length pre + 1 + buf_length d + 2)) as ->.
  { replace (buf_length pre + 1) with (buf_length (pre ++ "$"))
      by now rewrite buf_length_app.
    rewrite E2 at 1.
    rewrite readUntilCRLF_line by now apply find_crlf_digits.
    now rewrite buf_length_app. }
  rewrite (Buffer_toString_ascii d) by now apply digits_only_ascii.
  unfold d at 1. rewrite parseInt10_nat_toString.
  fold (buf_length s).
  destruct (Z.eqb_spec (buf_length s) (-1)); [lia|].
  destruct (Z.ltb_spec (buf_length buffer)
              (buf_length pre + 1 + buf_length d + 2 + buf_length s));
    [reflexivity|].
  (* the payload is all there: the final CRLF is not *)
  assert (exists t, a = s ++ t /\ find_crlf t = None) as (t & -> & Ht).
  { destruct (app_split _ _ _ _ Hcut) as [(x & Hx & -> & ->)|(x & -> & Hx)].
    - rewrite buf_length_app in *.
      assert (buf_length x <= 0) as L by lia.
      destruct x; [now destruct Hx|]. rewrite buf_length_cons in L.
      pose proof (buf_length_nonneg x). lia.
    - exists x. split; [reflexivity|].
      destruct x as [|x1 [|x2 x]]; try reflexivity.
      sapp. injection Hx as _ _ Hx. symmetry in Hx.
      apply app_eq_nil in Hx as [_ ->]. now destruct Hc. }
  replace (buf_length pre + 1 + buf_length d + 2 + buf_length s)
    with (buf_length (pre ++ "$" ++ d ++ CRLF ++ s))
    by (rewrite buf_length_app, app_cons, buf_length_cons, app_nil_l,
          !buf_length_app, buf_length_CRLF; lia).
  replace buffer with ((pre ++ "$" ++ d ++ CRLF ++ s) ++ t)
    by (subst buffer; str_eq).
  rewrite indexOf_CRLF_app, Ht.
  pose proof (buf_length_nonneg (pre ++ "$" ++ d ++ CRLF ++ s)).
  now destruct (Z.eqb_spec (-1) (buf_length (pre ++ "$" ++ d ++ CRLF ++ s)));
    [lia|].
Qed.

(** One encoded element that is cut short stops the decoder. *)
Lemma parse_elements_cut_element (o : option string) (pre a c : string)
    (n : nat) (args : list arg) :
  ascii_slot o -> a ++ c = respBulk o -> c <> "" ->
  parse_elements (pre ++ a) (S n) (buf_length pre) args = None.
Proof.
  intros Ho Hcut Hc. destruct a as [|x a].
  { rewrite app_nil_r. apply parse_elements_end. }
  destruct o as [s|].
  - unfold respBulk in Hcut. sapp. injection Hcut as -> Hcut.
    rewrite <- (app_assoc (nat_toString (js_length s))) in Hcut.
    destruct (app_split _ _ _ _ Hcut) as [(x & Hx & E & ->)|(x & -> & E)].
    + change (String "$" a) with ("$" ++ a).
      apply parse_elements_cut_line.
      eapply find_crlf_cut_digits;
        [apply nat_toString_digits|symmetry; exact E|exact Hx].
    + change (String "$" ((nat_toString (js_length s) ++ CRLF) ++ x))
        with ("$" ++ (nat_toString (js_length s) ++ CRLF) ++ x).
      rewrite (app_assoc (nat_toString (js_length s))).
      eapply parse_elements_cut_payload; [exact Ho|symmetry; exact E|exact Hc].
  - unfold respBulk in Hcut. sapp. injection Hcut as -> Hcut.
    change (String "$" a) with ("$" ++ a). apply parse_elements_cut_line.
    destruct a as [|a1 [|a2 [|a3 [|a4 a]]]]; sapp; try reflexivity.
    + injection Hcut as -> -> _. reflexivity.
    + injection Hcut as -> -> -> _. reflexivity.
    + injection Hcut as _ _ _ _ Hcut.
      apply app_eq_nil in Hcut as [_ ->]. now destruct Hc.
Qed.

(** The encoded elements of [x], cut short anywhere, stop the decoder. *)
Lemma parse_elements_cut (x : list (option string)) :
  Forall ascii_slot x ->
  forall (pre a c : string) (args : list arg),
    a ++ c = join (respBulk <$> x) -> c <> "" ->
    parse_elements (pre ++ a) (length x) (buf_length pre) args = None.
Proof.
  induction 1 as [|o x Ho Hx IH]; intros pre a c args Hcut Hc.
  - cbn in Hcut. apply app_eq_nil in Hcut as [_ ->]. now destruct Hc.
  - cbn [fmap list_fmap join length] in *.
    destruct (app_split _ _ _ _ Hcut) as [(t & Ht & E & ->)|(t & -> & E)].
    + eapply parse_elements_cut_element; [exact Ho|symmetry; exact E|exact Ht].
    + assert (parse_elements (pre ++ respBulk o ++ t) (S (length x))
                (buf_length pre) args =
              parse_elements (pre ++ respBulk o ++ t) (length x)
                (buf_length (pre ++ respBulk o)) (args ++ [to_arg o])%list)
        as ->.
      { rewrite buf_length_app. destruct o as [s|].
        - now apply parse_elements_bulk.
        - apply parse_elements_null. }
      rewrite <- app_assoc. eapply IH; [symmetry; exact E|exact Hc].
Qed.

(** Every proper prefix of an encoded command is refused by the decoder. *)
Lemma parseRESP_cut (x : list (option string)) (a c : string) :
  Forall ascii_slot x -> a ++ c = respArray x -> c <> "" ->
  parseRESP a = None.
Proof.
  intros Hx Hcut Hc. destruct a as [|y a]; [reflexivity|].
  unfold respArray in Hcut. sapp. injection Hcut as -> Hcut.
  rewrite <- (app_assoc (nat_toString (length x))) in Hcut.
  destruct (app_split _ _ _ _ Hcut) as [(t & Ht & E & ->)|(t & -> & E)].
  - unfold parseRESP.
    pose proof (buf_length_nonneg a).
    destruct (Z.eqb_spec (buf_length (String "*" a)) 0) as [L|_].
    { rewrite buf_length_cons in L. lia. }
    change (byte_at (String "*" a) 0) with (Some "*"%char).
    cbn [Ascii.eqb Bool.eqb negb andb].
    change (String "*" a) with ("*" ++ a).
    change 1 with (buf_length "*").
    rewrite readUntilCRLF_none; [reflexivity|].
    eapply find_crlf_cut_digits;
      [apply nat_toString_digits|symmetry; exact E|exact Ht].
  - change (String "*" ((nat_toString (length x) ++ CRLF) ++ t))
      with ("*" ++ (nat_toString (length x) ++ CRLF) ++ t).
    rewrite (app_assoc (nat_toString (length x))), parseRESP_header.
    replace ("*" ++ nat_toString (length x) ++ CRLF ++ t)
      with (("*" ++ nat_toString (length x) ++ CRLF) ++ t) by str_eq.
    eapply parse_elements_cut; [exact Hx|symmetry; exact E|exact Hc].
Qed.

Lemma stake_sdrop (n : nat) (s : string) : stake n s ++ sdrop n s = s.
Proof.
  revert s. induction n as [|n IH]; intros [|c s]; cbn; sapp;
    try reflexivity. now rewrite IH.
Qed.

Lemma sdrop_nonempty (n : nat) (s : string) :
  (n < String.length s)%nat -> sdrop n s <> "".
Proof.
  revert s. induction n as [|n IH]; intros [|c s] H; cbn in *;
    try lia; try discriminate. apply IH. lia.
Qed.

(** Reading the encoded values of [l], of either kind, leaves the decoder
    right after them. *)
Lemma parse_elements_mixed (l : list arg) :
  Forall sendable l ->
  forall (pre post : string) (args : list arg),
    parse_elements (pre ++ join (encode_arg <$> l) ++ post) (length l)
                   (buf_length pre) args
    = Some (args ++ l)%list.
Proof.
  induction 1 as [|o l Ho _ IH]; intros pre post args.
  - cbn. now rewrite List.app_nil_r.
  - cbn [fmap list_fmap join length].
    replace (pre ++ (encode_arg o ++ join (encode_arg <$> l)) ++ post)
      with (pre ++ encode_arg o ++ join (encode_arg <$> l) ++ post)
      by now rewrite !app_assoc.
    assert (parse_elements
              (pre ++ encode_arg o ++ join (encode_arg <$> l) ++ post)
              (S (length l)) (buf_length pre) args =
            parse_elements
              (pre ++ encode_arg o ++ join (encode_arg <$> l) ++ post)
              (length l) (buf_length (pre ++ encode_arg o))
              (args ++ [o])%list) as ->.
    { destruct o as [|s|z]; cbn [encode_arg].
      - rewrite buf_length_app. apply parse_elements_null.
      - rewrite buf_length_app. now apply parse_elements_bulk.
      - apply parse_elements_integer. }
    rewrite <- app_assoc, IH, <- List.app_assoc. reflexivity.
Qed.

(** *** [findMessageEnd] *)

Lemma findMessageEnd_header (k : nat) (body : string) :
  findMessageEnd ("*" ++ nat_toString k ++ CRLF ++ body)
  = skip_elements ("*" ++ nat_toString k ++ CRLF ++ body) k
      (buf_length ("*" ++ nat_toString k ++ CRLF)).
Proof.
  unfold findMessageEnd. set (d := nat_toString k).
  assert (digits_only d = true) as Hd by apply nat_toString_digits.
  set (buffer := "*" ++ d ++ CRLF ++ body).
  pose proof (buf_length_nonneg d).
  change (byte_at buffer 0) with (Some "*"%char).
  cbn [Ascii.eqb Bool.eqb negb andb]. cbv zeta.
  assert (indexOf_CRLF buffer 1 = 1 + buf_length d) as ->.
  { change 1 with (buf_length "*"). subst buffer.
    now rewrite indexOf_CRLF_app, find_crlf_digits. }
  destruct (Z.eqb_spec (1 + buf_length d) (-1)); [lia|].
  assert (buf_slice buffer 1 (1 + buf_length d) = d) as ->.
  { change 1 with (buf_length "*"). subst buffer. apply buf_slice_app. }
  rewrite (Buffer_toString_ascii d) by now apply digits_only_ascii.
  unfold d at 1. rewrite parseInt10_nat_toString.
  destruct (Z.ltb_spec (Z.of_nat k) 0); [lia|].
  rewrite Nat2Z.id. f_equal.
  rewrite app_cons, buf_length_cons, app_nil_l, buf_length_app,
    buf_length_CRLF. lia.
Qed.

(** A bulk string is skipped as a whole. *)
Lemma skip_elements_bulk (pre s rest : string) (n : nat) :
  ascii_only s ->
  skip_elements (pre ++ respBulk (Some s) ++ rest) (S n) (buf_length pre) =
  skip_elements (pre ++ respBulk (Some s) ++ rest) n
                (buf_length (pre ++ respBulk (Some s))).
Proof.
  intros Hs. unfold respBulk. rewrite (js_length_ascii s Hs).
  set (d := nat_toString (String.length s)).
  set (buffer := pre ++ _ ++ rest).
  assert (digits_only d = true) as Hd by apply nat_toString_digits.
  assert (buffer = pre ++ String "$" (d ++ CRLF ++ s ++ CRLF ++ rest)) as E1
    by (subst buffer; str_eq).
  assert (buffer = (pre ++ "$") ++ d ++ CRLF ++ s ++ CRLF ++ rest) as E2
    by (subst buffer; str_eq).
  assert (buf_length buffer =
          buf_length pre + 1 + buf_length d + 2 + buf_length s + 2
          + buf_length rest) as Hlen.
  { rewrite E1, buf_length_app, buf_length_cons, !buf_length_app,
      !buf_length_CRLF. lia. }
  replace (buf_length (pre ++ "$" ++ d ++ CRLF ++ s ++ CRLF))
    with (buf_length pre + 1 + buf_length d + 2 + buf_length s + 2)
    by (rewrite buf_length_app, app_cons, buf_length_cons, app_nil_l,
          !buf_length_app, !buf_length_CRLF; lia).
  pose proof (buf_length_nonneg pre). pose proof (buf_length_nonneg rest).
  pose proof (buf_length_nonneg d). pose proof (buf_length_nonneg s).
  clearbody buffer. cbn [skip_elements].
  destruct (Z.leb_spec (buf_length buffer) (buf_length pre)); [lia|].
  assert (byte_at buffer (buf_length pre) = Some "$"%char) as ->
    by (rewrite E1; apply byte_at_app).
  cbn [Ascii.eqb Bool.eqb negb andb]. cbv zeta.
  assert (indexOf_CRLF buffer (buf_length pre + 1)
          = buf_length pre + 1 + buf_length d) as ->.
  { replace (buf_length pre + 1) with (buf_length (pre ++ "$"))
      by now rewrite buf_length_app.
    rewrite E2. now rewrite indexOf_CRLF_app, find_crlf_digits. }
  destruct (Z.eqb_spec (buf_length pre + 1 + buf_length d) (-1)); [lia|].
  assert (buf_slice buffer (buf_length pre + 1)
            (buf_length pre + 1 + buf_length d) = d) as ->.
  { replace (buf_length pre + 1) with (buf_length (pre ++ "$"))
      by now rewrite buf_length_app.
    rewrite E2. apply buf_slice_app. }
  rewrite (Buffer_toString_ascii d) by now apply digits_only_ascii.
  unfold d at 1. rewrite parseInt10_nat_toString. fold (buf_length s).
  destruct (Z.ltb_spec (buf_length s) 0); [lia|].
  destruct (Z.ltb_spec (buf_length buffer)
              (buf_length pre + 1 + buf_length d + 2 + buf_length s + 2));
    [lia|reflexivity].
Qed.

(** A null bulk string makes [findMessageEnd] give up. *)
Lemma skip_elements_null (pre rest : string) (n : nat) :
  skip_elements (pre ++ "$-1" ++ CRLF ++ rest) (S n) (buf_length pre) = 0.
Proof.
  set (buffer := pre ++ "$-1" ++ CRLF ++ rest).
  assert (buf_length buffer = buf_length pre + 5 + buf_length rest) as Hlen.
  { subst buffer. rewrite !buf_length_app, buf_length_CRLF.
    change (buf_length "$-1") with 3. lia. }
  pose proof (buf_length_nonneg pre). pose proof (buf_length_nonneg rest).
  cbn [skip_elements].
  destruct (Z.leb_spec (buf_length buffer) (buf_length pre)); [lia|].
  assert (byte_at buffer (buf_length pre) = Some "$"%char) as ->.
  { subst buffer. sapp. apply byte_at_app. }
  cbn [Ascii.eqb Bool.eqb negb andb]. cbv zeta.
  assert (buffer = (pre ++ "$") ++ "-1" ++ CRLF ++ rest) as E2
    by (subst buffer; str_eq).
  assert (indexOf_CRLF buffer (buf_length pre + 1) = buf_length pre + 1 + 2)
    as ->.
  { replace (buf_length pre + 1) with (buf_length (pre ++ "$"))
      by now rewrite buf_length_app.
    rewrite E2, indexOf_CRLF_app. reflexivity. }
  destruct (Z.eqb_spec (buf_length pre + 1 + 2) (-1)); [lia|].
  assert (buf_slice buffer (buf_length pre + 1) (buf_length pre + 1 + 2)
          = "-1") as ->.
  { replace (buf_length pre + 1) with (buf_length (pre ++ "$"))
      by now rewrite buf_length_app.
    rewrite E2. apply (buf_slice_app (pre ++ "$") "-1"). }
  reflexivity.
Qed.

(** The elements of a command of strings are skipped up to their end. *)
Lemma skip_elements_strings (strs : list string) :
  Forall ascii_only strs ->
  forall (pre post : string),
    skip_elements (pre ++ join (respBulk <$> (Some <$> strs)) ++ post)
                  (length strs) (buf_length pre)
    = buf_length (pre ++ join (respBulk <$> (Some <$> strs))).
Proof.
  induction 1 as [|s strs Hs _ IH]; intros pre post.
  - cbn. now rewrite app_nil_r.
  - cbn [fmap list_fmap join length].
    replace (pre ++ (respBulk (Some s)
                       ++ join (respBulk <$> (Some <$> strs))) ++ post)
      with (pre ++ respBulk (Some s)
              ++ join (respBulk <$> (Some <$> strs)) ++ post)
      by now rewrite !app_assoc.
    rewrite skip_elements_bulk by exact Hs.
    rewrite <- (app_assoc pre (respBulk (Some s))), IH.
    now rewrite !app_assoc.
Qed.

(** With a null among the elements [findMessageEnd] finds no end. *)
Lemma skip_elements_stuck (x : list (option string)) :
  Forall ascii_slot x -> In None x ->
  forall (pre post : string),
    skip_elements (pre ++ join (respBulk <$> x) ++ post) (length x)
                  (buf_length pre) = 0.
Proof.
  induction 1 as [|o x Ho _ IH]; intros Hin pre post; [destruct Hin|].
  cbn [fmap list_fmap join length].
  replace (pre ++ (respBulk o ++ join (respBulk <$> x)) ++ post)
    with (pre ++ respBulk o ++ join (respBulk <$> x) ++ post)
    by now rewrite !app_assoc.
  destruct o as [s|].
  - destruct Hin as [Hin|Hin]; [discriminate|].
    rewrite skip_elements_bulk by exact Ho.
    rewrite <- (app_assoc pre (respBulk (Some s))). now apply IH.
  - apply skip_elements_null.
Qed.

Lemma buf_slice_suffix (pre rest : string) :
  buf_slice (pre ++ rest) (buf_length pre) (buf_length (pre ++ rest)) = rest.
Proof.
  rewrite <- (app_nil_r rest) at 1.
  rewrite buf_length_app. apply buf_slice_app.
Qed.

(** What [tryParse] does with a whole command of strings and what follows
    it. *)
Lemma tryParse_command (strs : list string) (rest : string) :
  Forall ascii_only strs ->
  tryParse (respArray (Some <$> strs) ++ rest) = (Some (AStr <$> strs), rest).
Proof.
  intros Hs. unfold tryParse.
  set (m := respArray (Some <$> strs)).
  assert (0 < buf_length m) as Hm.
  { unfold m, respArray. rewrite app_cons, buf_length_cons.
    pose proof (buf_length_nonneg
      ("" ++ nat_toString (length (Some <$> strs)) ++ CRLF
          ++ join (respBulk <$> (Some <$> strs)))). lia. }
  pose proof (buf_length_nonneg rest).
  destruct (Z.eqb_spec (buf_length (m ++ rest)) 0) as [L|_].
  { rewrite buf_length_app in L. lia. }
  assert (m ++ rest =
          ("*" ++ nat_toString (length (Some <$> strs)) ++ CRLF)
            ++ join (respBulk <$> (Some <$> strs)) ++ rest) as E
    by (unfold m, respArray; str_eq).
  assert (parseRESP (m ++ rest) = Some (AStr <$> strs)) as ->.
  { rewrite E.
    replace (("*" ++ nat_toString (length (Some <$> strs)) ++ CRLF)
               ++ join (respBulk <$> (Some <$> strs)) ++ rest)
      with ("*" ++ nat_toString (length (Some <$> strs)) ++ CRLF
               ++ join (respBulk <$> (Some <$> strs)) ++ rest) by str_eq.
    rewrite parseRESP_header.
    replace ("*" ++ nat_toString (length (Some <$> strs)) ++ CRLF
               ++ join (respBulk <$> (Some <$> strs)) ++ rest)
      with (("*" ++ nat_toString (length (Some <$> strs)) ++ CRLF)
               ++ join (respBulk <$> (Some <$> strs)) ++ rest) by str_eq.
    rewrite (RoundTrip.parse_elements_encoded (Some <$> strs)).
    - cbn [app]. f_equal. rewrite <- list_fmap_compose. reflexivity.
    - apply Forall_fmap. exact Hs. }
  assert (findMessageEnd (m ++ rest) = buf_length m) as ->.
  { rewrite E.
    replace (("*" ++ nat_toString (length (Some <$> strs)) ++ CRLF)
               ++ join (respBulk <$> (Some <$> strs)) ++ rest)
      with ("*" ++ nat_toString (length (Some <$> strs)) ++ CRLF
               ++ join (respBulk <$> (Some <$> strs)) ++ rest) by str_eq.
    rewrite findMessageEnd_header.
    replace ("*" ++ nat_toString (length (Some <$> strs)) ++ CRLF
               ++ join (respBulk <$> (Some <$> strs)) ++ rest)
      with (("*" ++ nat_toString (length (Some <$> strs)) ++ CRLF)
               ++ join (respBulk <$> (Some <$> strs)) ++ rest) by str_eq.
    rewrite length_fmap, (skip_elements_strings strs Hs).
    f_equal. unfold m, respArray. rewrite length_fmap. str_eq. }
  cbv zeta. destruct (Z.ltb_spec 0 (buf_length m)); [|lia].
  now rewrite buf_slice_suffix.
Qed.

(** A command that holds a null is decoded but never taken out of the
    buffer. *)
Lemma tryParse_stuck (x : list (option string)) (rest : string) :
  Forall ascii_slot x -> In None x ->
  tryParse (respArray x ++ rest) = (None, respArray x ++ rest).
Proof.
  intros Hx Hin. unfold tryParse.
  destruct (buf_length (respArray x ++ rest) =? 0); [reflexivity|].
  destruct (parseRESP (respArray x ++ rest)); [|reflexivity].
  assert (findMessageEnd (respArray x ++ rest) = 0) as ->; [|reflexivity].
  unfold respArray.
  replace (("*" ++ nat_toString (length x) ++ CRLF ++ join (respBulk <$> x))
             ++ rest)
    with ("*" ++ nat_toString (length x) ++ CRLF
             ++ join (respBulk <$> x) ++ rest) by str_eq.
  rewrite findMessageEnd_header.
  replace ("*" ++ nat_toString (length x) ++ CRLF
             ++ join (respBulk <$> x) ++ rest)
    with (("*" ++ nat_toString (length x) ++ CRLF)
             ++ join (respBulk <$> x) ++ rest) by str_eq.
  now apply skip_elements_stuck.
Qed.

End FramingFacts.

(** ** The codec and the buffer, as a client meets them *)

Module FramingTheorems.
Import JS JSFacts NumeralFacts Resp RespFacts CodecProps CodecExtras
  RespBuffer FramingFacts.

(** Closes a goal [ascii_only s], [ascii_slot o] or [sendable a] about
    literals. *)
Ltac ascii_literals :=
  repeat first
    [ apply List.Forall_nil
    | apply List.Forall_cons
    | exact I
    | (split; vm_compute; discriminate)
    | (vm_compute; repeat constructor) ].

(** X1: an array whose elements are ASCII bulk strings, nulls and integers
    (within the range that a JavaScript number holds exactly), written with
    [respBulk] and [respInteger], is decoded by [parseRESP] to exactly these
    values, and the bytes that follow the array (the next pipelined message)
    are not looked at. *)
Theorem mixed_array_is_decoded_and_the_rest_ignored (l : list arg)
    (post : string) :
  Forall sendable l ->
  parseRESP (array_header (length l) ++ join (encode_arg <$> l) ++ post)
  = Some l.
Proof.
  intros Hl. unfold array_header.
  replace (("*" ++ nat_toString (length l) ++ CRLF)
             ++ join (encode_arg <$> l) ++ post)
    with ("*" ++ nat_toString (length l) ++ CRLF
             ++ join (encode_arg <$> l) ++ post) by str_eq.
  rewrite parseRESP_header.
  replace ("*" ++ nat_toString (length l) ++ CRLF
             ++ join (encode_arg <$> l) ++ post)
    with (("*" ++ nat_toString (length l) ++ CRLF)
             ++ join (encode_arg <$> l) ++ post) by str_eq.
  now rewrite parse_elements_mixed.
Qed.

Lemma mixed_array_is_decoded_and_the_rest_ignored_witness :
  Forall sendable [AStr "INCRBY"; ANull; AInt (-5)]
  /\ parseRESP (array_header 3
                  ++ join (encode_arg <$> [AStr "INCRBY"; ANull; AInt (-5)])
                  ++ "*1")
     = Some [AStr "INCRBY"; ANull; AInt (-5)].
Proof.
  assert (Forall sendable [AStr "INCRBY"; ANull; AInt (-5)]) as H
    by ascii_literals.
  split; [exact H|].
  exact (mixed_array_is_decoded_and_the_rest_ignored
           [AStr "INCRBY"; ANull; AInt (-5)] "*1" H).
Defined.

(** X2: [parseRESP] returns [null] on every proper prefix of an encoded
    command of ASCII strings and nulls: a command is never decoded before
    its last byte has arrived. *)
Theorem truncated_command_is_not_decoded (x : list (option string))
    (n : nat) :
  Forall ascii_slot x ->
  (n < String.length (respArray x))%nat ->
  parseRESP (stake n (respArray x)) = None.
Proof.
  intros Hx Hn.
  apply (parseRESP_cut x (stake n (respArray x)) (sdrop n (respArray x)) Hx).
  - apply stake_sdrop.
  - now apply sdrop_nonempty.
Qed.

Lemma truncated_command_is_not_decoded_witness :
  Forall ascii_slot [Some "GET"; Some "k"]
  /\ (17 < String.length (respArray [Some "GET"; Some "k"]))%nat
  /\ parseRESP (stake 17 (respArray [Some "GET"; Some "k"])) = None.
Proof.
  assert (Forall ascii_slot [Some "GET"; Some "k"]) as H by ascii_literals.
  assert (17 < String.length (respArray [Some "GET"; Some "k"]))%nat as L
    by (vm_compute; lia).
  split; [exact H|]. split; [exact L|].
  exact (truncated_command_is_not_decoded [Some "GET"; Some "k"] 17 H L).
Defined.

(** X3: a bulk element that declares the length [-2] is accepted by
    [parseRESP] and decoded to the empty string (only [-1] is a null),
    wherever it stands among the elements of a command. *)
Theorem length_minus_two_decodes_to_the_empty_string
    (x y : list (option string)) :
  Forall ascii_slot x -> Forall ascii_slot y ->
  parseRESP (array_header (length x + S (length y))
               ++ join (respBulk <$> x) ++ ("$-2" ++ CRLF)
               ++ join (respBulk <$> y))
  = Some ((to_arg <$> x) ++ AStr "" :: (to_arg <$> y))%list.
Proof.
  intros Hx Hy. unfold array_header.
  set (k := (length x + S (length y))%nat).
  replace (("*" ++ nat_toString k ++ CRLF)
             ++ join (respBulk <$> x) ++ ("$-2" ++ CRLF)
             ++ join (respBulk <$> y))
    with ("*" ++ nat_toString k ++ CRLF
             ++ join (respBulk <$> x) ++ ("$-2" ++ CRLF)
             ++ join (respBulk <$> y)) by str_eq.
  rewrite parseRESP_header.
  set (pre := "*" ++ nat_toString k ++ CRLF).
  replace ("*" ++ nat_toString k ++ CRLF
             ++ join (respBulk <$> x) ++ ("$-2" ++ CRLF)
             ++ join (respBulk <$> y))
    with (pre ++ join (respBulk <$> x) ++ ("$-2" ++ CRLF)
             ++ join (respBulk <$> y)) by (subst pre; str_eq).
  unfold k. rewrite (parse_elements_run x Hx).
  cbn [app].
  replace (pre ++ join (respBulk <$> x) ++ ("$-2" ++ CRLF)
             ++ join (respBulk <$> y))
    with ((pre ++ join (respBulk <$> x)) ++ "$-2" ++ CRLF
             ++ join (respBulk <$> y)) by str_eq.
  rewrite parse_elements_minus_two.
  replace ((pre ++ join (respBulk <$> x)) ++ "$-2" ++ CRLF
             ++ join (respBulk <$> y))
    with (((pre ++ join (respBulk <$> x)) ++ "$-2" ++ CRLF)
             ++ join (respBulk <$> y) ++ "")
    by (rewrite app_nil_r; str_eq).
  rewrite (RoundTrip.parse_elements_encoded y Hy).
  now rewrite <- List.app_assoc.
Qed.

Lemma length_minus_two_decodes_to_the_empty_string_witness :
  Forall ascii_slot [Some "SET"; Some "k"] /\ Forall ascii_slot []
  /\ parseRESP (array_header 3 ++ join (respBulk <$> [Some "SET"; Some "k"])
                  ++ ("$-2" ++ CRLF) ++ join (respBulk <$> []))
     = Some [AStr "SET"; AStr "k"; AStr ""].
Proof.
  assert (Forall ascii_slot [Some "SET"; Some "k"]) as H by ascii_literals.
  split; [exact H|]. split; [constructor|].
  exact (length_minus_two_decodes_to_the_empty_string
           [Some "SET"; Some "k"] [] H (List.Forall_nil ascii_slot)).
Defined.

(** X4: when the buffer starts with a whole command of ASCII strings,
    [tryParse] returns that command and leaves in the buffer exactly the
    bytes that followed it. *)
Theorem tryParse_takes_the_first_command (strs : list string)
    (rest : string) :
  Forall ascii_only strs ->
  tryParse (respArray (Some <$> strs) ++ rest) = (Some (AStr <$> strs), rest).
Proof. apply tryParse_command. Qed.

Lemma tryParse_takes_the_first_command_witness :
  Forall ascii_only ["SET"; "k"; "v"]
  /\ tryParse (respArray (Some <$> ["SET"; "k"; "v"]) ++ "*2")
     = (Some [AStr "SET"; AStr "k"; AStr "v"], "*2").
Proof.
  assert (Forall ascii_only ["SET"; "k"; "v"]) as H by ascii_literals.
  split; [exact H|].
  exact (tryParse_takes_the_first_command ["SET"; "k"; "v"] "*2" H).
Defined.

(** X5: a command of ASCII strings that arrives in two chunks, cut at any
    byte: after the first chunk [tryParse] returns [null] and keeps the
    chunk; after [append] of the second chunk it returns the command and
    the buffer is empty. *)
Theorem command_in_two_chunks (strs : list string) (n : nat) :
  Forall ascii_only strs ->
  (n < String.length (respArray (Some <$> strs)))%nat ->
  let message := respArray (Some <$> strs) in
  let first := append "" (stake n message) in
  tryParse first = (None, first)
  /\ tryParse (append first (sdrop n message)) = (Some (AStr <$> strs), "").
Proof.
  intros Hs Hn. cbv zeta. unfold append. rewrite app_nil_l. split.
  - unfold tryParse.
    destruct (buf_length (stake n (respArray (Some <$> strs))) =? 0);
      [reflexivity|].
    rewrite (parseRESP_cut (Some <$> strs)
               (stake n (respArray (Some <$> strs)))
               (sdrop n (respArray (Some <$> strs))));
      [reflexivity| |apply stake_sdrop|now apply sdrop_nonempty].
    apply Forall_fmap. exact Hs.
  - rewrite stake_sdrop.
    rewrite <- (app_nil_r (respArray (Some <$> strs))).
    now apply tryParse_command.
Qed.

Lemma command_in_two_chunks_witness :
  Forall ascii_only ["GET"; "k"]
  /\ (9 < String.length (respArray (Some <$> ["GET"; "k"])))%nat
  /\ (let message := respArray (Some <$> ["GET"; "k"]) in
      let first := append "" (stake 9 message) in
      tryParse first = (None, first)
      /\ tryParse (append first (sdrop 9 message))
         = (Some (AStr <$> ["GET"; "k"]), "")).
Proof.
  assert (Forall ascii_only ["GET"; "k"]) as H by ascii_literals.
  assert (9 < String.length (respArray (Some <$> ["GET"; "k"])))%nat as L
    by (vm_compute; lia).
  split; [exact H|]. split; [exact L|].
  exact (command_in_two_chunks ["GET"; "k"] 9 H L).
Defined.

(** X6: a command with a null among its elements is decoded by [parseRESP]
    but never extracted by [tryParse]: [findMessageEnd] gives 0 for a
    negative length, so [tryParse] returns [null] and the command stays at
    the head of the buffer, whatever is appended after it. *)
Theorem command_with_a_null_is_never_extracted (x : list (option string))
    (rest : string) :
  Forall ascii_slot x -> In None x ->
  parseRESP (respArray x ++ rest) = Some (to_arg <$> x)
  /\ tryParse (respArray x ++ rest) = (None, respArray x ++ rest).
Proof.
  intros Hx Hin. split; [|now apply tryParse_stuck].
  unfold respArray.
  replace (("*" ++ nat_toString (length x) ++ CRLF ++ join (respBulk <$> x))
             ++ rest)
    with ("*" ++ nat_toString (length x) ++ CRLF
             ++ join (respBulk <$> x) ++ rest) by str_eq.
  rewrite parseRESP_header.
  replace ("*" ++ nat_toString (length x) ++ CRLF
             ++ join (respBulk <$> x) ++ rest)
    with (("*" ++ nat_toString (length x) ++ CRLF)
             ++ join (respBulk <$> x) ++ rest) by str_eq.
  now rewrite (RoundTrip.parse_elements_encoded x Hx).
Qed.

Lemma command_with_a_null_is_never_extracted_witness :
  Forall ascii_slot [Some "SET"; Some "k"; None]
  /\ In None [Some "SET"; Some "k"; None]
  /\ parseRESP (respArray [Some "SET"; Some "k"; None] ++ "")
     = Some (to_arg <$> [Some "SET"; Some "k"; None])
  /\ tryParse (respArray [Some "SET"; Some "k"; None] ++ "")
     = (None, respArray [Some "SET"; Some "k"; None] ++ "").
Proof.
  assert (Forall ascii_slot [Some "SET"; Some "k"; None]) as H
    by ascii_literals.
  assert (In None [Some "SET"; Some "k"; None]) as Hin
    by (right; right; left; reflexivity).
  split; [exact H|]. split; [exact Hin|].
  exact (command_with_a_null_is_never_extracted
           [Some "SET"; Some "k"; None] "" H Hin).
Defined.

End FramingTheorems.

(** ** The store, call after call *)

Module StoreRunFacts.
Import JS Resp Store Commands Runs RunProps Props ScanProps StoreFacts
  ScanFacts.

Lemma with_transactions_same (st : State) :
  with_transactions (activeTransactions st) st = st.
Proof. now destruct st. Qed.

Lemma transaction_of_Some (c : string) (st : State) :
  c <> "" -> transaction_of (Some c) st = activeTransactions st !! c.
Proof. intros H. cbn. apply String.eqb_neq in H. now rewrite H. Qed.

(** Outside a transaction an accepted write is handed to the engine and
    made on the cache at once. *)
Lemma set_immediate (E : Engine) (key value : string)
    (clientId : option string) (st : State) :
  transaction_of clientId st = None ->
  put_error E key value = None ->
  Store.set E key value clientId st
  = (Return true,
     with_pending (pending st ++ [PWrite (OpPut key value)])
       (with_cache (<[key := value]> (cache st)) st)).
Proof.
  intros Ht Hp. unfold Store.set, queueOrExecute, execute.
  destruct clientId; [rewrite Ht|]; now rewrite Hp.
Qed.

Lemma exists_lookup (st : State) (k : string) :
  (Store.exists_ k st).1
  = match cache st !! k with
    | Some _ => true
    | None => match db st !! k with Some _ => true | None => false end
    end.
Proof.
  unfold Store.exists_.
  destruct (cache st !! k); [reflexivity|]. now destruct (db st !! k).
Qed.

(** Outside a transaction, the removal of a key that [exists] finds and
    that the engine accepts to remove: it is handed to the engine, and the
    key leaves the cache at once. *)
Lemma del_immediate (E : Engine) (key : string) (clientId : option string)
    (st : State) :
  transaction_of clientId st = None ->
  remove_error E key = None ->
  (Store.exists_ key st).1 = true ->
  Store.del E key clientId st
  = (true,
     with_pending (pending st ++ [PWrite (OpRemove key)])
       (with_cache (delete key (cache st)) st)).
Proof.
  intros Ht Hr Hex. unfold Store.del.
  assert (transaction_of clientId (Store.exists_ key st).2 = None) as Ht'.
  { unfold Store.exists_. destruct (cache st !! key); [exact Ht|].
    destruct (db st !! key); exact Ht. }
  assert (pending (Store.exists_ key st).2 = pending st) as Hp
    by apply exists_pending.
  assert (delete key (cache (Store.exists_ key st).2) = delete key (cache st)
          /\ db (Store.exists_ key st).2 = db st
          /\ activeTransactions (Store.exists_ key st).2
             = activeTransactions st
          /\ scanCursors (Store.exists_ key st).2 = scanCursors st
          /\ nextCursorId (Store.exists_ key st).2 = nextCursorId st)
    as (Hc & Hd & Ha & Hs & Hn).
  { unfold Store.exists_. destruct (cache st !! key); [easy|].
    destruct (db st !! key); [|easy]. cbn.
    now rewrite delete_insert_eq. }
  destruct (Store.exists_ key st) as [found st1]. cbn [fst snd] in *.
  subst found. cbn [negb]. rewrite Hr.
  assert ((true,
           with_pending (pending st1 ++ [PWrite (OpRemove key)])
             (with_cache (delete key (cache st1)) st1))
          = (true,
             with_pending (pending st ++ [PWrite (OpRemove key)])
               (with_cache (delete key (cache st)) st))) as Heq.
  { f_equal. unfold with_pending, with_cache, with_data. cbn.
    now rewrite Hp, Hc, Hd, Ha, Hs, Hn. }
  destruct clientId; [rewrite Ht'|]; exact Heq.
Qed.

(** The engine commits one write. *)
Lemma settle_all_one_write (E : Engine) (op : Operation) (c : gmap string string)
    (st : State) :
  pending st = [] ->
  settle_all E (with_pending (pending st ++ [PWrite op]) (with_cache c st))
  = with_data (settle_one E (PWrite op) (db st) c).1 c st.
Proof.
  intros Hp. rewrite settle_all_unfold. cbn. rewrite Hp. cbn.
  destruct st. cbn in *. subst. now destruct op.
Qed.

Lemma value_of_with_data (d c : gmap string string) (st : State)
    (k : string) :
  value_of k (with_data d c st)
  = match c !! k with Some v => Some v | None => d !! k end.
Proof.
  unfold value_of, Store.get. cbn.
  destruct (c !! k); [reflexivity|]. now destruct (d !! k).
Qed.

Lemma value_of_lookup (st : State) (k : string) :
  value_of k st
  = match cache st !! k with Some v => Some v | None => db st !! k end.
Proof.
  unfold value_of, Store.get.
  destruct (cache st !! k); [reflexivity|]. now destruct (db st !! k).
Qed.

Lemma exists_with_data (d c : gmap string string) (st : State)
    (k : string) :
  (Store.exists_ k (with_data d c st)).1
  = match c !! k with
    | Some _ => true
    | None => match d !! k with Some _ => true | None => false end
    end.
Proof.
  unfold Store.exists_. cbn.
  destruct (c !! k); [reflexivity|]. now destruct (d !! k).
Qed.

Lemma set_all_cons (E : Engine) (k v : string) (kvs : list (string * string))
    (clientId : option string) (st : State) :
  set_all E ((k, v) :: kvs) clientId st
  = set_all E kvs clientId (Store.set E k v clientId st).2.
Proof. reflexivity. Qed.

(** In an open transaction the writes only grow the operation log. *)
Lemma set_all_queued (E : Engine) (c : string) (kvs : list (string * string)) :
  c <> "" ->
  forall (st : State) (ops : list Operation),
    activeTransactions st !! c = Some {| operations := ops; active := true |} ->
    set_all E kvs (Some c) st
    = with_transactions
        (<[c := {| operations :=
                     ops ++ ((fun kv => OpPut kv.1 kv.2) <$> kvs);
                   active := true |}]> (activeTransactions st)) st.
Proof.
  intros Hc. induction kvs as [|[k v] kvs IH]; intros st ops H.
  - cbn. rewrite List.app_nil_r, insert_id by exact H.
    symmetry. apply with_transactions_same.
  - rewrite set_all_cons.
    assert ((Store.set E k v (Some c) st).2
            = push_operation c {| operations := ops; active := true |}
                (OpPut k v) st) as ->.
    { unfold Store.set, queueOrExecute.
      rewrite (transaction_of_Some c st Hc), H. reflexivity. }
    rewrite (IH _ (ops ++ [OpPut k v])%list).
    + unfold push_operation, with_transactions. cbn.
      now rewrite insert_insert_eq, <- List.app_assoc.
    + cbn. apply lookup_insert_eq.
Qed.

(** Replaying accepted writes applies them in order to both maps. *)
Lemma replay_puts (E : Engine) (kvs : list (string * string)) :
  accepts_all E kvs ->
  forall d c,
    replay E ((fun kv => OpPut kv.1 kv.2) <$> kvs) d c
    = (Return tt, put_all kvs d, put_all kvs c).
Proof.
  induction 1 as [|[k v] kvs Hk _ IH]; intros d c; [reflexivity|].
  cbn in Hk. cbn [fmap list_fmap replay apply_operation fst snd].
  rewrite Hk. apply IH.
Qed.

(** A call of the store, from a coherent store with nothing pending,
    followed by the engine committing all that is pending. *)
Lemma store_call_settled (E : Engine) (call : StoreCall) (st : State) :
  coherent st -> pending st = [] ->
  coherent (settle_all E (store_call E call st)).
Proof.
  intros Hst Hp.
  assert (forall op,
             coherent (settle_all E (execute E op st).2)) as Hexec.
  { intros op. unfold execute. destruct op as [key value|key|pat].
    - destruct (put_error E key value); cbn [snd];
        [now rewrite settle_all_nothing|].
      rewrite settle_all_one_write by exact Hp. intros k v. cbn.
      destruct (decide (key = k)) as [->|Hne].
      + now rewrite !lookup_insert_eq.
      + rewrite !lookup_insert_ne by assumption. apply Hst.
    - destruct (remove_error E key); cbn [snd];
        [now rewrite settle_all_nothing|].
      rewrite settle_all_one_write by exact Hp. intros k v. cbn.
      destruct (decide (key = k)) as [->|Hne].
      + now rewrite !lookup_delete_eq.
      + rewrite !lookup_delete_ne by assumption. apply Hst.
    - cbn [snd]. now rewrite settle_all_nothing. }
  assert (forall c t op,
             coherent (settle_all E (push_operation c t op st))) as Hpush.
  { intros c t op. rewrite settle_all_nothing by exact Hp. exact Hst. }
  destruct call as [key value cid|key|key|key cid|pat cid|cid|cid|cid
                    |env cursor pat count]; cbn [store_call].
  - unfold Store.set, queueOrExecute.
    destruct cid as [c|]; [|apply Hexec].
    destruct (transaction_of (Some c) st) as [t|]; [|apply Hexec].
    destruct (active t); [apply Hpush|apply Hexec].
  - rewrite settle_all_nothing by now rewrite get_pending.
    now apply get_coherent.
  - rewrite settle_all_nothing by now rewrite exists_pending.
    now apply exists_coherent.
  - unfold Store.del.
    pose proof (exists_coherent key st Hst) as Hst1.
    pose proof (exists_pending key st) as Hp1. rewrite Hp in Hp1.
    destruct (Store.exists_ key st) as [found st1]. cbn [snd] in *.
    destruct found; cbn [negb]; [|now rewrite settle_all_nothing].
    assert (coherent
              (settle_all E
                 match remove_error E key with
                 | Some _ => (false, st1)
                 | None =>
                     (true,
                      with_pending (pending st1 ++ [PWrite (OpRemove key)])
                        (with_cache (delete key (cache st1)) st1))
                 end.2)) as Himm.
    { destruct (remove_error E key); cbn [snd];
        [now rewrite settle_all_nothing|].
      rewrite settle_all_one_write by exact Hp1. intros k v. cbn.
      destruct (decide (key = k)) as [->|Hne].
      + now rewrite !lookup_delete_eq.
      + rewrite !lookup_delete_ne by assumption. apply Hst1. }
    destruct cid as [c|]; [|exact Himm].
    destruct (transaction_of (Some c) st1) as [t|]; [|exact Himm].
    destruct (active t); [|exact Himm]. cbn [snd].
    now rewrite settle_all_nothing.
  - destruct (keys_data pat cid st) as (Hd & Hc & Hq).
    rewrite settle_all_nothing by now rewrite Hq.
    intros k v. rewrite Hd, Hc. apply Hst.
  - unfold beginTransaction.
    destruct (activeTransactions st !! cid); cbn [snd];
      now rewrite settle_all_nothing.
  - unfold commitTransaction. destruct cid as [c|];
      [|now rewrite settle_all_nothing].
    destruct (activeTransactions st !! c) as [t|];
      [|now rewrite settle_all_nothing].
    destruct (active t); cbn [negb snd]; [|now rewrite settle_all_nothing].
    rewrite settle_all_unfold.
    cbn [pending with_transactions with_pending db cache]. rewrite Hp.
    cbn [app].
    destruct (operations t) as [|op ops]; [cbn; exact Hst|].
    cbn [callbacks settle_pending settle_one].
    pose proof (replay_coherent E (op :: ops) (db st) (cache st) Hst) as H.
    destruct (replay E (op :: ops) (db st) (cache st)) as [[o d] c'].
    intros k v. cbn. apply H.
  - unfold abortTransaction. destruct cid as [c|];
      [|now rewrite settle_all_nothing].
    destruct (activeTransactions st !! c) as [t|];
      [|now rewrite settle_all_nothing].
    destruct (active t); cbn [negb snd]; now rewrite settle_all_nothing.
  - rewrite settle_all_nothing by now rewrite scan_pending.
    intros k v. destruct (scan_db env cursor pat count st) as [-> ->].
    apply Hst.
Qed.

(** The collecting loop never collects more than [count] keys in all. *)
Lemma collect_length (pattern : string) (count : Z) (rest : list string) :
  forall (i : nat) (collected : Z) (acc : list string),
    Z.of_nat (length (collect pattern count rest i collected acc).2)
      - Z.of_nat (length acc) + collected
    <= Z.max collected count.
Proof.
  induction rest as [|key rest IH]; intros i collected acc.
  - cbn. lia.
  - cbn [collect]. destruct (Z.ltb_spec collected count) as [Hlt|Hge].
    + destruct (glob_test pattern key).
      * specialize (IH (S i) (collected + 1) (acc ++ [key])%list).
        rewrite length_app in IH. cbn [length] in IH. lia.
      * specialize (IH (S i) collected acc). lia.
    + cbn. lia.
Qed.

(** A cursor that is not in the registry starts a new scan. *)
Lemma scan_unknown_cursor (env : ScanEnv) (cursor : Z) (pattern : string)
    (count : Z) (st : State) :
  scanCursors st !! cursor = None ->
  Store.scan env cursor pattern count st = Store.scan env 0 pattern count st.
Proof.
  intros H. unfold Store.scan. rewrite H. cbn [Z.eqb].
  destruct (cursor =? 0); [reflexivity|]. now destruct (0 <? cursor).
Qed.

Lemma sweep_lookup_None (env : ScanEnv) (m : gmap Z ScanCursor) (i : Z) :
  m !! i = None -> sweep env m !! i = None.
Proof.
  intros H. unfold sweep. destruct (sweepDraw env); [|exact H].
  apply map_lookup_filter_None. now left.
Qed.

(** The cursor given to a call is not in the registry afterwards, unless it
    is the identifier the call hands out. *)
Lemma scan_consumes (env : ScanEnv) (cursor : Z) (pattern : string)
    (count : Z) (st : State) :
  0 < cursor -> cursor <> nextCursorId st ->
  scanCursors (Store.scan env cursor pattern count st).2 !! cursor = None.
Proof.
  intros Hpos Hne. unfold Store.scan.
  destruct (Z.eqb_spec cursor 0); [lia|].
  destruct (Z.ltb_spec 0 cursor); [|lia].
  assert (forall (x : Z * option string * gmap Z ScanCursor),
             x.2 !! cursor = None ->
             scanCursors
               (let '(pos, currentKey, cursors) := x in
                let allKeys := getKeys (db st) in
                let startIndex :=
                  match currentKey with
                  | Some k =>
                      if (0 <? pos) && negb (String.eqb k "")
                      then resume_index k allKeys else O
                  | None => O
                  end in
                let '(i, found) :=
                  collect pattern count (drop startIndex allKeys) startIndex
                    0 [] in
                if (i <? length allKeys)%nat then
                  let newCursorId := nextCursorId st in
                  let cursors :=
                    <[newCursorId := {| position := Z.of_nat i;
                                        lastKey := key_before allKeys i;
                                        pattern := pattern;
                                        createdAt := createdNow env |}]>
                      cursors in
                  ((newCursorId, found),
                   with_cursors (sweep env cursors) (nextCursorId st + 1) st)
                else ((0, found),
                      with_cursors (sweep env cursors) (nextCursorId st) st)).2
             !! cursor = None) as Hgen.
  { intros [[pos currentKey] cursors] Hx. cbn [snd] in Hx. cbv zeta.
    destruct (collect _ _ _ _ _ _) as [i found].
    destruct (i <? length (getKeys (db st)))%nat; cbn.
    - apply sweep_lookup_None. now rewrite lookup_insert_ne by congruence.
    - now apply sweep_lookup_None. }
  apply Hgen.
  destruct (scanCursors st !! cursor) eqn:Hc; cbn [snd].
  - apply lookup_delete_eq.
  - exact Hc.
Qed.

(** *** Patterns *)

Lemma glob_units_star (key : list N) :
  glob_units [42%N] key = forallb plain_unit key.
Proof.
  induction key as [|u key IH]; [reflexivity|].
  cbn [forallb]. rewrite <- IH. reflexivity.
Qed.

Lemma glob_units_literal (pat : list N) :
  forallb literal_unit pat = true ->
  forall key, glob_units pat key = true <-> key = pat.
Proof.
  induction pat as [|p pat IH]; intros Hp key.
  - destruct key; cbn; split; congruence.
  - cbn [forallb] in Hp. apply andb_prop in Hp as [Hl Hp].
    unfold literal_unit in Hl. apply negb_true_iff, orb_false_elim in Hl
      as [H42 H63].
    cbn [glob_units]. rewrite H42.
    destruct key as [|u key]; [split; discriminate|].
    rewrite H63, andb_true_iff, (IH Hp key), N.eqb_eq.
    split; [intros [-> ->]; reflexivity|intros [= -> ->]; now split].
Qed.

End StoreRunFacts.

(** ** What a caller of the store can rely on *)

Module StoreTheorems.
Import JS Resp Store Commands Runs RunProps Props ScanProps StoreFacts
  ScanFacts StoreRunFacts.

(** X7: outside a transaction, a [set] that the engine accepts resolves to
    [true]; afterwards [get] and [exists] of that key give the value
    written and [true], and [get] of every other key gives what it gave
    before. *)
Theorem set_then_get (E : Engine) (key value : string)
    (clientId : option string) (st : State) :
  transaction_of clientId st = None ->
  put_error E key value = None ->
  let st' := (Store.set E key value clientId st).2 in
  (Store.set E key value clientId st).1 = Return true
  /\ value_of key st' = Some value
  /\ (Store.exists_ key st').1 = true
  /\ (forall k, k <> key -> value_of k st' = value_of k st).
Proof.
  intros Ht Hp. cbv zeta. rewrite (set_immediate E key value clientId st Ht Hp).
  cbn [fst snd]. split; [reflexivity|].
  rewrite value_of_lookup, exists_lookup.
  cbn [cache db with_pending with_cache with_data].
  rewrite !lookup_insert_eq.
  split; [reflexivity|]. split; [reflexivity|].
  intros k Hk. rewrite !value_of_lookup.
  cbn [cache db with_pending with_cache with_data].
  now rewrite !lookup_insert_ne by congruence.
Qed.

Lemma set_then_get_witness :
  transaction_of None initial = None
  /\ put_error reliable "k" "v" = None
  /\ (let st' := (Store.set reliable "k" "v" None initial).2 in
      (Store.set reliable "k" "v" None initial).1 = Return true
      /\ value_of "k" st' = Some "v"
      /\ (Store.exists_ "k" st').1 = true
      /\ (forall k, k <> "k" -> value_of k st' = value_of k initial)).
Proof.
  split; [reflexivity|]. split; [reflexivity|].
  exact (set_then_get reliable "k" "v" None initial eq_refl eq_refl).
Defined.

(** X8: outside a transaction and with nothing pending, [del] of a key that
    [get] finds, with an engine that accepts the removal, returns [true].
    Once the engine has committed the removal, and if the key has not been
    read in between, [get] of the key gives [undefined], [exists] gives
    [false], and every other key reads as before. *)
Theorem del_then_get (E : Engine) (key : string) (clientId : option string)
    (st : State) :
  transaction_of clientId st = None ->
  remove_error E key = None ->
  pending st = [] ->
  is_Some (value_of key st) ->
  let st' := settle_all E (Store.del E key clientId st).2 in
  (Store.del E key clientId st).1 = true
  /\ value_of key st' = None
  /\ (Store.exists_ key st').1 = false
  /\ (forall k, k <> key -> value_of k st' = value_of k st).
Proof.
  intros Ht Hr Hp Hv. cbv zeta.
  assert ((Store.exists_ key st).1 = true) as Hex.
  { rewrite exists_lookup. rewrite value_of_lookup in Hv.
    destruct (cache st !! key); [reflexivity|].
    destruct (db st !! key); [reflexivity|now destruct Hv]. }
  rewrite (del_immediate E key clientId st Ht Hr Hex). cbn [fst snd].
  rewrite settle_all_one_write by exact Hp. cbn [settle_one fst].
  split; [reflexivity|].
  rewrite value_of_with_data, exists_with_data, !lookup_delete_eq.
  split; [reflexivity|]. split; [reflexivity|].
  intros k Hk. rewrite value_of_with_data, value_of_lookup.
  now rewrite !lookup_delete_ne by congruence.
Qed.

Lemma del_then_get_witness :
  let st := with_data {[ "k" := "v" ]} ∅ initial in
  transaction_of None st = None
  /\ remove_error reliable "k" = None
  /\ pending st = []
  /\ is_Some (value_of "k" st)
  /\ (let st' := settle_all reliable (Store.del reliable "k" None st).2 in
      (Store.del reliable "k" None st).1 = true
      /\ value_of "k" st' = None
      /\ (Store.exists_ "k" st').1 = false
      /\ (forall k, k <> "k" -> value_of k st' = value_of k st)).
Proof.
  cbv zeta.
  assert (is_Some (value_of "k" (with_data {[ "k" := "v" ]} ∅ initial))) as H
    by (vm_compute; eauto).
  split; [reflexivity|]. split; [reflexivity|]. split; [reflexivity|].
  split; [exact H|].
  exact (del_then_get reliable "k" None
           (with_data {[ "k" := "v" ]} ∅ initial) eq_refl eq_refl eq_refl H).
Defined.

(** X9: the writes that a client makes between [beginTransaction] and
    [commitTransaction] change neither the engine nor the cache.
    [commitTransaction] returns [true] and, at that moment, still changes
    neither: it hands the writes to the engine and forgets the transaction,
    so that a read made right after the commit does not see them.  When the
    engine then runs the transaction, nothing else being pending and the
    engine accepting all the writes, they are applied in the order they
    were made to the engine and to the cache. *)
Theorem queued_writes_are_applied_after_commit (E : Engine) (c : string)
    (kvs : list (string * string)) (st : State) :
  c <> "" ->
  activeTransactions st !! c = None ->
  pending st = [] ->
  accepts_all E kvs ->
  let st1 := (beginTransaction c st).2 in
  let st2 := set_all E kvs (Some c) st1 in
  let st3 := (commitTransaction (Some c) st2).2 in
  same_data st2 st
  /\ (commitTransaction (Some c) st2).1 = true
  /\ same_data st3 st
  /\ activeTransactions st3 = activeTransactions st
  /\ settle_all E st3
     = with_data (put_all kvs (db st)) (put_all kvs (cache st)) st.
Proof.
  intros Hc Hno Hp Hacc. cbv zeta. unfold beginTransaction. rewrite Hno.
  cbn [snd].
  rewrite (set_all_queued E c kvs Hc _ []) by (cbn; apply lookup_insert_eq).
  cbn [app]. split; [split; reflexivity|].
  unfold commitTransaction. cbn [activeTransactions with_transactions].
  rewrite lookup_insert_eq. cbn [active negb operations fst snd].
  split; [reflexivity|]. split; [split; reflexivity|].
  cbn [activeTransactions with_transactions with_pending].
  rewrite insert_insert_eq, delete_insert_eq, delete_id by exact Hno.
  split; [reflexivity|].
  rewrite settle_all_unfold.
  cbn [pending db cache with_transactions with_pending with_data].
  rewrite Hp. cbn [app].
  destruct kvs as [|kv kvs].
  - cbn. destruct st. cbn in *. now subst.
  - cbn [fmap list_fmap callbacks settle_pending settle_one].
    change (OpPut kv.1 kv.2 :: ((fun kv => OpPut kv.1 kv.2) <$> kvs))
      with ((fun kv => OpPut kv.1 kv.2) <$> (kv :: kvs)).
    rewrite (replay_puts E (kv :: kvs) Hacc). cbn [fst snd].
    destruct st. cbn in *. now subst.
Qed.

Lemma queued_writes_are_applied_after_commit_witness :
  "c" <> ""
  /\ activeTransactions initial !! "c" = None
  /\ pending initial = []
  /\ accepts_all reliable [("a", "1"); ("b", "2"); ("a", "3")]
  /\ (let st1 := (beginTransaction "c" initial).2 in
      let st2 :=
        set_all reliable [("a", "1"); ("b", "2"); ("a", "3")] (Some "c") st1 in
      let st3 := (commitTransaction (Some "c") st2).2 in
      same_data st2 initial
      /\ (commitTransaction (Some "c") st2).1 = true
      /\ same_data st3 initial
      /\ activeTransactions st3 = activeTransactions initial
      /\ settle_all reliable st3
         = with_data
             (put_all [("a", "1"); ("b", "2"); ("a", "3")] (db initial))
             (put_all [("a", "1"); ("b", "2"); ("a", "3")] (cache initial))
             initial).
Proof.
  assert ("c" <> "") as Hc by discriminate.
  assert (accepts_all reliable [("a", "1"); ("b", "2"); ("a", "3")]) as Ha
    by (repeat constructor).
  split; [exact Hc|]. split; [reflexivity|]. split; [reflexivity|].
  split; [exact Ha|].
  exact (queued_writes_are_applied_after_commit reliable "c"
           [("a", "1"); ("b", "2"); ("a", "3")] initial Hc eq_refl eq_refl Ha).
Defined.

(** X10: [abortTransaction] after [beginTransaction] and any number of
    writes of that client returns [true] and gives back the store exactly as
    it was before the transaction began. *)
Theorem abort_restores_the_store (E : Engine) (c : string)
    (kvs : list (string * string)) (st : State) :
  c <> "" ->
  activeTransactions st !! c = None ->
  abortTransaction (Some c)
    (set_all E kvs (Some c) (beginTransaction c st).2)
  = (true, st).
Proof.
  intros Hc Hno. unfold beginTransaction. rewrite Hno. cbn [snd].
  rewrite (set_all_queued E c kvs Hc _ []) by (cbn; apply lookup_insert_eq).
  unfold abortTransaction. cbn [activeTransactions with_transactions].
  rewrite lookup_insert_eq. cbn [active negb]. f_equal.
  unfold with_transactions. cbn.
  rewrite insert_insert_eq, delete_insert_eq, delete_id by exact Hno.
  now destruct st.
Qed.

Lemma abort_restores_the_store_witness :
  "c" <> ""
  /\ activeTransactions initial !! "c" = None
  /\ abortTransaction (Some "c")
       (set_all (refusing "b" "boom") [("a", "1"); ("b", "2")] (Some "c")
          (beginTransaction "c" initial).2)
     = (true, initial).
Proof.
  assert ("c" <> "") as Hc by discriminate.
  split; [exact Hc|]. split; [reflexivity|].
  exact (abort_restores_the_store (refusing "b" "boom") "c"
           [("a", "1"); ("b", "2")] initial Hc eq_refl).
Defined.

(** X11: when the engine has the time to commit all that is pending
    between two calls, the cache stays coherent with it.  From a coherent
    store with nothing pending, after any sequence of calls of the store's
    functions, by any clients, each call followed by the engine committing
    everything, every cached value is the value that the engine holds for
    that key and nothing is pending; this holds for every engine, also one
    that refuses writes. *)
Theorem coherence_is_kept_when_the_engine_settles (E : Engine)
    (calls : list StoreCall) (st : State) :
  coherent st ->
  pending st = [] ->
  coherent (settled_calls E calls st)
  /\ pending (settled_calls E calls st) = [].
Proof.
  revert st. induction calls as [|call calls IH]; intros st Hst Hp.
  - split; [exact Hst|exact Hp].
  - unfold settled_calls. cbn [foldl].
    apply IH; [|apply settle_all_pending].
    now apply store_call_settled.
Qed.

Lemma coherence_is_kept_when_the_engine_settles_witness :
  let E := refusing "b" "boom" in
  let calls :=
    [CallSet "a" "1" None; CallBegin "c"; CallSet "a" "2" (Some "c");
     CallSet "b" "3" (Some "c"); CallGet "a"; CallCommit (Some "c");
     CallDel "a" None; CallGet "a"] in
  coherent initial
  /\ pending initial = []
  /\ coherent (settled_calls E calls initial)
  /\ pending (settled_calls E calls initial) = [].
Proof.
  cbv zeta.
  assert (coherent initial) as H0.
  { intros k v H. cbn in H. now rewrite lookup_empty in H. }
  split; [exact H0|]. split; [reflexivity|].
  exact (coherence_is_kept_when_the_engine_settles (refusing "b" "boom")
           [CallSet "a" "1" None; CallBegin "c"; CallSet "a" "2" (Some "c");
            CallSet "b" "3" (Some "c"); CallGet "a"; CallCommit (Some "c");
            CallDel "a" None; CallGet "a"] initial H0 eq_refl).
Defined.

(** X12: a page of [store.scan], for any cursor: it holds no key twice,
    only keys that are in the engine and match the pattern, and no more than
    [count] keys when [count] is not negative; the call changes neither the
    engine nor the cache. *)
Theorem scan_page_is_sound (env : ScanEnv) (cursor : Z) (pattern : string)
    (count : Z) (st : State) :
  let found := (Store.scan env cursor pattern count st).1.2 in
  NoDup found
  /\ (forall key, key ∈ found ->
        is_Some (db st !! key) /\ glob_test pattern key = true)
  /\ (0 <= count -> Z.of_nat (length found) <= count)
  /\ same_data (Store.scan env cursor pattern count st).2 st.
Proof.
  cbv zeta.
  split; [|split; [|split; [|exact (scan_db env cursor pattern count st)]]].
  all: unfold Store.scan.
  all: destruct (if cursor =? 0 then _ else _) as [[pos currentKey] cursors].
  all: cbv zeta.
  all: set (s := match currentKey with Some _ => _ | None => _ end).
  all: pose proof (collect_length pattern count
                     (drop s (getKeys (db st))) s 0 []) as Hlen.
  all: destruct (collect_spec pattern count (drop s (getKeys (db st))) s 0 [])
         as (j & _ & E & _).
  all: rewrite E in *; cbn [app snd] in *.
  all: assert (forall (a b : Z * list string * State) (c : bool),
                  a.1.2 = b.1.2 -> (if c then a else b).1.2 = b.1.2) as Hif
         by (intros a b [] Hab; [exact Hab|reflexivity]).
  all: rewrite Hif by reflexivity; cbn [fst snd].
  - eapply sublist_NoDup; [apply getKeys_NoDup|].
    etransitivity; [apply sublist_filter|].
    etransitivity; [apply sublist_take|apply sublist_drop].
  - intros key Hin. apply list_elem_of_filter in Hin as [Hm Hin]. split.
    + apply elem_of_getKeys.
      eapply elem_of_sublist; [exact Hin|].
      etransitivity; [apply sublist_take|apply sublist_drop].
    + exact Hm.
  - intros Hc. cbn [length] in Hlen. lia.
Qed.

(** X13: a cursor is good for one call.  After a call of [store.scan] with
    a cursor (other than the identifier that this very call hands out), the
    cursor is no longer in the registry, and a later call with it does what
    a call with cursor 0 does: it starts a new scan. *)
Theorem cursor_is_used_once (env env' : ScanEnv) (cursor : Z)
    (pattern pattern' : string) (count count' : Z) (st : State) :
  0 < cursor ->
  cursor <> nextCursorId st ->
  let st' := (Store.scan env cursor pattern count st).2 in
  scanCursors st' !! cursor = None
  /\ Store.scan env' cursor pattern' count' st'
     = Store.scan env' 0 pattern' count' st'.
Proof.
  intros Hpos Hne. cbv zeta.
  pose proof (scan_consumes env cursor pattern count st Hpos Hne) as H.
  split; [exact H|]. now apply scan_unknown_cursor.
Qed.

Lemma cursor_is_used_once_witness :
  let env := {| createdNow := 0; sweepDraw := false; sweepNow := 0 |} in
  let st0 := with_data {[ "a" := "1"; "b" := "2"; "c" := "3" ]} ∅ initial in
  let st := (Store.scan env 0 "*" 1 st0).2 in
  0 < 1
  /\ 1 <> nextCursorId st
  /\ is_Some (scanCursors st !! 1)
  /\ (let st' := (Store.scan env 1 "*" 1 st).2 in
      scanCursors st' !! 1 = None
      /\ Store.scan env 1 "*" 1 st' = Store.scan env 0 "*" 1 st').
Proof.
  cbv zeta.
  assert (1 <> nextCursorId
                 (Store.scan
                    {| createdNow := 0; sweepDraw := false; sweepNow := 0 |}
                    0 "*" 1
                    (with_data {[ "a" := "1"; "b" := "2"; "c" := "3" ]} ∅
                       initial)).2) as Hne by (vm_compute; discriminate).
  split; [lia|]. split; [exact Hne|]. split; [vm_compute; eauto|].
  exact (cursor_is_used_once
           {| createdNow := 0; sweepDraw := false; sweepNow := 0 |}
           {| createdNow := 0; sweepDraw := false; sweepNow := 0 |}
           1 "*" "*" 1 1 _ ltac:(lia) Hne).
Defined.

(** X14: the pattern [*] matches a key exactly when no code unit of the key
    is a line terminator (LF, CR, U+2028, U+2029): the [.] of the regular
    expression that [_globToRegex] builds does not match those. *)
Theorem star_matches_keys_without_line_terminators (key : string) :
  glob_test "*" key = all_units plain_unit key.
Proof. unfold glob_test, all_units. apply glob_units_star. Qed.

(** X15: a pattern that holds neither [*] nor [?] matches a key exactly
    when the key is, code unit for code unit, the pattern: every other
    character, the special characters of regular expressions included,
    stands for itself. *)
Theorem literal_pattern_matches_only_itself (pattern key : string) :
  all_units literal_unit pattern = true ->
  glob_test pattern key = true <-> units key = units pattern.
Proof. intros H. unfold glob_test. now apply glob_units_literal. Qed.

Lemma literal_pattern_matches_only_itself_witness :
  all_units literal_unit "user.1+[x]" = true
  /\ (glob_test "user.1+[x]" "user.1+[x]" = true
      <-> units "user.1+[x]" = units "user.1+[x]").
Proof.
  split; [reflexivity|].
  exact (literal_pattern_matches_only_itself "user.1+[x]" "user.1+[x]"
           eq_refl).
Defined.

(** X16: outside a transaction [store.keys] leaves the store as it is and
    returns, each once, exactly the keys of the engine that match the
    pattern. *)
Theorem keys_lists_the_matching_keys (pattern : string)
    (clientId : option string) (st : State) :
  transaction_of clientId st = None ->
  (Store.keys pattern clientId st).2 = st
  /\ NoDup (Store.keys pattern clientId st).1
  /\ (forall key,
        key ∈ (Store.keys pattern clientId st).1
        <-> is_Some (db st !! key) /\ glob_test pattern key = true).
Proof.
  intros Ht.
  assert (Store.keys pattern clientId st
          = (filter (fun key => glob_test pattern key = true)
               (getKeys (db st)), st)) as ->.
  { unfold Store.keys. destruct clientId; [rewrite Ht|]; reflexivity. }
  cbn [fst snd]. split; [reflexivity|]. split.
  - apply NoDup_filter, getKeys_NoDup.
  - intros key. rewrite list_elem_of_filter, elem_of_getKeys. tauto.
Qed.

Lemma keys_lists_the_matching_keys_witness :
  let st := with_data {[ "a1" := "x"; "b" := "y" ]} ∅ initial in
  transaction_of None st = None
  /\ (Store.keys "a?" None st).2 = st
  /\ NoDup (Store.keys "a?" None st).1
  /\ (forall key,
        key ∈ (Store.keys "a?" None st).1
        <-> is_Some (db st !! key) /\ glob_test "a?" key = true).
Proof.
  cbv zeta. split; [reflexivity|].
  exact (keys_lists_the_matching_keys "a?" None
           (with_data {[ "a1" := "x"; "b" := "y" ]} ∅ initial) eq_refl).
Defined.

End StoreTheorems.

(** ** Sessions of commands *)

Module SessionFacts.
Import JS Resp Store Commands Runs RunProps Props StoreFacts StoreRunFacts.

Lemma enqueue_all_nil (cs : ClientState) : enqueue_all [] cs = cs.
Proof. destruct cs. unfold enqueue_all. cbn. now rewrite List.app_nil_r. Qed.

(** In a transaction every handler queues its command and answers
    [+QUEUED]. *)
Lemma handle_in_transaction (E : Engine) (r : Request) (cs : ClientState)
    (st : State) :
  inTransaction cs = true ->
  handle E r cs st = (QUEUED, enqueue (queued_as r) cs, st).
Proof.
  intros H. destruct r; cbn [handle queued_as];
    unfold Commands.set, Commands.get, Commands.del, Commands.exists_,
      Commands.keys, ping; rewrite H; reflexivity.
Qed.

Lemma handle_all_in_transaction (E : Engine) (rs : list Request) :
  forall (cs : ClientState) (st : State),
    inTransaction cs = true ->
    handle_all E rs cs st
    = (replicate (length rs) QUEUED, enqueue_all (queued_as <$> rs) cs, st).
Proof.
  induction rs as [|r rs IH]; intros cs st H.
  - cbn. now rewrite enqueue_all_nil.
  - cbn [handle_all]. rewrite (handle_in_transaction E r cs st H).
    rewrite (IH (enqueue (queued_as r) cs) st H). cbn.
    unfold enqueue_all, enqueue. cbn. now rewrite <- List.app_assoc.
Qed.

(** What [multi] does for a connection that is not in a transaction and
    whose identifier has no transaction in the store. *)
Lemma multi_begins (now : Z) (rnd : string) (cs : ClientState) (st : State) :
  inTransaction cs = false ->
  activeTransactions st !! transaction_id now rnd cs = None ->
  multi now rnd cs st
  = (respOK, in_multi now rnd cs,
     with_transactions
       (<[transaction_id now rnd cs := {| operations := []; active := true |}]>
          (activeTransactions st)) st).
Proof.
  intros Hin Hno. unfold multi. rewrite Hin.
  fold (transaction_id now rnd cs). unfold beginTransaction. now rewrite Hno.
Qed.

(** The handlers that [exec] runs, on a store with another registry of
    transactions: they neither read nor change the registry. *)
Lemma handle_frame (E : Engine) (r : Request) (t : gmap string TxnState)
    (st : State) :
  handle E r execState (with_transactions t st)
  = ((handle E r execState st).1.1, execState,
     with_transactions t (handle E r execState st).2)
  /\ (handle E r execState st).1.2 = execState.
Proof.
  destruct r; cbn [handle].
  - unfold Commands.set, Store.set, queueOrExecute, execute.
    cbn. destruct (put_error E key value); split; reflexivity.
  - unfold Commands.get, Store.get. cbn.
    destruct (cache st !! key); [split; reflexivity|].
    destruct (db st !! key); split; reflexivity.
  - unfold Commands.del, Store.del, Store.exists_. cbn.
    destruct (cache st !! key) eqn:Hc; cbn.
    + rewrite ?Hc. cbn. destruct (remove_error E key); cbn.
      * rewrite ?Hc. split; reflexivity.
      * rewrite !lookup_delete_eq.
        destruct (db st !! key); split; reflexivity.
    + destruct (db st !! key) eqn:Hd; cbn; [|split; reflexivity].
      rewrite !lookup_insert_eq. cbn. destruct (remove_error E key); cbn.
      * rewrite !lookup_insert_eq. split; reflexivity.
      * rewrite !lookup_delete_eq, ?Hd. split; reflexivity.
  - unfold Commands.exists_, Store.exists_. cbn.
    destruct (cache st !! key); [split; reflexivity|].
    destruct (db st !! key); split; reflexivity.
  - unfold Commands.keys, Store.keys. cbn. split; reflexivity.
  - split; reflexivity.
Qed.

Lemma handle_all_frame (E : Engine) (rs : list Request)
    (t : gmap string TxnState) :
  forall st,
    handle_all E rs execState (with_transactions t st)
    = ((handle_all E rs execState st).1.1, execState,
       with_transactions t (handle_all E rs execState st).2)
    /\ (handle_all E rs execState st).1.2 = execState.
Proof.
  induction rs as [|r rs IH]; intros st; [split; reflexivity|].
  cbn [handle_all].
  destruct (handle_frame E r t st) as [-> Hcs].
  destruct (handle E r execState st) as [[reply cs1] st1]. cbn in Hcs.
  subst cs1. cbn [fst snd].
  destruct (IH st1) as [-> Hcs'].
  destruct (handle_all E rs execState st1) as [[replies cs2] st2].
  cbn in *. subst cs2. split; reflexivity.
Qed.

Lemma handle_all_transactions (E : Engine) (rs : list Request) (st : State) :
  activeTransactions (handle_all E rs execState st).2 = activeTransactions st.
Proof.
  destruct (handle_all_frame E rs (activeTransactions st) st) as [H _].
  rewrite with_transactions_same in H.
  apply (f_equal (fun x => activeTransactions x.2)) in H. exact H.
Qed.

Lemma handle_all_length (E : Engine) (rs : list Request) :
  forall cs st, length (handle_all E rs cs st).1.1 = length rs.
Proof.
  induction rs as [|r rs IH]; intros cs st; [reflexivity|].
  cbn [handle_all]. destruct (handle E r cs st) as [[reply cs1] st1].
  specialize (IH cs1 st1).
  destruct (handle_all E rs cs1 st1) as [[replies cs2] st2].
  cbn in *. now rewrite IH.
Qed.

(** The loop of [exec] over queued commands that all have a handler gives
    what the handlers give when called one after the other. *)
Lemma run_queue_handle_all (E : Engine) (rs : list Request) :
  ReqPing ∉ rs ->
  forall (results : list string) (st : State),
    run_queue E (queued_as <$> rs) results st
    = (inr (results ++ (handle_all E rs execState st).1.1)%list,
       (handle_all E rs execState st).2).
Proof.
  induction rs as [|r rs IH]; intros Hp results st.
  - cbn. now rewrite List.app_nil_r.
  - apply not_elem_of_cons in Hp as [Hr Hp].
    cbn [fmap list_fmap run_queue handle_all].
    assert (run_handler E (queued_as r) st
            = Some ((handle E r execState st).1.1,
                    (handle E r execState st).2)) as ->.
    { destruct r as [k v|k|k|k|p|]; cbn [queued_as run_handler handle];
        try (now destruct Hr).
      - now destruct (Commands.set E execState k v st) as [[? ?] ?].
      - now destruct (Commands.get execState k st) as [[? ?] ?].
      - now destruct (Commands.del E execState k st) as [[? ?] ?].
      - now destruct (Commands.exists_ execState k st) as [[? ?] ?].
      - unfold Commands.keys. cbn.
        now destruct (Store.keys (default "*" p) None st). }
    destruct (handle_frame E r (activeTransactions st) st) as [_ Hcs].
    destruct (handle E r execState st) as [[reply cs1] st1].
    cbn in Hcs. subst cs1. cbn [fst snd].
    rewrite (IH Hp).
    destruct (handle_all E rs execState st1) as [[replies cs2] st2].
    cbn. now rewrite <- List.app_assoc.
Qed.

(** The loop of [exec] runs the commands that have a handler and stops at
    the first one that has none. *)
Lemma run_queue_stops (E : Engine) (pre : list Command) (cmd : Command)
    (post : list Command) :
  Forall (fun c => has_handler c = true) pre ->
  has_handler cmd = false ->
  forall results st,
    run_queue E (pre ++ cmd :: post) results st
    = (inl ("-ERR unknown command " ++ command_name cmd ++ CRLF),
       (run_queue E pre results st).2).
Proof.
  intros Hpre Hcmd. induction Hpre as [|c pre Hc _ IH]; intros results st.
  - cbn. destruct cmd; try discriminate; reflexivity.
  - cbn [app run_queue].
    destruct c as [k v|k|k|p|k|? ?|]; try discriminate; cbn [run_handler].
    + destruct (Commands.set E execState k v st) as [[? ?] ?]. apply IH.
    + destruct (Commands.get execState k st) as [[? ?] ?]. apply IH.
    + destruct (Commands.del E execState k st) as [[? ?] ?]. apply IH.
    + destruct (Commands.keys execState p st) as [[? ?] ?]. apply IH.
    + destruct (Commands.exists_ execState k st) as [[? ?] ?]. apply IH.
Qed.

(** *** The port *)

Lemma port_of_range (value : string) : 1 <= Server.port_of value <= 65535.
Proof.
  unfold Server.port_of, Server.DEFAULT_PORT.
  destruct (parseInt10 value) as [p|]; [|lia].
  destruct (Z.ltb_spec p 1); cbn [orb]; [lia|].
  destruct (Z.ltb_spec 65535 p); lia.
Qed.

End SessionFacts.

(** ** What a client of the server can rely on *)

Module SessionTheorems.
Import JS Resp Store Commands Runs RunProps Props StoreFacts StoreRunFacts
  SessionFacts.



(** X18: MULTI, then any commands, then DISCARD, on a connection that was
    not in a transaction: MULTI and DISCARD answer [+OK], every command in
    between answers [+QUEUED], the store is afterwards exactly as it was
    before MULTI, and the connection is out of the transaction with an
    empty queue. *)
Theorem discard_forgets_the_queued_commands (E : Engine) (now : Z)
    (rnd : string) (cs : ClientState) (rs : list Request) (st : State) :
  inTransaction cs = false ->
  activeTransactions st !! transaction_id now rnd cs = None ->
  let '(r0, cs1, st1) := multi now rnd cs st in
  let '(replies, cs2, st2) := handle_all E rs cs1 st1 in
  let '(r3, cs3, st3) := discard cs2 st2 in
  r0 = respOK
  /\ replies = replicate (length rs) QUEUED
  /\ r3 = respOK
  /\ st3 = st
  /\ inTransaction cs3 = false
  /\ commandQueue cs3 = [].
Proof.
  intros Hin Hno. rewrite (multi_begins now rnd cs st Hin Hno).
  rewrite handle_all_in_transaction by reflexivity.
  unfold discard, abortTransaction. cbn.
  rewrite lookup_insert_eq. cbn.
  repeat split.
  unfold with_transactions. cbn.
  rewrite delete_insert_eq, delete_id by exact Hno. now destruct st.
Qed.

Lemma discard_forgets_the_queued_commands_witness :
  inTransaction fresh_client = false
  /\ activeTransactions initial !! transaction_id 7 "abc" fresh_client = None
  /\ (let '(r0, cs1, st1) := multi 7 "abc" fresh_client initial in
      let '(replies, cs2, st2) :=
        handle_all reliable [ReqSet "k" "v"; ReqPing; ReqDel "k"] cs1 st1 in
      let '(r3, cs3, st3) := discard cs2 st2 in
      r0 = respOK
      /\ replies = replicate (length [ReqSet "k" "v"; ReqPing; ReqDel "k"])
                     QUEUED
      /\ r3 = respOK
      /\ st3 = initial
      /\ inTransaction cs3 = false
      /\ commandQueue cs3 = []).
Proof.
  split; [reflexivity|]. split; [reflexivity|].
  exact (discard_forgets_the_queued_commands reliable 7 "abc" fresh_client
           [ReqSet "k" "v"; ReqPing; ReqDel "k"] initial eq_refl eq_refl).
Defined.

(** X19: EXEC on a queue that holds an entry for which the table of [exec]
    has no handler (the entry that the server queues for PING, or the
    function that the handler of PING queues, are such entries): the reply
    is [-ERR unknown command] with the name of that entry, the commands
    queued before it have been run against the store and stay applied, and
    the connection stays in the transaction with its whole queue. *)
Theorem exec_stops_at_a_command_without_handler (E : Engine)
    (cs : ClientState) (st : State) (pre : list Command) (cmd : Command)
    (post : list Command) :
  inTransaction cs = true ->
  commandQueue cs = (pre ++ cmd :: post)%list ->
  Forall (fun c => has_handler c = true) pre ->
  has_handler cmd = false ->
  exec E cs st
  = ("-ERR unknown command " ++ command_name cmd ++ CRLF, cs,
     (run_queue E pre [] st).2).
Proof.
  intros Hin Hq Hpre Hcmd. unfold exec. rewrite Hin, Hq. cbn [negb].
  now rewrite (run_queue_stops E pre cmd post Hpre Hcmd).
Qed.

Lemma exec_stops_at_a_command_without_handler_witness :
  let ping := CmdOther "PING" [] eq_refl in
  let cs := {| inTransaction := true;
               commandQueue := [CmdSet "k" "v"; ping; CmdGet "k"];
               clientId := Some "c"; name := None |} in
  inTransaction cs = true
  /\ commandQueue cs = ([CmdSet "k" "v"] ++ ping :: [CmdGet "k"])%list
  /\ Forall (fun c => has_handler c = true) [CmdSet "k" "v"]
  /\ has_handler ping = false
  /\ exec reliable cs initial
     = ("-ERR unknown command " ++ "PING" ++ CRLF, cs,
        (run_queue reliable [CmdSet "k" "v"] [] initial).2)
  /\ (Store.get "k" (run_queue reliable [CmdSet "k" "v"] [] initial).2).1
     = Some "v".
Proof.
  cbv zeta.
  assert (Forall (fun c => has_handler c = true) [CmdSet "k" "v"]) as H
    by (repeat constructor).
  split; [reflexivity|]. split; [reflexivity|]. split; [exact H|].
  split; [reflexivity|]. split; [|now vm_compute].
  exact (exec_stops_at_a_command_without_handler reliable
           {| inTransaction := true;
              commandQueue :=
                [CmdSet "k" "v"; CmdOther "PING" [] eq_refl; CmdGet "k"];
              clientId := Some "c"; name := None |}
           initial [CmdSet "k" "v"] (CmdOther "PING" [] eq_refl) [CmdGet "k"]
           eq_refl eq_refl H eq_refl).
Defined.

(** X20: MULTI, then SET, GET, DEL, EXISTS and KEYS commands in any number
    and order, then EXEC: the reply of EXEC is the array of the replies
    that the same commands give when a connection outside a transaction
    sends them one after the other, and the store ends up exactly as after
    those immediate commands, whatever the engine refuses on the way; the
    connection is out of the transaction. *)
Theorem exec_runs_the_commands_one_after_the_other (E : Engine) (now : Z)
    (rnd : string) (cs : ClientState) (rs : list Request) (st : State) :
  inTransaction cs = false ->
  activeTransactions st !! transaction_id now rnd cs = None ->
  ReqPing ∉ rs ->
  let '(_, cs1, st1) := multi now rnd cs st in
  let '(_, cs2, st2) := handle_all E rs cs1 st1 in
  let '(reply, cs3, st3) := exec E cs2 st2 in
  let '(replies, _, st') := handle_all E rs execState st in
  reply = "*" ++ nat_toString (length rs) ++ CRLF ++ join replies
  /\ st3 = st'
  /\ inTransaction cs3 = false
  /\ commandQueue cs3 = [].
Proof.
  intros Hin Hno Hp. rewrite (multi_begins now rnd cs st Hin Hno).
  rewrite handle_all_in_transaction by reflexivity.
  set (id := transaction_id now rnd cs).
  set (T := <[id := {| operations := []; active := true |}]>
              (activeTransactions st)).
  unfold exec. cbn [inTransaction enqueue_all in_multi negb commandQueue app].
  rewrite (run_queue_handle_all E rs Hp).
  destruct (handle_all_frame E rs T st) as [-> _].
  pose proof (handle_all_transactions E rs st) as Htx.
  pose proof (handle_all_length E rs execState st) as Hlen.
  destruct (handle_all E rs execState st) as [[replies cs'] st'].
  cbn [fst snd app clientId] in *.
  unfold commitTransaction.
  cbn [activeTransactions with_transactions].
  change (clientId (enqueue_all (queued_as <$> rs) (in_multi now rnd cs)))
    with (Some id).
  cbv beta iota.
  assert (T !! id = Some {| operations := []; active := true |}) as ->
    by apply lookup_insert_eq.
  cbn [active negb operations replay].
  rewrite Hlen. split; [reflexivity|]. split; [|split; reflexivity].
  unfold with_transactions, with_pending, T. cbn.
  rewrite delete_insert_eq, delete_id by exact Hno.
  rewrite <- Htx, List.app_nil_r. now destruct st'.
Qed.

Lemma exec_runs_the_commands_one_after_the_other_witness :
  let E := refusing "b" "boom" in
  let rs := [ReqSet "a" "1"; ReqSet "b" "2"; ReqGet "a"; ReqKeys None] in
  inTransaction fresh_client = false
  /\ activeTransactions initial !! transaction_id 7 "abc" fresh_client = None
  /\ (ReqPing ∉ rs)
  /\ (let '(_, cs1, st1) := multi 7 "abc" fresh_client initial in
      let '(_, cs2, st2) := handle_all E rs cs1 st1 in
      let '(reply, cs3, st3) := exec E cs2 st2 in
      let '(replies, _, st') := handle_all E rs execState initial in
      reply = "*" ++ nat_toString (length rs) ++ CRLF ++ join replies
      /\ st3 = st'
      /\ inTransaction cs3 = false
      /\ commandQueue cs3 = []).
Proof.
  cbv zeta.
  assert (ReqPing ∉ [ReqSet "a" "1"; ReqSet "b" "2"; ReqGet "a"; ReqKeys None])
    as Hp.
  { intros H. repeat (apply elem_of_cons in H as [H|H]; [discriminate|]).
    now apply elem_of_nil in H. }
  split; [reflexivity|]. split; [reflexivity|]. split; [exact Hp|].
  exact (exec_runs_the_commands_one_after_the_other (refusing "b" "boom") 7
           "abc" fresh_client
           [ReqSet "a" "1"; ReqSet "b" "2"; ReqGet "a"; ReqKeys None] initial
           eq_refl eq_refl Hp).
Defined.

(** X21: whatever the command line holds, the server listens on a port
    between 1 and 65535. *)
Theorem port_is_always_valid (args : list string) :
  1 <= Server.port args <= 65535.
Proof.
  induction args as [|a args IH]; [cbn; unfold Server.DEFAULT_PORT; lia|].
  cbn [Server.port]. destruct args as [|value rest];
    [unfold Server.DEFAULT_PORT; lia|].
  destruct (String.eqb a "--port"); [apply port_of_range|exact IH].
Qed.

(** X22: the first [--port] that is followed by an argument decides: when
    that argument reads as a number between 1 and 65535 the server uses it,
    and what comes later on the command line, a second [--port] included,
    is not looked at. *)
Theorem first_port_argument_decides (pre post : list string)
    (value : string) (p : Z) :
  "--port" ∉ pre ->
  parseInt10 value = Some p ->
  1 <= p <= 65535 ->
  Server.port (pre ++ "--port" :: value :: post) = p.
Proof.
  intros Hpre Hv Hp. induction pre as [|a pre IH].
  - cbn. unfold Server.port_of. rewrite Hv.
    destruct (Z.ltb_spec p 1); [lia|]. now destruct (Z.ltb_spec 65535 p); [lia|].
  - apply not_elem_of_cons in Hpre as [Ha Hpre].
    specialize (IH Hpre). cbn [app Server.port].
    destruct (pre ++ "--port" :: value :: post)%list eqn:El.
    { now destruct pre. }
    apply not_eq_sym, String.eqb_neq in Ha. rewrite Ha. exact IH.
Qed.

Lemma first_port_argument_decides_witness :
  ("--port" ∉ ["--verbose"])
  /\ parseInt10 "8080" = Some 8080
  /\ 1 <= 8080 <= 65535
  /\ Server.port (["--verbose"] ++ "--port" :: "8080" :: ["--port"; "1"])
     = 8080.
Proof.
  assert ("--port" ∉ ["--verbose"]) as H.
  { intros H. apply elem_of_cons in H as [H|H]; [discriminate|].
    now apply elem_of_nil in H. }
  split; [exact H|]. split; [reflexivity|]. split; [lia|].
  exact (first_port_argument_decides ["--verbose"] ["--port"; "1"] "8080" 8080
           H eq_refl ltac:(lia)).
Defined.

End SessionTheorems.

(** ** CLIENT, SCAN and KEYS as a client sees them *)

Module ReplyTheorems.
Import JS JSFacts NumeralFacts Resp RespFacts Store Commands Runs RunProps
  CodecProps Props ScanProps StoreFacts ScanFacts StoreRunFacts SessionFacts.

Lemma parseInt_digits (s : string) :
  digits_only s = true -> s <> "" -> parseInt s = parseInt10 s.
Proof.
  intros Hd Hne. destruct s as [|z r]; [congruence|].
  cbn in Hd. apply andb_prop in Hd as [Hz Hr].
  unfold parseInt, parseInt10.
  rewrite skip_ws_digit, read_sign_digit by assumption. rewrite Hz.
  destruct r as [|x r]; [reflexivity|].
  cbn in Hr. apply andb_prop in Hr as [Hx Hr].
  assert (Ascii.eqb x "x" || Ascii.eqb x "X" = false) as Hxx.
  { apply is_digit_bound in Hx.
    destruct (Ascii.eqb_spec x "x") as [->|_]; [cbn in Hx; lia|].
    destruct (Ascii.eqb_spec x "X") as [->|_]; [cbn in Hx; lia|].
    reflexivity. }
  rewrite Hxx, andb_false_r. now destruct r.
Qed.

Lemma until_underscore_digits (d rest : string) :
  digits_only d = true -> until_underscore (d ++ "_" ++ rest) = d.
Proof.
  induction d as [|c d IH]; intros H; [reflexivity|].
  cbn in H. apply andb_prop in H as [Hc Hd]. sapp. cbn [until_underscore].
  destruct (Ascii.eqb_spec c "_") as [->|_]; [now vm_compute in Hc|].
  now rewrite IH.
Qed.

(** X23: CLIENT SETNAME with a name that is not empty answers [+OK], and a
    CLIENT GETNAME sent afterwards on the same connection answers that name
    as a bulk string, in whatever letter case the subcommands are
    written. *)
Theorem client_name_is_read_back (toUpperCase : string -> string)
    (cs : ClientState) (setname getname n : string) (rest : list string) :
  setname <> "" -> getname <> "" -> n <> "" ->
  toUpperCase setname = "SETNAME" ->
  toUpperCase getname = "GETNAME" ->
  let '(r1, cs1) := client toUpperCase cs (Some setname) (n :: rest) in
  r1 = respOK
  /\ client toUpperCase cs1 (Some getname) [] = (respBulk (Some n), cs1).
Proof.
  intros Hs Hg Hn Us Ug.
  apply String.eqb_neq in Hs, Hg, Hn.
  unfold client. cbn [truthy head]. rewrite Hs, Hg, Hn, Us, Ug.
  cbn [String.eqb Ascii.eqb Bool.eqb andb name truthy].
  split; [reflexivity|]. now rewrite Hn.
Qed.

Lemma client_name_is_read_back_witness :
  "setName" <> "" /\ "getname" <> "" /\ "worker-1" <> ""
  /\ ascii_toUpperCase "setName" = "SETNAME"
  /\ ascii_toUpperCase "getname" = "GETNAME"
  /\ (let '(r1, cs1) :=
        client ascii_toUpperCase fresh_client (Some "setName") ["worker-1"] in
      r1 = respOK
      /\ client ascii_toUpperCase cs1 (Some "getname") []
         = (respBulk (Some "worker-1"), cs1)).
Proof.
  assert ("setName" <> "") as H1 by discriminate.
  assert ("getname" <> "") as H2 by discriminate.
  assert ("worker-1" <> "") as H3 by discriminate.
  split; [exact H1|]. split; [exact H2|]. split; [exact H3|].
  split; [reflexivity|]. split; [reflexivity|].
  exact (client_name_is_read_back ascii_toUpperCase fresh_client "setName"
           "getname" "worker-1" [] H1 H2 H3 eq_refl eq_refl).
Defined.

(** X24: on a connection that has no identifier yet, MULTI makes one up
    from the clock ([now], a time in milliseconds that a JavaScript number
    holds exactly); from then on CLIENT ID answers the time at which that
    MULTI ran, as an integer. *)
Theorem client_id_is_the_time_of_multi (toUpperCase : string -> string)
    (now : Z) (rnd : string) (cs : ClientState) (id : string) (st : State) :
  inTransaction cs = false ->
  no_clientId cs = true ->
  0 <= now <= MAX_SAFE_INTEGER ->
  id <> "" -> toUpperCase id = "ID" ->
  (client toUpperCase (multi now rnd cs st).1.2 (Some id) []).1
  = respInteger now.
Proof.
  intros Hin Hno [Hnow _] Hid Uid. unfold multi. rewrite Hin, Hno.
  destruct (beginTransaction _ st) as [t st'].
  cbn [fst snd]. apply String.eqb_neq in Hid.
  unfold client. cbn [truthy]. rewrite Hid, Uid.
  cbn [String.eqb Ascii.eqb Bool.eqb andb clientId fst].
  rewrite !app_cons, app_nil_l.
  cbn [truthy String.eqb second_segment Ascii.eqb Bool.eqb andb].
  rewrite (num_toString_nonneg now Hnow).
  rewrite !app_nil_l. change (String "_" rnd) with ("_" ++ rnd).
  rewrite until_underscore_digits by apply nat_toString_digits.
  rewrite parseInt_digits, parseInt10_nat_toString.
  - unfold respInteger, number_or_NaN.
    now rewrite Z2Nat.id, app_cons, app_nil_l.
  - apply nat_toString_digits.
  - rewrite nat_toString_N. apply pretty_N_digits.
Qed.

Lemma client_id_is_the_time_of_multi_witness :
  inTransaction fresh_client = false
  /\ no_clientId fresh_client = true
  /\ 0 <= 1700000000000 <= MAX_SAFE_INTEGER
  /\ "id" <> "" /\ ascii_toUpperCase "id" = "ID"
  /\ (client ascii_toUpperCase
        (multi 1700000000000 "k3j9x0q1z" fresh_client initial).1.2
        (Some "id") []).1
     = respInteger 1700000000000.
Proof.
  assert ("id" <> "") as H by discriminate.
  assert (0 <= 1700000000000 <= MAX_SAFE_INTEGER) as Hn
    by (unfold MAX_SAFE_INTEGER; lia).
  split; [reflexivity|]. split; [reflexivity|]. split; [exact Hn|].
  split; [exact H|]. split; [reflexivity|].
  exact (client_id_is_the_time_of_multi ascii_toUpperCase 1700000000000
           "k3j9x0q1z" fresh_client "id" initial eq_refl eq_refl
           Hn H eq_refl).
Defined.

(** X25: SCAN with a cursor argument that is missing, no number, negative,
    zero, or a number that the registry does not hold answers exactly what
    SCAN with cursor 0 answers: a new iteration, without any error. *)
Theorem scan_with_a_bad_cursor_starts_over (toUpperCase : string -> string)
    (cursor : option arg) (args : list arg) (env : ScanEnv) (st : State) :
  bad_cursor cursor st ->
  Commands.scan toUpperCase cursor args env st
  = Commands.scan toUpperCase (Some (AStr "0")) args env st.
Proof.
  unfold bad_cursor. intros Hbad. unfold Commands.scan, scan_page.
  destruct (parse_options toUpperCase args "*" 10) as [[pattern count]|msg];
    [|reflexivity].
  change (arg_parseInt10 (Some (AStr "0"))) with (Some 0).
  cbn [Z.ltb Z.compare].
  destruct (arg_parseInt10 cursor) as [c|]; [|reflexivity].
  destruct (Z.ltb_spec c 0); [reflexivity|].
  destruct Hbad as [Hc|Hc].
  - now replace c with 0 by lia.
  - now rewrite (scan_unknown_cursor env c pattern count st Hc).
Qed.

Lemma scan_with_a_bad_cursor_starts_over_witness :
  let st := with_data {[ "a" := "1"; "b" := "2" ]} ∅ initial in
  let env := {| createdNow := 0; sweepDraw := false; sweepNow := 0 |} in
  bad_cursor (Some (AStr "17")) st
  /\ Commands.scan ascii_toUpperCase (Some (AStr "17"))
       [AStr "COUNT"; AStr "1"] env st
     = Commands.scan ascii_toUpperCase (Some (AStr "0"))
         [AStr "COUNT"; AStr "1"] env st.
Proof.
  cbv zeta.
  assert (bad_cursor (Some (AStr "17"))
            (with_data {[ "a" := "1"; "b" := "2" ]} ∅ initial)) as H
    by (right; reflexivity).
  split; [exact H|].
  exact (scan_with_a_bad_cursor_starts_over ascii_toUpperCase
           (Some (AStr "17")) [AStr "COUNT"; AStr "1"]
           {| createdNow := 0; sweepDraw := false; sweepNow := 0 |}
           (with_data {[ "a" := "1"; "b" := "2" ]} ∅ initial) H).
Defined.

(** X26: outside a transaction, when the keys of the engine are ASCII
    strings, the reply of KEYS, decoded with [parseRESP], is a list without
    repetition of exactly the keys of the engine that match the pattern
    (the pattern [*] when none is given). *)
Theorem keys_reply_decodes_to_the_matching_keys (cs : ClientState)
    (pattern : option string) (st : State) :
  inTransaction cs = false ->
  transaction_of (clientId cs) st = None ->
  ascii_keys st ->
  exists found : list string,
    parseRESP (Commands.keys cs pattern st).1.1 = Some (AStr <$> found)
    /\ NoDup found
    /\ (forall key,
          key ∈ found
          <-> is_Some (db st !! key)
              /\ glob_test (default "*" pattern) key = true).
Proof.
  intros Hin Ht Hascii. unfold Commands.keys. rewrite Hin.
  assert (Store.keys (default "*" pattern) (clientId cs) st
          = (filter (fun key => glob_test (default "*" pattern) key = true)
               (getKeys (db st)), st)) as ->.
  { unfold Store.keys. destruct (clientId cs); [rewrite Ht|]; reflexivity. }
  cbn [fst snd].
  set (found := filter _ (getKeys (db st))).
  assert (forall key,
             key ∈ found
             <-> is_Some (db st !! key)
                 /\ glob_test (default "*" pattern) key = true) as Hfound.
  { intros key. unfold found.
    rewrite list_elem_of_filter, elem_of_getKeys. tauto. }
  exists found. split; [|split; [|exact Hfound]].
  - rewrite RoundTrip.parseRESP_respArray_ascii.
    + f_equal. rewrite <- list_fmap_compose. reflexivity.
    + apply Forall_fmap, Forall_forall. intros key Hk. cbn.
      apply Hascii. now apply Hfound.
  - apply NoDup_filter, getKeys_NoDup.
Qed.

Lemma keys_reply_decodes_to_the_matching_keys_witness :
  let st := with_data {[ "a1" := "x"; "b" := "y" ]} ∅ initial in
  inTransaction fresh_client = false
  /\ transaction_of (clientId fresh_client) st = None
  /\ ascii_keys st
  /\ exists found : list string,
       parseRESP (Commands.keys fresh_client (Some "a*") st).1.1
       = Some (AStr <$> found)
       /\ NoDup found
       /\ (forall key,
             key ∈ found
             <-> is_Some (db st !! key)
                 /\ glob_test (default "*" (Some "a*")) key = true).
Proof.
  cbv zeta.
  assert (ascii_keys (with_data {[ "a1" := "x"; "b" := "y" ]} ∅ initial)) as H.
  { intros key [v Hk]. cbn in Hk.
    apply lookup_insert_Some in Hk as [[<- _]|[_ Hk]];
      [vm_compute; repeat constructor|].
    apply lookup_singleton_Some in Hk as [<- _].
    vm_compute; repeat constructor. }
  split; [reflexivity|]. split; [reflexivity|]. split; [exact H|].
  exact (keys_reply_decodes_to_the_matching_keys fresh_client (Some "a*")
           (with_data {[ "a1" := "x"; "b" := "y" ]} ∅ initial)
           eq_refl eq_refl H).
Defined.

End ReplyTheorems.

(** ** Pipelined commands *)

Module ConnectionTheorems.
Import JS JSFacts NumeralFacts Resp RespFacts CodecProps CodecExtras
  RespBuffer FramingFacts Connection.

Lemma length_stake_le (n : nat) (s : string) :
  (String.length (stake n s) <= n)%nat.
Proof.
  revert s. induction n as [|n IH]; intros [|c s]; cbn; try lia.
  specialize (IH s). lia.
Qed.

(** A message that [tryParse] extracts takes at least one byte off the
    buffer. *)
Lemma tryParse_shrinks (buffer buffer' : string) (args : list arg) :
  tryParse buffer = (Some args, buffer') ->
  (String.length buffer' < String.length buffer)%nat.
Proof.
  unfold tryParse.
  destruct (Z.eqb_spec (buf_length buffer) 0) as [|Hne]; [discriminate|].
  destruct (parseRESP buffer); [|discriminate]. cbv zeta.
  destruct (Z.ltb_spec 0 (findMessageEnd buffer)) as [Hpos|]; [|discriminate].
  intros [= _ <-]. unfold buf_slice, clamp_index.
  pose proof (buf_length_nonneg buffer) as Hlen.
  destruct (Z.ltb_spec (findMessageEnd buffer) 0); [lia|].
  destruct (Z.ltb_spec (buf_length buffer) 0); [lia|].
  rewrite (Z.min_id (buf_length buffer)).
  destruct (Z.leb_spec (buf_length buffer)
              (Z.min (findMessageEnd buffer) (buf_length buffer))).
  - cbn. unfold buf_length in *. lia.
  - pose proof (length_stake_le
        (Z.to_nat (buf_length buffer
                   - Z.min (findMessageEnd buffer) (buf_length buffer)))
        (sdrop (Z.to_nat (Z.min (findMessageEnd buffer) (buf_length buffer)))
           buffer)).
    unfold buf_length in *. lia.
Qed.

Lemma extract_ends (fuel : nat) :
  forall buffer,
    (String.length buffer < fuel)%nat ->
    exists cmds final, extract fuel buffer = Some (cmds, final).
Proof.
  induction fuel as [|fuel IH]; intros buffer Hlen; [lia|].
  cbn [extract]. destruct (tryParse buffer) as [[args|] buffer'] eqn:E.
  - apply tryParse_shrinks in E.
    destruct (IH buffer') as (cmds & final & ->); [lia|]. eauto.
  - eauto.
Qed.

(** X27: the loop of the "data" handler always ends: whatever bytes are in
    the buffer, [tryParse] returns [null] after at most as many extracted
    commands as the buffer has bytes, because every extracted command takes
    at least one byte off the buffer. *)
Theorem data_loop_always_ends (buffer data : string) :
  exists cmds final,
    on_data (S (String.length (append buffer data))) false buffer data
    = Some (cmds, final).
Proof. unfold on_data. apply extract_ends. lia. Qed.

Lemma pipeline_cons (strs : list string) (cmds : list (list string)) :
  pipeline (strs :: cmds) = respArray (Some <$> strs) ++ pipeline cmds.
Proof. reflexivity. Qed.

Lemma extract_pipeline (cmds : list (list string)) (tail : string) :
  Forall (Forall ascii_only) cmds ->
  tryParse tail = (None, tail) ->
  forall fuel,
    (length cmds < fuel)%nat ->
    extract fuel (pipeline cmds ++ tail)
    = Some ((fun strs : list string => AStr <$> strs) <$> cmds, tail).
Proof.
  intros Hc Htail. induction Hc as [|strs cmds Hs _ IH]; intros fuel Hf.
  - destruct fuel as [|fuel]; [cbn in Hf; lia|].
    cbn [extract pipeline fmap list_fmap join]. rewrite app_nil_l.
    now rewrite Htail.
  - destruct fuel as [|fuel]; [lia|]. cbn [length] in Hf.
    rewrite pipeline_cons, app_assoc. cbn [extract].
    rewrite (tryParse_command strs _ Hs), IH by lia. reflexivity.
Qed.

(** X28: commands of ASCII strings that arrive pipelined in one chunk on an
    empty buffer, followed by the first bytes of a further command, are
    all handed to [processCommand], in the order they were sent, and the
    bytes of the unfinished command are kept in the buffer. *)
Theorem pipelined_commands_are_extracted_in_order
    (cmds : list (list string)) (partial : list string) (n : nat) :
  Forall (Forall ascii_only) cmds ->
  Forall ascii_only partial ->
  (n < String.length (respArray (Some <$> partial)))%nat ->
  let unfinished := stake n (respArray (Some <$> partial)) in
  on_data (S (length cmds)) false "" (pipeline cmds ++ unfinished)
  = Some ((fun strs : list string => AStr <$> strs) <$> cmds, unfinished).
Proof.
  intros Hc Hp Hn. cbv zeta. unfold on_data, append. rewrite app_nil_l.
  apply extract_pipeline; [exact Hc| |lia].
  unfold tryParse.
  destruct (buf_length (stake n (respArray (Some <$> partial))) =? 0);
    [reflexivity|].
  rewrite (parseRESP_cut (Some <$> partial)
             (stake n (respArray (Some <$> partial)))
             (sdrop n (respArray (Some <$> partial))));
    [reflexivity| |apply stake_sdrop|now apply sdrop_nonempty].
  apply Forall_fmap. exact Hp.
Qed.

Lemma pipelined_commands_are_extracted_in_order_witness :
  Forall (Forall ascii_only) [["SET"; "k"; "v"]; ["GET"; "k"]]
  /\ Forall ascii_only ["DEL"; "k"]
  /\ (11 < String.length (respArray (Some <$> ["DEL"; "k"])))%nat
  /\ (let unfinished := stake 11 (respArray (Some <$> ["DEL"; "k"])) in
      on_data 3 false ""
        (pipeline [["SET"; "k"; "v"]; ["GET"; "k"]] ++ unfinished)
      = Some ([[AStr "SET"; AStr "k"; AStr "v"]; [AStr "GET"; AStr "k"]],
              unfinished)).
Proof.
  assert (Forall (Forall ascii_only) [["SET"; "k"; "v"]; ["GET"; "k"]]) as H1
    by (repeat first [apply List.Forall_nil | apply List.Forall_cons];
        vm_compute; repeat constructor).
  assert (Forall ascii_only ["DEL"; "k"]) as H2
    by (repeat first [apply List.Forall_nil | apply List.Forall_cons];
        vm_compute; repeat constructor).
  assert (11 < String.length (respArray (Some <$> ["DEL"; "k"])))%nat as H3
    by (vm_compute; lia).
  split; [exact H1|]. split; [exact H2|]. split; [exact H3|].
  exact (pipelined_commands_are_extracted_in_order
           [["SET"; "k"; "v"]; ["GET"; "k"]] ["DEL"; "k"] 11 H1 H2 H3).
Defined.

End ConnectionTheorems.
